(** * Video-Depth-Anything-GUI: the batch worker and the H.26x encoding helper

    A shallow embedding of [VDA_gui.py] (the worker thread
    [process_videos_threaded]) and of [utils/h26x_utils.py]
    ([run_h26x_encoding]), with the properties of the notification channel,
    the output writer and the numeric transforms.

    Conventions of the model.
    - Depth values are the finite values of the arrays, as rationals ([Qc]).
      The subtraction of the visualization inversion is the rounded one of
      the array's type: it is read from [env] ([np_subtract]) and assumed
      only to keep the order.  The other arithmetic is exact.
    - The update queue, the external write calls, the directories created and
      the ndarray objects live in an explicit [state]; Python exceptions are
      the [Raise] results of a state-and-error monad.
    - What the operating system, the model runtime and the stop button do is
      read from an [env] record. *)

From Stdlib Require Import ZArith QArith Qcanon Qround String Ascii List Lia Lqa Bool DecimalString.
From stdpp Require Import base tactics option list strings gmap pretty.

Import ListNotations.
Local Open Scope string_scope.
Local Open Scope list_scope.

(** ** Exceptions and results *)

(** The exception classes the two files tell apart in their [except]
    clauses.  [Exception] stands for every other subclass of Python's
    [Exception]. *)
Inductive exn : Type :=
| FileNotFoundError (msg : string)
| CalledProcessError (cmd : list string) (returncode : Z) (stderr : string)
| KeyError (msg : string)
| ValueError (msg : string)
| Exception (msg : string).

(** [sep.join(parts)] *)
Definition join (sep : string) (parts : list string) : string := String.concat sep parts.

(** [repr(cmd)] for a list of strings without quote characters. *)
Definition repr_list (cmd : list string) : string :=
  "[" +:+ join ", " (map (fun a : string => "'" +:+ a +:+ "'") cmd) +:+ "]".

(** [str(e)] *)
Definition str (e : exn) : string :=
  match e with
  | FileNotFoundError m => m
  | CalledProcessError cmd rc _ =>
      "Command '" +:+ repr_list cmd +:+ "' returned non-zero exit status " +:+ pretty rc +:+ "."
  | KeyError m => m
  | ValueError m => m
  | Exception m => m
  end.

Inductive result (A : Type) : Type :=
| Ok (a : A)
| Raise (e : exn).
Arguments Ok {A} a.
Arguments Raise {A} e.

(** ** Strings and paths *)

Definition nl : string := String (ascii_of_nat 10) EmptyString.

Definition slash : ascii := "/"%char.
Definition dot : ascii := "."%char.

(** Splits a reversed character list at its first occurrence of [c]:
    the part before it, and what follows it when [c] occurs. *)
Fixpoint break_at (c : ascii) (l : list ascii) : list ascii * option (list ascii) :=
  match l with
  | [] => ([], None)
  | x :: r =>
      if Ascii.eqb x c then ([], Some r)
      else let '(a, b) := break_at c r in (x :: a, b)
  end.

(** [os.path.basename(p)]: what follows the last slash. *)
Definition basename (p : string) : string :=
  string_of_list_ascii (rev (fst (break_at slash (rev (list_ascii_of_string p))))).

Fixpoint drop_slashes (l : list ascii) : list ascii :=
  match l with
  | x :: r => if Ascii.eqb x slash then drop_slashes r else l
  | [] => []
  end.

(** [os.path.dirname(p)]: the head up to the last slash, with its trailing
    slashes removed unless it holds nothing else. *)
Definition dirname (p : string) : string :=
  match snd (break_at slash (rev (list_ascii_of_string p))) with
  | None => ""
  | Some rhead =>
      match drop_slashes rhead with
      | [] => string_of_list_ascii (rev (slash :: rhead))
      | stripped => string_of_list_ascii (rev stripped)
      end
  end.

(** [os.path.splitext(name)[0]] for a name without directory part: the
    last dot starts the extension unless only dots precede it. *)
Definition splitext_root (name : string) : string :=
  match break_at dot (rev (list_ascii_of_string name)) with
  | (_, None) => name
  | (_, Some rroot) =>
      if forallb (fun c => Ascii.eqb c dot) rroot then name
      else string_of_list_ascii (rev rroot)
  end.

Definition ends_with_slash (a : string) : bool :=
  match rev (list_ascii_of_string a) with
  | x :: _ => Ascii.eqb x slash
  | [] => false
  end.

(** [os.path.join(a, b)] for a relative [b]. *)
Definition path_join (a b : string) : string :=
  if String.eqb a "" then b
  else if ends_with_slash a then a ++ b
  else a ++ "/" ++ b.

(** [s.lower()] on ASCII. *)
Definition lower_ascii (c : ascii) : ascii :=
  let n := nat_of_ascii c in
  if ((65 <=? n) && (n <=? 90))%nat then ascii_of_nat (n + 32) else c.

Definition lower (s : string) : string :=
  string_of_list_ascii (map lower_ascii (list_ascii_of_string s)).

(** [s.endswith(suffixes)] with a tuple of suffixes. *)
Definition endswith (s : string) (suffixes : list string) : bool :=
  existsb (fun suf => String.prefix (String.rev suf) (String.rev s)) suffixes.

(** [f"{j:05d}"] *)
Definition fmt05d (j : nat) : string :=
  let d := pretty j in
  string_of_list_ascii (repeat "0"%char (5 - String.length d)) ++ d.

(** ** Arrays

    An ndarray of shape (H, W) is a list of H rows of W values; a sequence
    of T such arrays (shape (T, H, W)) is a list of them.  A decoded frame
    of shape (H, W, 3) is a list of rows of RGB triples. *)

Abbreviation pixel := (Z * Z * Z)%type (only parsing).
Abbreviation frame := (list (list pixel)) (only parsing).
Abbreviation depth_map := (list (list Qc)) (only parsing).
Abbreviation depth_seq := (list depth_map) (only parsing).

(** [a.shape] for the two leading axes. *)
Definition shape {A : Type} (a : list (list A)) : nat * nat :=
  (length a, length (hd [] a)).

Definition shape_eqb (s1 s2 : nat * nat) : bool :=
  Nat.eqb (fst s1) (fst s2) && Nat.eqb (snd s1) (snd s2).

(** [np.stack(arrs, axis=0)]: raises on an empty list and on arrays of
    different shapes. *)
Definition np_stack {A : Type} (arrs : list (list (list A))) : result (list (list (list A))) :=
  match arrs with
  | [] => Raise (ValueError "need at least one array to stack")
  | a :: rest =>
      if forallb (fun b => shape_eqb (shape b) (shape a)) rest then Ok arrs
      else Raise (ValueError "all input arrays must have the same shape")
  end.

(** [np.flip(a, axis=1)]: the second axis (the width) is reversed. *)
Definition np_flip_axis1 {A : Type} (a : list (list A)) : list (list A) :=
  map (@rev A) a.

Definition Qcleb (x y : Qc) : bool := Qle_bool x y.
Definition Qcmax (x y : Qc) : Qc := if Qcleb x y then y else x.
Definition Qcmin (x y : Qc) : Qc := if Qcleb x y then x else y.

(** [a.ravel()] for a sequence of maps. *)
Definition ravel (d : depth_seq) : list Qc := concat (concat d).

(** [a.max()] and [a.min()]: the extrema over every value of the
    sequence; a zero-size array raises. *)
Definition np_max (d : depth_seq) : result Qc :=
  match ravel d with
  | [] => Raise (ValueError "zero-size array to reduction operation maximum which has no identity")
  | x :: r => Ok (fold_left Qcmax r x)
  end.

Definition np_min (d : depth_seq) : result Qc :=
  match ravel d with
  | [] => Raise (ValueError "zero-size array to reduction operation minimum which has no identity")
  | x :: r => Ok (fold_left Qcmin r x)
  end.

(** Element-wise application over a sequence. *)
Definition seq_map {A B : Type} (f : A -> B) (d : list (list (list A))) : list (list (list B)) :=
  map (map (map f)) d.

Definition map2d {A B : Type} (f : A -> B) (m : list (list A)) : list (list B) :=
  map (map f) m.

(** [(d_orig + d_flip) / 2] on two maps of one shape. *)
Definition average2 (d_orig d_flip : depth_map) : depth_map :=
  zip_with (zip_with (fun a b => ((a + b) / 2)%Qc)) d_orig d_flip.

(** [m - a] for a scalar [m]: a new array.  The depth arrays hold
    floating-point numbers, whose difference is rounded to the type of the
    array: [minus] is that subtraction, on the finite values. *)
Definition scalar_minus (minus : Qc -> Qc -> Qc) (m : Qc) (a : depth_seq) : depth_seq :=
  seq_map (fun v => minus m v) a.

(** True division of the model: numpy does not raise on a zero divisor, it
    yields nan or inf (with a RuntimeWarning), which have no rational
    value; [None] stands for that result. *)
Definition np_true_divide (a b : Qc) : option Qc :=
  if Qc_eq_dec b 0%Qc then None else Some (a / b)%Qc.

(** Truncation toward zero. *)
Definition Qc_trunc (q : Qc) : Z := Z.quot (Qnum q) (Zpos (Qden q)).

(** [x.astype(np.uint8)] and [x.astype(np.uint16)] on one value: the
    fraction is dropped; the wrap-around written for values outside the
    type's range is what the conversion does on common platforms. *)
Definition astype_uint (bits : N) (q : Qc) : Z :=
  (Qc_trunc q) mod (2 ^ Z.of_N bits).

Definition Qc_of_Z (n : Z) : Qc := Q2Qc (inject_Z n).

(** One pixel of
    [((depth - d_min) / (d_max - d_min) * scale).astype(uint)]. *)
Definition norm_pixel (bits : N) (scale : Z) (d_min d_max v : Qc) : option Z :=
  match np_true_divide (v - d_min)%Qc (d_max - d_min)%Qc with
  | Some q => Some (astype_uint bits (q * Qc_of_Z scale)%Qc)
  | None => None
  end.

Abbreviation image := (list (list (option Z))) (only parsing).

(** The PNG image of one depth map (lines 669-674). *)
Definition png_image (png_16bit : bool) (d_min d_max : Qc) (depth : depth_map) : image :=
  if png_16bit then map2d (norm_pixel 16 65535 d_min d_max) depth
  else map2d (norm_pixel 8 255 d_min d_max) depth.

(** ** The notification channel, the external calls and the state *)

(** The keys of the messages put on [self.update_queue]. *)
Inductive key : Type :=
| SET_MAX | PROGRESS_UPDATE | STATUS_UPDATE | ERROR | THREAD_DONE.

Inductive value : Type :=
| VInt (n : nat)
| VStr (s : string).

Definition event : Type := key * value.

(** The calls that write outside the process, with what they are given. *)
Inductive action : Type :=
| SaveVideoFrames (frames : list frame) (path : string) (fps : Qc) (crf : Z)
| SaveVideoDepths (depths : depth_seq) (path : string) (fps : Qc) (grayscale : bool) (crf : Z)
| Makedirs (path : string)
| Savez (path : string) (depths : depth_seq)
| ImportOpenEXR
| ExrWrite (path : string) (width height : nat) (z : depth_map)
| ImWrite (path : string) (img : image) (params : list Z)
| Move (src dst : string)
| SubprocessRun (command : list string).

(** An ndarray object is named by its index in the heap. *)
Abbreviation loc := nat (only parsing).

Record state : Type := mkState {
  update_queue : list event;   (* oldest message first *)
  calls : list action;         (* external calls attempted, oldest first *)
  made_dirs : list string;     (* directories created by this run *)
  heap : list depth_seq        (* the depth arrays alive *)
}.

Definition initial_state : state := mkState [] [] [] [].

(** What the surroundings answer.  [read_video_frames] and [save_video]
    (of [utils.dc_utils]) and the engine (of [video_depth_anything]) are
    called by the worker but defined elsewhere: they are taken as they
    answer. *)
Record env : Type := mkEnv {
  os_path_isdir : string -> bool;
  os_path_isfile : string -> bool;
  os_path_exists : string -> bool;          (* before the run *)
  os_listdir : string -> result (list string);
  py_int : string -> option Z;              (* int(s); None is ValueError *)
  cuda_is_available : bool;
  (* VideoDepthAnything(...), torch.load, load_state_dict, .to(DEVICE).eval() *)
  build_model : string -> bool -> string -> string -> option exn;
  (* stop_event.is_set() at the check that opens iteration i *)
  stop_is_set : nat -> bool;
  read_video_frames : string -> Z -> Z -> Z -> result (list frame * Qc);
  infer_video_depth : list frame -> Qc -> Z -> string -> bool -> result (depth_seq * Qc);
  (* whether an external call raises *)
  ext_raises : action -> option exn;
  (* what save_video leaves in the depth array it is handed *)
  save_video_leaves : depth_seq -> depth_seq;
  (* del model, torch.cuda.empty_cache(), gc.collect() *)
  cleanup_raises : option exn;
  (* m - v in the floating-point type of the depth arrays *)
  np_subtract : Qc -> Qc -> Qc
}.

(** ** The state-and-error monad *)

Definition M (A : Type) : Type := state -> result A * state.

Definition ret {A : Type} (a : A) : M A := fun s => (Ok a, s).

Definition bind {A B : Type} (m : M A) (f : A -> M B) : M B :=
  fun s =>
    match m s with
    | (Ok a, s') => f a s'
    | (Raise e, s') => (Raise e, s')
    end.

Global Instance M_bind : MBind M := fun A B f m => bind m f.
Global Instance M_ret : MRet M := fun A a => ret a.

(** A pure computation that may raise. *)
Definition lift {A : Type} (r : result A) : M A := fun s => (r, s).

(** [try: m] with the outcome handed to the code after it: the effects of
    [m] up to a raise stay. *)
Definition attempt {A : Type} (m : M A) : M (result A) :=
  fun s => let '(r, s') := m s in (Ok r, s').

(** [try: m  except Exception as e: h e] *)
Definition try_except (m : M unit) (h : exn -> M unit) : M unit :=
  r ← attempt m;
  match r with
  | Ok _ => ret tt
  | Raise e => h e
  end.

Definition when (b : bool) (m : M unit) : M unit := if b then m else ret tt.

(** Bind of plain results, for code without effects. *)
Definition rbind {A B : Type} (r : result A) (f : A -> result B) : result B :=
  match r with
  | Ok a => f a
  | Raise e => Raise e
  end.

Global Instance result_bind : MBind result := fun A B f r => rbind r f.

(** [self.update_queue.put((key, value))] *)
Definition write_event_value (k : key) (v : value) : M unit :=
  fun s => (Ok tt, mkState (update_queue s ++ [(k, v)]) (calls s) (made_dirs s) (heap s)).

Definition alloc (d : depth_seq) : M loc :=
  fun s => (Ok (length (heap s)), mkState (update_queue s) (calls s) (made_dirs s) (heap s ++ [d])).

Definition load (l : loc) : M depth_seq :=
  fun s => (Ok (default ([] : depth_seq) (heap s !! l)), s).

Definition store (l : loc) (d : depth_seq) : M unit :=
  fun s => (Ok tt, mkState (update_queue s) (calls s) (made_dirs s) (<[l := d]> (heap s))).

Definition dir_made (p : string) : M unit :=
  fun s => (Ok tt, mkState (update_queue s) (calls s) (made_dirs s ++ [p]) (heap s)).

(** The [values] dictionary handed to the worker by [start_processing]. *)
Record values : Type := mkValues {
  INPUT_FOLDER : string;
  INPUT_FILE : string;
  OUTPUT_DIR : string;
  ENCODER : string;
  INPUT_SIZE : string;
  MAX_RES : string;
  MAX_LEN : string;
  TARGET_FPS : string;
  FP32 : bool;
  SAVE_COLOR : bool;
  SAVE_NPZ : bool;
  SAVE_EXR : bool;
  CREATE_SRC : bool;
  TTA : bool;
  RESUME : bool;
  SAVE_PNG : bool;
  PNG_16BIT : bool;
  PNG_COMPRESSION : Z;
  MP4_CRF : Z;
  METRIC : bool;
  INVERT_METRIC : bool
}.

(** The keys of [model_configs]. *)
Definition model_configs_keys : list string := ["vits"; "vitb"; "vitl"].

(** [cv2.IMWRITE_PNG_COMPRESSION] *)
Definition IMWRITE_PNG_COMPRESSION : Z := 16.

Section Worker.

Variable E : env.

(** An external call: it is attempted, and raises when the surroundings
    say so. *)
Definition call (a : action) : M unit :=
  fun s =>
    (match ext_raises E a with
     | Some e => Raise e
     | None => Ok tt
     end,
     mkState (update_queue s) (calls s ++ [a]) (made_dirs s) (heap s)).

(** [os.path.exists(p)] *)
Definition path_exists (p : string) : M bool :=
  fun s => (Ok (os_path_exists E p || bool_decide (p ∈ made_dirs s)), s).

(** [os.makedirs(p)] and [os.makedirs(p, exist_ok=True)] *)
Definition os_makedirs (p : string) : M unit :=
  call (Makedirs p);;
  dir_made p.

(** [save_video(depths_vis, path, fps=fps, is_depths=True, ...)]: the
    array object handed over is the one the writer works on. *)
Definition save_video_depths (l : loc) (path : string) (fps : Qc)
    (grayscale : bool) (crf : Z) : M unit :=
  d ← load l;
  store l (save_video_leaves E d);;
  call (SaveVideoDepths d path fps grayscale crf).

(** [a.copy()] *)
Definition np_copy (l : loc) : M loc :=
  d ← load l; alloc d.

(** [depths_vis.max() - depths_vis] *)
Definition max_minus (l : loc) : M loc :=
  d ← load l;
  m ← lift (np_max d);
  alloc (scalar_minus (np_subtract E) m d).

(** *** Depth inference, lines 594-614 *)

Definition infer_depths (tta : bool) (frames frames_array : list frame)
    (actual_target_fps : Qc) (input_size : Z) (DEVICE : string) (fp32 : bool)
    : result (depth_seq * Qc) :=
  if tta then
    '(depths_original, fps) ←
      infer_video_depth E frames_array actual_target_fps input_size DEVICE fp32;
    let flipped_frames := map np_flip_axis1 frames in
    flipped_frames_array ← np_stack flipped_frames;
    '(depths_flipped, _) ←
      infer_video_depth E flipped_frames_array actual_target_fps input_size DEVICE fp32;
    let depths_flipped_back := map np_flip_axis1 depths_flipped in
    let depths_list := zip_with average2 depths_original depths_flipped_back in
    depths ← np_stack depths_list;
    Ok (depths, fps)
  else
    infer_video_depth E frames_array actual_target_fps input_size DEVICE fp32.

(** *** Writing the outputs, lines 627-691 *)

(** [for j, depth in enumerate(depths)] of the EXR branch. *)
Fixpoint write_exr_frames (depth_exr_dir : string) (j : nat) (depths : depth_seq) : M unit :=
  match depths with
  | [] => ret tt
  | depth :: rest =>
      let output_exr := depth_exr_dir +:+ "/frame_" +:+ fmt05d j +:+ ".exr" in
      call (ExrWrite output_exr (snd (shape depth)) (fst (shape depth)) depth);;
      write_exr_frames depth_exr_dir (S j) rest
  end.

(** [for j, depth in enumerate(depths)] of the PNG branch. *)
Fixpoint write_png_frames (depth_png_dir : string) (png_16bit : bool) (png_compression : Z)
    (d_min d_max : Qc) (j : nat) (depths : depth_seq) : M unit :=
  match depths with
  | [] => ret tt
  | depth :: rest =>
      let depth_img := png_image png_16bit d_min d_max depth in
      let output_png := depth_png_dir +:+ "/frame_" +:+ fmt05d j +:+ ".png" in
      let compression_params := [IMWRITE_PNG_COMPRESSION; png_compression] in
      call (ImWrite output_png depth_img compression_params);;
      write_png_frames depth_png_dir png_16bit png_compression d_min d_max (S j) rest
  end.

(** The names computed at lines 623-628. *)
Definition base_name_no_ext (file_path : string) : string :=
  splitext_root (basename file_path).

Definition processed_video_path (vals : values) (file_path : string) : string :=
  path_join (OUTPUT_DIR vals) (base_name_no_ext file_path +:+ "_src.mp4").

Definition depth_vis_path (vals : values) (file_path : string) : string :=
  path_join (OUTPUT_DIR vals) (base_name_no_ext file_path +:+ "_depth.mp4").

(** Lines 630-631: the source clip. *)
Definition write_src_clip (vals : values) (file_path : string) (frames : list frame)
    (fps : Qc) : M unit :=
  when (CREATE_SRC vals)
    (call (SaveVideoFrames frames (processed_video_path vals file_path) fps (MP4_CRF vals))).

(** Lines 633-642: the depth visualization video, from a copy. *)
Definition write_depth_video (vals : values) (file_path : string) (depths : loc)
    (fps : Qc) : M unit :=
  let grayscale := negb (SAVE_COLOR vals) in
  depths_vis ← np_copy depths;
  depths_vis ← (if INVERT_METRIC vals then max_minus depths_vis else ret depths_vis);
  save_video_depths depths_vis (depth_vis_path vals file_path) fps grayscale (MP4_CRF vals).

(** Lines 644-646: the npz archive. *)
Definition write_npz (vals : values) (file_path : string) (depths : loc) : M unit :=
  when (SAVE_NPZ vals)
    (let depth_npz_path :=
       path_join (OUTPUT_DIR vals) (base_name_no_ext file_path +:+ "_depths.npz") in
     d ← load depths;
     call (Savez depth_npz_path d)).

(** Lines 648-660: one EXR file per frame. *)
Definition write_exr (vals : values) (file_path : string) (depths : loc) : M unit :=
  when (SAVE_EXR vals)
    (let depth_exr_dir :=
       path_join (OUTPUT_DIR vals) (base_name_no_ext file_path +:+ "_depths_exr") in
     call (Makedirs depth_exr_dir);;
     dir_made depth_exr_dir;;
     call ImportOpenEXR;;
     d ← load depths;
     write_exr_frames depth_exr_dir 0 d).

(** Lines 663-678: one PNG file per frame. *)
Definition write_png (vals : values) (file_path : string) (depths : loc) : M unit :=
  when (SAVE_PNG vals)
    (let depth_png_dir :=
       path_join (OUTPUT_DIR vals) (base_name_no_ext file_path +:+ "_depth_png") in
     call (Makedirs depth_png_dir);;
     dir_made depth_png_dir;;
     d ← load depths;
     d_min ← lift (np_min d);
     d_max ← lift (np_max d);
     write_png_frames depth_png_dir (PNG_16BIT vals) (PNG_COMPRESSION vals) d_min d_max 0 d).

(** Lines 681-691: the source file goes to the [finished] folder. *)
Definition move_to_finished (vals : values) (file_path : string) : M unit :=
  when (RESUME vals)
    (let file_src_dir := dirname file_path in
     let finished_dir := path_join file_src_dir "finished" in
     there ← path_exists finished_dir;
     when (negb there) (os_makedirs finished_dir);;
     try_except
       (call (Move file_path (path_join finished_dir (basename file_path))))
       (fun e => write_event_value ERROR
          (VStr ("Failed to move " +:+ file_path +:+ " to finished folder: " +:+ str e)))).

(** The raw data outputs, lines 644-678. *)
Definition write_raw_outputs (vals : values) (file_path : string) (depths : loc) : M unit :=
  write_npz vals file_path depths;;
  write_exr vals file_path depths;;
  write_png vals file_path depths.

(** The body of the [try] that starts at line 626. *)
Definition write_outputs (vals : values) (file_path : string) (frames : list frame)
    (depths : loc) (fps : Qc) : M unit :=
  write_src_clip vals file_path frames fps;;
  write_depth_video vals file_path depths fps;;
  write_raw_outputs vals file_path depths;;
  move_to_finished vals file_path.

(** Lines 626-694: the [try] with its [except Exception]. *)
Definition save_outputs (vals : values) (file_path : string) (frames : list frame)
    (depths : loc) (fps : Qc) : M unit :=
  try_except (write_outputs vals file_path frames depths fps)
    (fun e => write_event_value ERROR
       (VStr ("Error saving outputs for " +:+ basename file_path +:+ ": " +:+ str e))).

(** *** One iteration of the loop over the files, lines 579-696 *)

Definition int_or_raise (s : string) : result Z :=
  match py_int E s with
  | Some n => Ok n
  | None => Raise (ValueError ("invalid literal for int() with base 10: '" +:+ s +:+ "'"))
  end.

(** [read_video_frames(file_path, int(max_len), int(target_fps), int(max_res))] *)
Definition read_frames (vals : values) (max_res : Z) (file_path : string)
    : result (list frame * Qc) :=
  max_len ← int_or_raise (MAX_LEN vals);
  target_fps ← int_or_raise (TARGET_FPS vals);
  read_video_frames E file_path max_len target_fps max_res.

Definition process_file (vals : values) (input_size max_res : Z) (DEVICE : string)
    (total_files i : nat) (file_path : string) : M unit :=
  write_event_value STATUS_UPDATE
    (VStr ("Processing file " +:+ pretty (i + 1) +:+ " of " +:+ pretty total_files
           +:+ ": " +:+ basename file_path));;
  r ← attempt (lift (read_frames vals max_res file_path));
  match r with
  | Raise e =>
      write_event_value ERROR
        (VStr ("Error reading video frames for " +:+ basename file_path +:+ ": " +:+ str e));;
      write_event_value PROGRESS_UPDATE (VInt (i + 1))
      (* continue *)
  | Ok (frames, actual_target_fps) =>
      frames_array ← lift (np_stack frames);
      r ← attempt (lift (infer_depths (TTA vals) frames frames_array actual_target_fps
                           input_size DEVICE (FP32 vals)));
      match r with
      | Raise e =>
          write_event_value ERROR
            (VStr ("Error during depth inference for " +:+ basename file_path +:+ ": " +:+ str e));;
          write_event_value PROGRESS_UPDATE (VInt (i + 1))
          (* continue *)
      | Ok (depths_value, fps) =>
          depths ← alloc depths_value;
          there ← path_exists (OUTPUT_DIR vals);
          when (negb there) (os_makedirs (OUTPUT_DIR vals));;
          save_outputs vals file_path frames depths fps;;
          write_event_value PROGRESS_UPDATE (VInt (i + 1))
      end
  end.

(** The [for] loop of line 575.  The answer tells whether the loop ran to
    its end ([true]) or the worker returned from inside it ([false]). *)
Fixpoint process_files (vals : values) (input_size max_res : Z) (DEVICE : string)
    (total_files i : nat) (files : list string) : M bool :=
  match files with
  | [] => ret true
  | file_path :: rest =>
      if stop_is_set E i then
        write_event_value THREAD_DONE (VStr "Stopped");;
        ret false
      else
        process_file vals input_size max_res DEVICE total_files i file_path;;
        process_files vals input_size max_res DEVICE total_files (S i) rest
  end.

(** *** Before the loop, lines 492-569 *)

(** Lines 492-505: which of the two input paths is used; [None] is the
    path that reports an error and returns. *)
Definition resolve_input (vals : values) : option (string * string) :=
  let input_folder := INPUT_FOLDER vals in
  let input_file := INPUT_FILE vals in
  if negb (String.eqb input_file "") then Some ("", input_file)
  else if negb (String.eqb input_folder "") && negb (os_path_isdir E input_folder) then
    if os_path_isfile E input_folder then Some ("", input_folder)
    else None
  else Some (input_folder, input_file).

Definition video_extensions : list string := [".mp4"; ".avi"; ".mov"; ".mkv"].

(** Lines 556-569, as the outcome of the [try]. *)
Definition load_model (encoder : string) (metric : bool) (DEVICE : string) : result unit :=
  let checkpoint_name :=
    if metric then "metric_video_depth_anything" else "video_depth_anything" in
  if bool_decide (encoder ∈ model_configs_keys) then
    match build_model E encoder metric
            ("./checkpoints/" +:+ checkpoint_name +:+ "_" +:+ encoder +:+ ".pth") DEVICE with
    | Some e => Raise e
    | None => Ok tt
    end
  else Raise (KeyError ("'" +:+ encoder +:+ "'")).

(** Lines 698-708: the cleanup is inside its own [try]; a failure is only
    logged. *)
Definition cleanup : M unit :=
  try_except
    (lift (match cleanup_raises E with
           | Some e => Raise e
           | None => Ok tt
           end))
    (fun _ => ret tt).

(** Lines 572-710. *)
Definition run_batch (vals : values) (input_size max_res : Z) (DEVICE : string)
    (files_to_process : list string) : M unit :=
  let total_files := length files_to_process in
  write_event_value SET_MAX (VInt total_files);;
  finished ← process_files vals input_size max_res DEVICE total_files 0 files_to_process;
  if finished : bool then
    cleanup;;
    write_event_value THREAD_DONE (VStr "Completed")
  else ret tt.

(** Lines 552-710. *)
Definition load_and_run (vals : values) (input_size max_res : Z)
    (files_to_process : list string) : M unit :=
  let DEVICE := if cuda_is_available E then "cuda" else "cpu" in
  write_event_value STATUS_UPDATE (VStr "Loading model...");;
  match load_model (ENCODER vals) (METRIC vals) DEVICE with
  | Raise (FileNotFoundError _) =>
      write_event_value ERROR
        (VStr ("Checkpoint file for " +:+ ENCODER vals +:+ " not found in ./checkpoints/"))
  | Raise e =>
      write_event_value ERROR (VStr ("Error loading model: " +:+ str e))
  | Ok _ => run_batch vals input_size max_res DEVICE files_to_process
  end.

(** [process_videos_threaded(self, values, stop_event)] *)
Definition process_videos_threaded (vals : values) : M unit :=
  match resolve_input vals return M unit with
  | None =>
      write_event_value ERROR
        (VStr ("Input path must be a valid file or directory: " +:+ INPUT_FOLDER vals))
  | Some (input_folder, input_file) =>
      match py_int E (INPUT_SIZE vals), py_int E (MAX_RES vals) return M unit with
      | Some input_size, Some max_res =>
          if negb (String.eqb input_file "") then
            load_and_run vals input_size max_res [input_file]
          else if negb (String.eqb input_folder "") then
            names ← lift (os_listdir E input_folder);
            let video_files :=
              filter (fun f => Is_true (os_path_isfile E (path_join input_folder f)
                                        && endswith (lower f) video_extensions)) names in
            match video_files with
            | [] => write_event_value ERROR (VStr "No video files found in the input folder")
            | _ => load_and_run vals input_size max_res
                     (map (path_join input_folder) video_files)
            end
          else
            write_event_value ERROR (VStr "Logic Error: No input selected.")
      | _, _ =>
          write_event_value ERROR
            (VStr "Internal Error: Invalid Input Size or Max Resolution type.")
      end
  end.

End Worker.

(** ** The H.26x encoding helper, [utils/h26x_utils.py] *)

Section H26x.

Variable E : env.

(** [codec_map]: codec, profile, pixel format, and whether the mode is a
    10-bit one. *)
Definition codec_map : gmap string (string * string * string * bool) :=
  list_to_map
    [ ("libx264 (8-bit)", ("libx264", "high", "yuv420p", false));
      ("libx265 (10-bit)", ("libx265", "main10", "yuv420p10le", true));
      ("nvenc_h264 (8-bit)", ("h264_nvenc", "high", "yuv420p", false));
      ("nvenc_h265 (10-bit)", ("hevc_nvenc", "main10", "yuv420p10le", true)) ].

(** [run_h26x_encoding(input_dir, output_path, codec_mode, fps, crf,
    invert_vis, write_event_value)]; [fps] and [crf] stand for [str(fps)]
    and [str(crf)], and the callback puts on the queue of the state.
    [subprocess.run(command, check=True, ...)] is the external call
    [SubprocessRun command]. *)
Definition run_h26x_encoding (input_dir output_path codec_mode fps crf : string)
    (invert_vis : bool) : M unit :=
  match codec_map !! codec_mode with
  | None =>
      write_event_value ERROR
        (VStr ("Internal error: Unknown codec mode '" +:+ codec_mode +:+ "'"))
  | Some (codec, profile, pix_fmt, is_10bit) =>
      let input_args := ["-y"; "-i"; path_join input_dir "frame_%05d.png"; "-r"; fps] in
      let filter_args :=
        if invert_vis then ["-vf"; "format=gray, lut=curve=opposit"]
        else ["-vf"; "format=gray"] in
      let output_args :=
        ["-vcodec"; codec; "-pix_fmt"; pix_fmt; "-crf"; crf; "-profile:v"; profile;
         "-tag:v"; if is_10bit : bool then "hvc1" else "avc1"; output_path] in
      let command := ["ffmpeg"] ++ input_args ++ filter_args ++ output_args in
      r ← attempt (call E (SubprocessRun command));
      match r with
      | Ok _ =>
          write_event_value STATUS_UPDATE
            (VStr ("Encoding complete: " +:+ basename output_path))
      | Raise (CalledProcessError _ returncode stderr) =>
          let error_msg :=
            "FFmpeg Error for " +:+ basename output_path +:+ ":" +:+ nl
            +:+ "Command: " +:+ join " " command +:+ nl
            +:+ "Return Code: " +:+ pretty returncode +:+ nl
            +:+ "Stderr: " +:+ stderr in
          write_event_value ERROR (VStr error_msg)
      | Raise (FileNotFoundError _) =>
          write_event_value ERROR
            (VStr "FFmpeg executable not found. Please ensure FFmpeg is installed and in your system PATH.")
      | Raise e =>
          write_event_value ERROR
            (VStr ("An unexpected error occurred during encoding: " +:+ str e))
      end
  end.

End H26x.

(** ** Reading a run *)

Definition run {A : Type} (m : M A) (s : state) : result A * state := m s.

Definition is_key (k : key) (ev : event) : bool :=
  match k, fst ev with
  | SET_MAX, SET_MAX | PROGRESS_UPDATE, PROGRESS_UPDATE | STATUS_UPDATE, STATUS_UPDATE
  | ERROR, ERROR | THREAD_DONE, THREAD_DONE => true
  | _, _ => false
  end.

(** The messages of one key, in the order they were put. *)
Definition messages (k : key) (q : list event) : list event :=
  List.filter (is_key k) q.

(** ** Reading arrays *)

(** [m[r, c]] and [d[t, r, c]], when the indices are in range. *)
Definition at2 {A : Type} (m : list (list A)) (r c : nat) : option A :=
  match m !! r with
  | Some row => row !! c
  | None => None
  end.

Definition pixel_at {A : Type} (d : list (list (list A))) (t r c : nat) : option A :=
  match d !! t with
  | Some m => at2 m r c
  | None => None
  end.

(** The length of every row: for an ndarray of shape (H, W), H times W. *)
Definition dims {A : Type} (m : list (list A)) : list nat := map (@length A) m.

(** ** Statement helpers *)

(** The inversion of lines 637-640 applied to an array, and then to its
    result. *)
Definition invert_twice (E : env) (l : loc) : M loc :=
  l1 ← max_minus E l;
  max_minus E l1.

(** Rounding keeps the order: the larger the value taken away, the
    smaller (or equal) the difference. *)
Definition keeps_order (minus : Qc -> Qc -> Qc) : Prop :=
  forall m x y : Qc, (x <= y)%Qc -> (minus m y <= minus m x)%Qc.

(** ** Reading the log of external calls *)

(** The calls that write raw depth data: the npz archive, the EXR files
    and the PNG files. *)
Definition is_raw (a : action) : bool :=
  match a with
  | Savez _ _ | ExrWrite _ _ _ _ | ImWrite _ _ _ => true
  | _ => false
  end.

Definition raw_calls (l : list action) : list action := List.filter is_raw l.

(** What a raw-data call must carry when it is computed from the depth
    sequence [d] itself. *)
Definition raw_from (vals : values) (d : depth_seq) (a : action) : Prop :=
  match a with
  | Savez _ x => x = d
  | ExrWrite _ _ _ z => In z d
  | ImWrite _ img _ =>
      exists (depth : depth_map) (d_min d_max : Qc),
        In depth d /\ np_min d = Ok d_min /\ np_max d = Ok d_max /\
        img = png_image (PNG_16BIT vals) d_min d_max depth
  | _ => True
  end.

(** The output formats of section 4.2 and the move of step 4. *)
Inductive output_format : Type :=
| SourceClip | DepthVideo | NpzArchive | ExrFrames | PngFrames | MoveToFinished.

(** Whether the configuration asks for a format. *)
Definition configured (vals : values) (f : output_format) : bool :=
  match f with
  | SourceClip => CREATE_SRC vals
  | DepthVideo => true
  | NpzArchive => SAVE_NPZ vals
  | ExrFrames => SAVE_EXR vals
  | PngFrames => SAVE_PNG vals
  | MoveToFinished => RESUME vals
  end.

(** Whether a call belongs to the writing of a format. *)
Definition call_of_format (f : output_format) (a : action) : bool :=
  match f, a with
  | SourceClip, SaveVideoFrames _ _ _ _ => true
  | DepthVideo, SaveVideoDepths _ _ _ _ _ => true
  | NpzArchive, Savez _ _ => true
  | ExrFrames, ExrWrite _ _ _ _ => true
  | ExrFrames, ImportOpenEXR => true
  | PngFrames, ImWrite _ _ _ => true
  | MoveToFinished, Move _ _ => true
  | _, _ => false
  end.

(** Whether the log shows an attempt at a format. *)
Definition attempted (f : output_format) (l : list action) : bool :=
  existsb (call_of_format f) l.

Section Judgements.

Variable E : env.

Definition ok_call (a : action) : Prop := ext_raises E a = None.

(** In the run of [m] from [s]: the queue stays, the heap changes within
    [H], the calls made satisfy [P], a call that raises is the last one
    made, and an exception that leaves [m] is that of the last call unless
    no call raised. *)
Definition tidy_at {A : Type} (H : list depth_seq -> list depth_seq -> Prop)
    (P : action -> Prop) (m : M A) (s : state) : Prop :=
  update_queue (snd (m s)) = update_queue s /\
  H (heap s) (heap (snd (m s))) /\
  exists l : list action,
    calls (snd (m s)) = calls s ++ l /\
    Forall P l /\
    Forall ok_call (removelast l) /\
    (forall a : A, fst (m s) = Ok a -> Forall ok_call l) /\
    (forall e : exn, fst (m s) = Raise e ->
       Forall ok_call l \/
       exists (pre : list action) (a : action), l = pre ++ [a] /\ ext_raises E a = Some e).

(** Two states that the code after the depth video cannot tell apart as
    far as the raw outputs go. *)
Definition alike (depths : loc) (s1 s2 : state) : Prop :=
  update_queue s1 = update_queue s2 /\
  made_dirs s1 = made_dirs s2 /\
  heap s1 !! depths = heap s2 !! depths /\
  raw_calls (calls s1) = raw_calls (calls s2).

Definition respects {A : Type} (depths : loc) (m : M A) : Prop :=
  forall s1 s2 : state,
    alike depths s1 s2 ->
    fst (m s1) = fst (m s2) /\ alike depths (snd (m s1)) (snd (m s2)).

End Judgements.

(** Lines 630-678 of the [try] body: everything but the move. *)
Definition write_data_outputs (E : env) (vals : values) (file_path : string)
    (frames : list frame) (depths : loc) (fps : Qc) : M unit :=
  write_src_clip E vals file_path frames fps;;
  write_depth_video E vals file_path depths fps;;
  write_raw_outputs E vals file_path depths.

(** The two messages of the output writer. *)
Definition save_error (file_path : string) (e : exn) : event :=
  (ERROR, VStr ("Error saving outputs for " +:+ basename file_path +:+ ": " +:+ str e)).

Definition move_error (file_path : string) (e : exn) : event :=
  (ERROR, VStr ("Failed to move " +:+ file_path +:+ " to finished folder: " +:+ str e)).

(** The configuration with the invert-visualization box set to [b]. *)
Definition set_invert (b : bool) (vals : values) : values :=
  mkValues (INPUT_FOLDER vals) (INPUT_FILE vals) (OUTPUT_DIR vals) (ENCODER vals)
           (INPUT_SIZE vals) (MAX_RES vals) (MAX_LEN vals) (TARGET_FPS vals)
           (FP32 vals) (SAVE_COLOR vals) (SAVE_NPZ vals) (SAVE_EXR vals) (CREATE_SRC vals)
           (TTA vals) (RESUME vals) (SAVE_PNG vals) (PNG_16BIT vals)
           (PNG_COMPRESSION vals) (MP4_CRF vals) (METRIC vals) b.

(** ** The messages of one iteration *)

Definition status_line (i total_files : nat) (file_path : string) : event :=
  (STATUS_UPDATE,
   VStr ("Processing file " +:+ pretty (i + 1) +:+ " of " +:+ pretty total_files
         +:+ ": " +:+ basename file_path)).

Definition read_error (file_path : string) (e : exn) : event :=
  (ERROR, VStr ("Error reading video frames for " +:+ basename file_path +:+ ": " +:+ str e)).

Definition inference_error (file_path : string) (e : exn) : event :=
  (ERROR, VStr ("Error during depth inference for " +:+ basename file_path +:+ ": " +:+ str e)).

Definition progress (i : nat) : event := (PROGRESS_UPDATE, VInt (i + 1)).

(** The error messages that report a decoding failure. *)
Definition is_read_error (ev : event) : bool :=
  match ev with
  | (ERROR, VStr m) => String.prefix "Error reading video frames for " m
  | _ => false
  end.

(** The file decodes, to frames that [np.stack] accepts. *)
Definition decodes (E : env) (vals : values) (max_res : Z) (file_path : string) : Prop :=
  exists (frames : list frame) (fps : Qc) (frames_array : list frame),
    read_frames E vals max_res file_path = Ok (frames, fps) /\
    np_stack frames = Ok frames_array.

(** The depth sequence that the name [depths] is bound to. *)
Definition bound_to (depths : loc) (s : state) : depth_seq :=
  default [] (heap s !! depths).

(** What follows the depth video inside the guard of lines 626-694, given
    how the depth video ended. *)
Definition after_depth_video (E : env) (vals : values) (file_path : string) (depths : loc)
    (r : result unit) : M unit :=
  match r with
  | Ok _ =>
      try_except
        (write_raw_outputs E vals file_path depths;; move_to_finished E vals file_path)
        (fun e => write_event_value (fst (save_error file_path e)) (snd (save_error file_path e)))
  | Raise e =>
      write_event_value (fst (save_error file_path e)) (snd (save_error file_path e))
  end.

(** ** Sample inputs, for concrete runs *)

Definition sample_frame : frame := [[(10, 20, 30); (40, 50, 60)]]%Z.

(** A stand-in engine: the depth of a pixel is its red channel. *)
Definition red_depth (fs : list frame) : depth_seq :=
  map (map2d (fun p : pixel => Qc_of_Z (fst (fst p)))) fs.

(** A stand-in for [int()] on plain decimal literals. *)
Definition decimal_int (s : string) : option Z :=
  option_map Z.of_int (NilZero.int_of_string s).

(** Every call succeeds, the stop button is never pressed, every video
    decodes to one frame of one row of two pixels, and the differences of
    depth values are exact (as they are for the small integers of the
    sample arrays). *)
Definition calm_env : env :=
  mkEnv (fun _ => true) (fun _ => true) (fun _ => true)
        (fun _ => Ok ["a.mp4"; "notes.txt"; "B.MKV"])
        decimal_int false
        (fun _ _ _ _ => None)
        (fun _ => false)
        (fun _ _ _ _ => Ok ([sample_frame], Qc_of_Z 24))
        (fun fs fps _ _ _ => Ok (red_depth fs, fps))
        (fun _ => None)
        (fun d => d)
        None
        Qcminus.

(** One frame of one row: 0, 5, 10. *)
Definition ramp_depths : depth_seq := [[[Qc_of_Z 0; Qc_of_Z 5; Qc_of_Z 10]]].

(** One frame of one row, every value 7. *)
Definition flat_depths : depth_seq := [[[Qc_of_Z 7; Qc_of_Z 7]]].

(** One frame of one row: 1, 3. *)
Definition step_depths : depth_seq := [[[Qc_of_Z 1; Qc_of_Z 3]]].

(** Surroundings that differ from [calm_env] in one answer. *)
Definition with_paths (isdir isfile there : string -> bool) (E : env) : env :=
  mkEnv isdir isfile there (os_listdir E) (py_int E) (cuda_is_available E)
        (build_model E) (stop_is_set E) (read_video_frames E) (infer_video_depth E)
        (ext_raises E) (save_video_leaves E) (cleanup_raises E)
        (np_subtract E).

Definition with_listdir (ls : string -> result (list string)) (E : env) : env :=
  mkEnv (os_path_isdir E) (os_path_isfile E) (os_path_exists E) ls (py_int E)
        (cuda_is_available E) (build_model E) (stop_is_set E) (read_video_frames E)
        (infer_video_depth E) (ext_raises E) (save_video_leaves E) (cleanup_raises E)
        (np_subtract E).

Definition with_build_model (b : string -> bool -> string -> string -> option exn)
    (E : env) : env :=
  mkEnv (os_path_isdir E) (os_path_isfile E) (os_path_exists E) (os_listdir E) (py_int E)
        (cuda_is_available E) b (stop_is_set E) (read_video_frames E)
        (infer_video_depth E) (ext_raises E) (save_video_leaves E) (cleanup_raises E)
        (np_subtract E).

Definition with_read (rd : string -> Z -> Z -> Z -> result (list frame * Qc)) (E : env) : env :=
  mkEnv (os_path_isdir E) (os_path_isfile E) (os_path_exists E) (os_listdir E) (py_int E)
        (cuda_is_available E) (build_model E) (stop_is_set E) rd
        (infer_video_depth E) (ext_raises E) (save_video_leaves E) (cleanup_raises E)
        (np_subtract E).

Definition with_ext_raises (f : action -> option exn) (E : env) : env :=
  mkEnv (os_path_isdir E) (os_path_isfile E) (os_path_exists E) (os_listdir E) (py_int E)
        (cuda_is_available E) (build_model E) (stop_is_set E) (read_video_frames E)
        (infer_video_depth E) f (save_video_leaves E) (cleanup_raises E)
        (np_subtract E).

Definition with_save_video_leaves (f : depth_seq -> depth_seq) (E : env) : env :=
  mkEnv (os_path_isdir E) (os_path_isfile E) (os_path_exists E) (os_listdir E) (py_int E)
        (cuda_is_available E) (build_model E) (stop_is_set E) (read_video_frames E)
        (infer_video_depth E) (ext_raises E) f (cleanup_raises E) (np_subtract E).

(** One video file chosen, every output asked for. *)
Definition one_file_values : values :=
  mkValues "" "/videos/a.mp4" "/out" "vitl" "518" "1280" "-1" "-1"
           false false true true true false true true false 1 18 false true.

(** A folder chosen, every output asked for. *)
Definition folder_values : values :=
  mkValues "/videos" "" "/out" "vitl" "518" "1280" "-1" "-1"
           false false true true true false true true false 1 18 false true.

(** The path typed in names nothing. *)
Definition no_such_path_env : env :=
  with_paths (fun _ => false) (fun _ => false) (fun _ => false) calm_env.

(** The folder holds no file. *)
Definition empty_folder_env : env := with_listdir (fun _ => Ok []) calm_env.

(** [torch.load] finds no checkpoint file. *)
Definition no_checkpoint_env : env :=
  with_build_model
    (fun _ _ path _ =>
       Some (FileNotFoundError ("[Errno 2] No such file or directory: '" +:+ path +:+ "'")))
    calm_env.

(** The output directory is absent and cannot be created. *)
Definition no_output_dir_env : env :=
  with_paths (fun _ => true) (fun _ => true) (fun _ => false)
    (with_ext_raises
       (fun a => match a with
                 | Makedirs "/out" => Some (Exception "[Errno 13] Permission denied: '/out'")
                 | _ => None
                 end)
       calm_env).

(** The decoder returns no frame at all. *)
Definition no_frames_env : env :=
  with_read (fun _ _ _ _ => Ok ([], Qc_of_Z 24)) calm_env.


(** A video writer that overwrites the array it is handed with zeros. *)
Definition scribbling_env : env :=
  with_save_video_leaves (seq_map (fun _ => 0%Qc)) calm_env.

(** Decoding fails for the second file of the folder only. *)
Definition second_file_corrupt_env : env :=
  with_read
    (fun path _ _ _ =>
       if String.eqb path "/videos/B.MKV" then Raise (Exception "moov atom not found")
       else Ok ([sample_frame], Qc_of_Z 24))
    (with_listdir (fun _ => Ok ["a.mp4"; "B.MKV"; "c.mov"]) calm_env).

(** The two done messages. *)
Definition stopped_message : event := (THREAD_DONE, VStr "Stopped").

Definition completed_message : event := (THREAD_DONE, VStr "Completed").

Definition with_stop (f : nat -> bool) (E : env) : env :=
  mkEnv (os_path_isdir E) (os_path_isfile E) (os_path_exists E) (os_listdir E) (py_int E)
        (cuda_is_available E) (build_model E) f (read_video_frames E)
        (infer_video_depth E) (ext_raises E) (save_video_leaves E) (cleanup_raises E)
        (np_subtract E).

(** The stop button is pressed while the first file is processed. *)
Definition stop_pressed_env : env := with_stop (fun i => (1 <=? i)%nat) calm_env.

(** Decoding fails for the second file of the folder, and the stop button
    is pressed while the second file is processed. *)
Definition corrupt_and_stopped_env : env :=
  with_stop (fun i => (2 <=? i)%nat) second_file_corrupt_env.

(** A subtraction that rounds its result to the nearest quarter, as the
    subtraction of a floating-point type rounds to the nearest value it
    has. *)
Definition coarse_minus (m v : Qc) : Qc :=
  Q2Qc (inject_Z (Qfloor ((m - v)%Qc * 4 + (1 # 2))%Q) / 4)%Q.

Definition coarse_env : env :=
  mkEnv (os_path_isdir calm_env) (os_path_isfile calm_env) (os_path_exists calm_env)
        (os_listdir calm_env) (py_int calm_env) (cuda_is_available calm_env)
        (build_model calm_env) (stop_is_set calm_env) (read_video_frames calm_env)
        (infer_video_depth calm_env) (ext_raises calm_env) (save_video_leaves calm_env)
        (cleanup_raises calm_env) coarse_minus.

(** One frame of one row: 0, 1/8, 1. *)
Definition fine_depths : depth_seq := [[[Qc_of_Z 0; Q2Qc (1 # 8); Qc_of_Z 1]]].

(** ** Where the worker writes *)

(** The names of lines 645, 649, 664 and 685. *)
Definition depth_npz_path (vals : values) (file_path : string) : string :=
  path_join (OUTPUT_DIR vals) (base_name_no_ext file_path +:+ "_depths.npz").

Definition depth_exr_dir (vals : values) (file_path : string) : string :=
  path_join (OUTPUT_DIR vals) (base_name_no_ext file_path +:+ "_depths_exr").

Definition depth_png_dir (vals : values) (file_path : string) : string :=
  path_join (OUTPUT_DIR vals) (base_name_no_ext file_path +:+ "_depth_png").

Definition finished_dir (file_path : string) : string :=
  path_join (dirname file_path) "finished".

(** The calls that the iteration of [file_path] may make, with the paths
    they may name. *)
Definition call_for (vals : values) (file_path : string) (a : action) : Prop :=
  match a with
  | SaveVideoFrames _ p _ _ => p = processed_video_path vals file_path
  | SaveVideoDepths _ p _ _ _ => p = depth_vis_path vals file_path
  | Makedirs p =>
      p = OUTPUT_DIR vals \/ p = depth_exr_dir vals file_path \/
      p = depth_png_dir vals file_path \/ p = finished_dir file_path
  | Savez p _ => p = depth_npz_path vals file_path
  | ImportOpenEXR => True
  | ExrWrite p _ _ _ =>
      exists j : nat, p = depth_exr_dir vals file_path +:+ "/frame_" +:+ fmt05d j +:+ ".exr"
  | ImWrite p _ _ =>
      exists j : nat, p = depth_png_dir vals file_path +:+ "/frame_" +:+ fmt05d j +:+ ".png"
  | Move src dst =>
      src = file_path /\ dst = path_join (finished_dir file_path) (basename file_path)
  | SubprocessRun _ => False
  end.

(** Every call that [m] adds to the log satisfies [P]. *)
Definition calls_within {A : Type} (P : action -> Prop) (m : M A) : Prop :=
  forall s : state, exists l : list action, calls (snd (m s)) = calls s ++ l /\ Forall P l.

(** ** A run in which nothing fails *)

(** In the run of [m] from a state where [depths] names the array [d]:
    [m] returns, puts no message, leaves [depths] naming [d], and among the
    calls it makes those of format [f] occur exactly when [F f] holds. *)
Definition completes (depths : loc) (d : depth_seq) (F : output_format -> bool)
    (m : M unit) : Prop :=
  forall s : state,
    heap s !! depths = Some d ->
    fst (m s) = Ok tt /\
    update_queue (snd (m s)) = update_queue s /\
    heap (snd (m s)) !! depths = Some d /\
    exists l : list action,
      calls (snd (m s)) = calls s ++ l /\
      forall f : output_format, attempted f l = F f.

(** ** The frame files *)

(** The writes of the EXR loop and of the PNG loop, one per frame, in the
    order of the frames, numbered from [j]. *)
Definition exr_writes (depth_exr_dir : string) (j : nat) (depths : depth_seq) : list action :=
  zip_with
    (fun n depth =>
       ExrWrite (depth_exr_dir +:+ "/frame_" +:+ fmt05d n +:+ ".exr")
         (snd (shape depth)) (fst (shape depth)) depth)
    (seq j (length depths)) depths.

Definition png_writes (depth_png_dir : string) (png_16bit : bool) (png_compression : Z)
    (d_min d_max : Qc) (j : nat) (depths : depth_seq) : list action :=
  zip_with
    (fun n depth =>
       ImWrite (depth_png_dir +:+ "/frame_" +:+ fmt05d n +:+ ".png")
         (png_image png_16bit d_min d_max depth) [IMWRITE_PNG_COMPRESSION; png_compression])
    (seq j (length depths)) depths.

(** The run from [s] to [r] has attempted the first [m] calls of [plan],
    in order, and nothing else: all of them when it returned, and up to
    the first one that raised otherwise, whose exception it passes on. *)
Definition made_in_order (E : env) (plan : list action) (s : state)
    (r : result unit * state) : Prop :=
  update_queue (snd r) = update_queue s /\
  exists m : nat,
    calls (snd r) = calls s ++ take m plan /\
    Forall (ok_call E) (take (pred m) plan) /\
    match fst r with
    | Ok _ => m = length plan /\ Forall (ok_call E) plan
    | Raise e =>
        exists a : action, plan !! pred m = Some a /\ (0 < m)%nat /\ ext_raises E a = Some e
    end.

(** A text field that does not hold an integer literal. *)
Definition bad_numbers_values : values :=
  mkValues "/videos" "" "/out" "vitl" "518" "1280" "all" "-1"
           false false true true true false true true false 1 18 false true.

(** * The tooltips, class [ToolTip] *)

Module ToolTip.

(** A tooltip window: the [tk.Toplevel] with the position given to
    [wm_geometry] and the text of its label. *)
Record toplevel : Type := mkToplevel {
  win : nat;
  geometry : Z * Z;
  label_text : string
}.

(** The object, with the part of Tk that it works on: the timers it has
    set with [after] that have neither fired nor been cancelled, the
    windows it has created that are not destroyed, and the next name that
    Tk gives out. *)
Record tip : Type := mkTip {
  text : string;
  tip_window : option nat;
  id : option nat;
  timers : list nat;
  windows : list toplevel;
  fresh : nat
}.

(** What the widget answers when the tip is shown: [bbox("insert")],
    which raises for widgets without an insertion cursor, [winfo_rootx()]
    and [winfo_rooty()]. *)
Record answer : Type := mkAnswer {
  bbox : result (Z * Z * Z * Z);
  winfo_rootx : Z;
  winfo_rooty : Z
}.

(** [ToolTip(widget, text)] *)
Definition init (text : string) (fresh : nat) : tip := mkTip text None None [] [] fresh.

Definition after_cancel (n : nat) (l : list nat) : list nat :=
  List.filter (fun m => negb (Nat.eqb m n)) l.

Definition destroy (w : nat) (l : list toplevel) : list toplevel :=
  List.filter (fun t => negb (Nat.eqb (win t) w)) l.

(** [unschedule(self)] *)
Definition unschedule (t : tip) : tip :=
  match id t with
  | Some n => mkTip (text t) (tip_window t) None (after_cancel n (timers t)) (windows t) (fresh t)
  | None => mkTip (text t) (tip_window t) None (timers t) (windows t) (fresh t)
  end.

(** [schedule(self, event=None)] *)
Definition schedule (t : tip) : tip :=
  let t := unschedule t in
  mkTip (text t) (tip_window t) (Some (fresh t)) (timers t ++ [fresh t]) (windows t)
        (S (fresh t)).

(** [showtip(self, event=None)] *)
Definition showtip (a : answer) (t : tip) : result unit * tip :=
  if bool_decide (tip_window t <> None) || String.eqb (text t) "" then (Ok tt, t)
  else
    match bbox a with
    | Raise e => (Raise e, t)
    | Ok (x, y, _, _) =>
        let x := (x + (winfo_rootx a + 25))%Z in
        let y := (y + (winfo_rooty a + 20))%Z in
        (Ok tt,
         mkTip (text t) (Some (fresh t)) (id t) (timers t)
               (windows t ++ [mkToplevel (fresh t) (x, y) (text t)]) (S (fresh t)))
    end.

(** [hidetip(self, event=None)] *)
Definition hidetip (t : tip) : tip :=
  let t := unschedule t in
  match tip_window t with
  | Some w => mkTip (text t) None (id t) (timers t) (destroy w (windows t)) (fresh t)
  | None => mkTip (text t) None (id t) (timers t) (windows t) (fresh t)
  end.

(** What Tk delivers to the object: the pointer enters the widget, it
    leaves it, or the timer [n] is due.  A timer that was cancelled or has
    fired is not delivered again; an exception of the callback is reported
    by Tk and goes no further. *)
Inductive delivery : Type :=
| Enter
| Leave
| Due (n : nat) (a : answer).

Definition deliver (t : tip) (d : delivery) : tip :=
  match d with
  | Enter => schedule t
  | Leave => hidetip t
  | Due n a =>
      if existsb (Nat.eqb n) (timers t) then
        snd (showtip a (mkTip (text t) (tip_window t) (id t) (after_cancel n (timers t))
                              (windows t) (fresh t)))
      else t
  end.

Definition deliver_all (t : tip) (ds : list delivery) : tip := fold_left deliver ds t.

(** At most the timer remembered in [id] is pending, and at most the
    window remembered in [tip_window] is open, with the text of the tip. *)
Definition tidy (t : tip) : Prop :=
  (timers t = [] \/ exists n, id t = Some n /\ timers t = [n]) /\
  match tip_window t with
  | None => windows t = []
  | Some w => exists pos, windows t = [mkToplevel w pos (text t)] /\ text t <> ""
  end.

End ToolTip.

(** * The window, class [VideoDepthAnythingGUI] *)

(** ** The settings file and the Tk variables *)

(** The values that [save_settings] writes: strings, integers and
    booleans; [JNull] is the [null] that a file edited by hand may hold. *)
Inductive json_value : Type :=
| JStr (s : string)
| JInt (n : Z)
| JBool (b : bool)
| JNull.

(** What [config_vda.json] holds: nothing (no such file), text that
    [json.load] rejects, or a dictionary. *)
Inductive settings_file_content : Type :=
| NoFile
| NotJson
| JsonDict (d : gmap string json_value).

(** [str(x)] *)
Definition py_str (x : json_value) : string :=
  match x with
  | JStr s => s
  | JInt n => pretty n
  | JBool true => "True"
  | JBool false => "False"
  | JNull => "None"
  end.

(** The classes of the widgets of this program. *)
Inductive widget_class : Type :=
| TkFrame | TkLabel | TkToplevel
| TtkLabel | TtkEntry | TtkCombobox | TtkButton | TtkFrame | TtkLabelFrame
| TtkCheckbutton | TtkScale | TtkProgressbar.

(** What Tk and the operating system answer to the window.  A Tk variable
    holds the value it was given; read through a class of variable that
    fits the value, the value comes back, and otherwise Tk converts it or
    raises. *)
Record tk_answers : Type := mkTk {
  tk_getstring : json_value -> string;
  tk_getint : json_value -> result Z;
  tk_getboolean : json_value -> result bool;
  open_raises : option exn;                 (* of [open(self.settings_file, 'w')] *)
  is_alive : bool;                          (* of the worker thread at closing time *)
  state_option : widget_class -> bool       (* whether [config(state=...)] is accepted *)
}.

(** [self.saved_values.get(key, default)] *)
Definition dict_get (d : gmap string json_value) (k : string) (dflt : json_value)
    : json_value :=
  default dflt (d !! k).

(** The Tk variables of [create_variables], with the value each holds. *)
Record variables : Type := mkVariables {
  input_path_var : json_value;
  output_dir_var : json_value;
  encoder_var : json_value;
  input_size_var : json_value;
  max_res_var : json_value;
  max_len_var : json_value;
  target_fps_var : json_value;
  png_compression_var : json_value;
  mp4_crf_var : json_value;
  fp32_var : json_value;
  save_color_var : json_value;
  save_npz_var : json_value;
  save_exr_var : json_value;
  create_src_var : json_value;
  tta_var : json_value;
  resume_var : json_value;
  save_png_var : json_value;
  png_16bit_var : json_value;
  metric_var : json_value;
  invert_metric_var : json_value
}.

(** [load_settings(self)], as the value of [self.saved_values]. *)
Definition load_settings (file : settings_file_content) : gmap string json_value :=
  match file with
  | NoFile => ∅
  | NotJson => ∅
  | JsonDict d => d
  end.

(** [create_variables(self)] *)
Definition create_variables (saved_values : gmap string json_value) : variables :=
  mkVariables
    (dict_get saved_values "-INPUT_FOLDER-" (JStr ""))
    (dict_get saved_values "-OUTPUT_DIR-" (JStr ""))
    (dict_get saved_values "-ENCODER-" (JStr "vitl"))
    (JStr (py_str (dict_get saved_values "-INPUT_SIZE-" (JInt 518))))
    (JStr (py_str (dict_get saved_values "-MAX_RES-" (JInt 1280))))
    (JStr (py_str (dict_get saved_values "-MAX_LEN-" (JInt (-1)))))
    (JStr (py_str (dict_get saved_values "-TARGET_FPS-" (JInt (-1)))))
    (dict_get saved_values "-PNG_COMPRESSION-" (JInt 1))
    (dict_get saved_values "-MP4_CRF-" (JInt 18))
    (dict_get saved_values "-FP32-" (JBool false))
    (dict_get saved_values "-SAVE_COLOR-" (JBool false))
    (dict_get saved_values "-SAVE_NPZ-" (JBool false))
    (dict_get saved_values "-SAVE_EXR-" (JBool false))
    (dict_get saved_values "-CREATE_SRC-" (JBool false))
    (dict_get saved_values "-TTA-" (JBool false))
    (dict_get saved_values "-RESUME-" (JBool true))
    (dict_get saved_values "-SAVE_PNG-" (JBool false))
    (dict_get saved_values "-PNG_16BIT-" (JBool false))
    (dict_get saved_values "-METRIC-" (JBool false))
    (dict_get saved_values "-INVERT_METRIC-" (JBool false)).

Section Variables.

Variable tk : tk_answers.

(** [StringVar.get], [IntVar.get] and [BooleanVar.get] *)
Definition StringVar_get (v : json_value) : string :=
  match v with
  | JStr s => s
  | _ => tk_getstring tk v
  end.

Definition IntVar_get (v : json_value) : result Z :=
  match v with
  | JInt n => Ok n
  | _ => tk_getint tk v
  end.

Definition BooleanVar_get (v : json_value) : result bool :=
  match v with
  | JBool b => Ok b
  | _ => tk_getboolean tk v
  end.

(** The dictionary [current_values] of [save_settings]. *)
Definition current_values (vs : variables) : result (gmap string json_value) :=
  let input_folder := StringVar_get (input_path_var vs) in
  let output_dir := StringVar_get (output_dir_var vs) in
  let encoder := StringVar_get (encoder_var vs) in
  let input_size := StringVar_get (input_size_var vs) in
  let max_res := StringVar_get (max_res_var vs) in
  let max_len := StringVar_get (max_len_var vs) in
  let target_fps := StringVar_get (target_fps_var vs) in
  fp32 ← BooleanVar_get (fp32_var vs);
  save_color ← BooleanVar_get (save_color_var vs);
  save_npz ← BooleanVar_get (save_npz_var vs);
  save_exr ← BooleanVar_get (save_exr_var vs);
  create_src ← BooleanVar_get (create_src_var vs);
  tta ← BooleanVar_get (tta_var vs);
  resume ← BooleanVar_get (resume_var vs);
  save_png ← BooleanVar_get (save_png_var vs);
  png_16bit ← BooleanVar_get (png_16bit_var vs);
  png_compression ← IntVar_get (png_compression_var vs);
  mp4_crf ← IntVar_get (mp4_crf_var vs);
  metric ← BooleanVar_get (metric_var vs);
  invert_metric ← BooleanVar_get (invert_metric_var vs);
  Ok (list_to_map
        [ ("-INPUT_FOLDER-", JStr input_folder);
          ("-OUTPUT_DIR-", JStr output_dir);
          ("-ENCODER-", JStr encoder);
          ("-INPUT_SIZE-", JStr input_size);
          ("-MAX_RES-", JStr max_res);
          ("-MAX_LEN-", JStr max_len);
          ("-TARGET_FPS-", JStr target_fps);
          ("-FP32-", JBool fp32);
          ("-SAVE_COLOR-", JBool save_color);
          ("-SAVE_NPZ-", JBool save_npz);
          ("-SAVE_EXR-", JBool save_exr);
          ("-CREATE_SRC-", JBool create_src);
          ("-TTA-", JBool tta);
          ("-RESUME-", JBool resume);
          ("-SAVE_PNG-", JBool save_png);
          ("-PNG_16BIT-", JBool png_16bit);
          ("-PNG_COMPRESSION-", JInt png_compression);
          ("-MP4_CRF-", JInt mp4_crf);
          ("-METRIC-", JBool metric);
          ("-INVERT_METRIC-", JBool invert_metric) ]).

(** [save_settings(self)]: the outcome, and what the file holds
    afterwards.  A file that cannot be opened for writing is left as it
    was. *)
Definition save_settings (vs : variables) (file : settings_file_content)
    : result unit * settings_file_content :=
  match current_values vs with
  | Raise e => (Raise e, file)
  | Ok d =>
      match open_raises tk with
      | Some e => (Raise e, file)
      | None => (Ok tt, JsonDict d)
      end
  end.

End Variables.

(** ** The widgets *)

(** A widget, with what the program asks of it: its Python class,
    [winfo_class()], [winfo_name()], [cget('text')], its [state] option
    and [winfo_children()]. *)
#[warnings="-register-all"]
Inductive widget : Type := mkWidget {
  py_class : widget_class;
  winfo_class : string;
  winfo_name : string;
  cget_text : string;
  cget_state : string;
  winfo_children : list widget
}.

(** [isinstance(w, (ttk.Entry, ttk.Combobox, ttk.Checkbutton, ttk.Scale))] *)
Definition is_input (w : widget) : bool :=
  match py_class w with
  | TtkEntry | TtkCombobox | TtkCheckbutton | TtkScale => true
  | _ => false
  end.

(** [isinstance(w, (ttk.Frame, ttk.LabelFrame))] *)
Definition is_ttk_frame (w : widget) : bool :=
  match py_class w with
  | TtkFrame | TtkLabelFrame => true
  | _ => false
  end.

(** [isinstance(w, ttk.Button)] *)
Definition is_ttk_button (w : widget) : bool :=
  match py_class w with
  | TtkButton => true
  | _ => false
  end.

(** A widget of the window is named by its place: child [i] of the root,
    or child [j] of that child. *)
Inductive place : Type :=
| Child (i : nat)
| Grandchild (i j : nat).

(** The first loop of [set_input_widgets_state]: the places appended to
    [widgets_to_control], in order. *)
Definition inputs_of_child (i : nat) (child : widget) : list place :=
  if is_input child then [Child i]
  else if is_ttk_frame child then
    concat (imap (fun j c => if is_input c then [Grandchild i j] else [])
                 (winfo_children child))
  else [].

Definition first_loop (root : list widget) : list place :=
  concat (imap inputs_of_child root).

(** The second loop, from root child [i] on: the children of the first
    anonymous [Frame] whose first child is the Folder or the File
    button. *)
Fixpoint second_loop (i : nat) (rest : list widget) : list place :=
  match rest with
  | [] => []
  | child :: rest' =>
      if String.eqb (winfo_class child) "Frame" && String.prefix "!frame" (winfo_name child)
      then
        match winfo_children child with
        | first_child :: _ =>
            if is_ttk_button first_child
               && bool_decide (cget_text first_child ∈ ["Folder"; "File"])
            then imap (fun j _ => Grandchild i j) (winfo_children child)   (* break *)
            else second_loop (S i) rest'
        | [] => second_loop (S i) rest'
        end
      else second_loop (S i) rest'
  end.

Definition widgets_to_control (root : list widget) : list place :=
  first_loop root ++ second_loop 0 root.

Definition set_state (state : string) (w : widget) : widget :=
  mkWidget (py_class w) (winfo_class w) (winfo_name w) (cget_text w) state
           (winfo_children w).

Definition set_children (l : list widget) (w : widget) : widget :=
  mkWidget (py_class w) (winfo_class w) (winfo_name w) (cget_text w) (cget_state w) l.

Section Widgets.

Variable tk : tk_answers.

(** [try: widget.config(state=state)  except Exception: pass] *)
Definition try_config_state (state : string) (w : widget) : widget :=
  if state_option tk (py_class w) then set_state state w else w.

Definition config_at (state : string) (root : list widget) (p : place) : list widget :=
  match p with
  | Child i => alter (try_config_state state) i root
  | Grandchild i j =>
      alter (fun c => set_children (alter (try_config_state state) j (winfo_children c)) c)
            i root
  end.

(** [set_input_widgets_state(self, state)], on the children of the
    window. *)
Definition set_input_widgets_state (state : string) (root : list widget) : list widget :=
  if bool_decide (state ∈ ["normal"; "disabled"]) then
    fold_left (config_at state) (widgets_to_control root) root
  else root.

End Widgets.

(** [winfo_class()] of a widget of a class, and the stem of the name that
    tkinter gives to a widget created without one. *)
Definition tk_class_name (c : widget_class) : string :=
  match c with
  | TkFrame => "Frame" | TkLabel => "Label" | TkToplevel => "Toplevel"
  | TtkLabel => "TLabel" | TtkEntry => "TEntry" | TtkCombobox => "TCombobox"
  | TtkButton => "TButton" | TtkFrame => "TFrame" | TtkLabelFrame => "TLabelframe"
  | TtkCheckbutton => "TCheckbutton" | TtkScale => "TScale"
  | TtkProgressbar => "TProgressbar"
  end.

Definition py_class_name (c : widget_class) : string :=
  match c with
  | TkFrame | TtkFrame => "frame" | TkLabel | TtkLabel => "label"
  | TkToplevel => "toplevel"
  | TtkEntry => "entry" | TtkCombobox => "combobox"
  | TtkButton => "button" | TtkLabelFrame => "labelframe"
  | TtkCheckbutton => "checkbutton" | TtkScale => "scale"
  | TtkProgressbar => "progressbar"
  end.

(** The name of the [n]-th widget of a class under one master:
    [!label], [!label2], ... *)
Definition auto_name (c : widget_class) (n : nat) : string :=
  "!" +:+ py_class_name c +:+ (if Nat.eqb n 1 then "" else pretty n).

(** A widget as [create_widgets] makes it, state [normal] unless given. *)
Definition new_widget (c : widget_class) (n : nat) (text state : string)
    (children : list widget) : widget :=
  mkWidget c (tk_class_name c) (auto_name c n) text state children.

(** The children of the window after [create_widgets], in the order of
    their creation. *)
Definition create_widgets : list widget :=
  [ new_widget TtkLabel 1 "Video Depth Anything GUI" "normal" [];
    new_widget TtkLabel 2 "Input Path" "normal" [];
    new_widget TtkEntry 1 "" "normal" [];
    new_widget TtkFrame 1 "" "normal"
      [ new_widget TtkButton 1 "Folder" "normal" [];
        new_widget TtkButton 2 "File" "normal" [] ];
    new_widget TtkLabel 3
      "Note: Path can be a folder (processes all videos) or a single video file." "normal" [];
    new_widget TtkLabel 4 "Output Directory" "normal" [];
    new_widget TtkEntry 2 "" "normal" [];
    new_widget TtkButton 1 "Browse" "normal" [];
    new_widget TtkLabel 5 "Encoder" "normal" [];
    new_widget TtkCombobox 1 "" "readonly" [];
    new_widget TtkLabelFrame 1 "Advanced Settings" "normal"
      [ new_widget TtkLabel 1 "Input Size" "normal" [];
        new_widget TtkEntry 1 "" "normal" [];
        new_widget TtkLabel 2 "Max Resolution" "normal" [];
        new_widget TtkEntry 2 "" "normal" [];
        new_widget TtkLabel 3 "Max Length (-1=No Limit)" "normal" [];
        new_widget TtkEntry 3 "" "normal" [];
        new_widget TtkLabel 4 "Target FPS (-1=Original)" "normal" [];
        new_widget TtkEntry 4 "" "normal" [] ];
    new_widget TtkCheckbutton 1 "Use Metric Model" "normal" [];
    new_widget TtkCheckbutton 2 "Invert Metric Output" "normal" [];
    new_widget TtkCheckbutton 3 "Use fp32 precision" "normal" [];
    new_widget TtkCheckbutton 4 "Enable TTA" "normal" [];
    new_widget TtkCheckbutton 5 "Save color depth map" "normal" [];
    new_widget TtkCheckbutton 6 "Create source clip" "normal" [];
    new_widget TtkCheckbutton 7 "Save depth as npz" "normal" [];
    new_widget TtkCheckbutton 8 "Save depth as exr" "normal" [];
    new_widget TtkCheckbutton 9 "Save depth maps as PNG sequence" "normal" [];
    new_widget TtkCheckbutton 10 "Use 16-bit PNG" "normal" [];
    new_widget TtkLabel 6 "PNG Compression Level" "normal" [];
    new_widget TtkScale 1 "" "normal" [];
    new_widget TtkLabel 7 "MP4 CRF" "normal" [];
    new_widget TtkScale 2 "" "normal" [];
    new_widget TtkLabel 8 "" "normal" [];
    new_widget TtkLabel 9 "" "normal" [];
    new_widget TtkCheckbutton 11 "Resume" "normal" [];
    new_widget TtkButton 2 "Process" "normal" [];
    new_widget TtkButton 3 "Stop" "disabled" [];
    new_widget TtkButton 4 "Exit" "normal" [];
    new_widget TtkProgressbar 1 "" "normal" [];
    new_widget TtkLabel 10 "" "normal" [] ].

(** What the program can ask of the widget at a place. *)
Definition widget_at (root : list widget) (p : place) : option widget :=
  match p with
  | Child i => root !! i
  | Grandchild i j => c ← root !! i; winfo_children c !! j
  end.

Definition state_at (root : list widget) (p : place) : option string :=
  cget_state <$> widget_at root p.

(** A widget without its [state] options, at any depth. *)
Fixpoint skeleton (w : widget) : widget :=
  match w with
  | mkWidget c wc n t _ ch => mkWidget c wc n t "" (map skeleton ch)
  end.

Global Instance place_eq_dec : EqDecision place.
Proof. solve_decision. Defined.

(** What [set_input_widgets_state] makes of the state of a widget that it
    controls (or not). *)
Definition state_after (tk : tk_answers) (state : string) (controlled : bool) (w : widget)
    : string :=
  if controlled && state_option tk (py_class w) then state else cget_state w.

(** ** The window *)

(** The window: its Tk variables, its widgets (the Process and the Stop
    button by their places among the children), the status line, the
    progress bar, the worker thread with the [values] it was started on,
    the stop event, the queue, the message boxes shown so far, the settings
    file, whether the window is destroyed, and how many times
    [check_queue] has been scheduled with [after]. *)
Record gui : Type := mkGui {
  vars : variables;
  root : list widget;
  btn_start : nat;
  btn_stop : nat;
  status_var : string;
  progress_maximum : value;
  progress_value : value;
  processing_thread : option values;
  stop_event : bool;
  gui_queue : list event;
  error_boxes : list (string * value);
  settings_file : settings_file_content;
  destroyed : bool;
  scheduled_checks : nat
}.

Definition with_root (r : list widget) (g : gui) : gui :=
  mkGui (vars g) r (btn_start g) (btn_stop g) (status_var g) (progress_maximum g)
        (progress_value g) (processing_thread g) (stop_event g) (gui_queue g)
        (error_boxes g) (settings_file g) (destroyed g) (scheduled_checks g).

Definition with_status (s : string) (g : gui) : gui :=
  mkGui (vars g) (root g) (btn_start g) (btn_stop g) s (progress_maximum g)
        (progress_value g) (processing_thread g) (stop_event g) (gui_queue g)
        (error_boxes g) (settings_file g) (destroyed g) (scheduled_checks g).

Definition with_progress (maximum v : value) (g : gui) : gui :=
  mkGui (vars g) (root g) (btn_start g) (btn_stop g) (status_var g) maximum v
        (processing_thread g) (stop_event g) (gui_queue g)
        (error_boxes g) (settings_file g) (destroyed g) (scheduled_checks g).

Definition with_thread (t : option values) (g : gui) : gui :=
  mkGui (vars g) (root g) (btn_start g) (btn_stop g) (status_var g) (progress_maximum g)
        (progress_value g) t (stop_event g) (gui_queue g)
        (error_boxes g) (settings_file g) (destroyed g) (scheduled_checks g).

Definition with_stop_event (b : bool) (g : gui) : gui :=
  mkGui (vars g) (root g) (btn_start g) (btn_stop g) (status_var g) (progress_maximum g)
        (progress_value g) (processing_thread g) b (gui_queue g)
        (error_boxes g) (settings_file g) (destroyed g) (scheduled_checks g).

Definition with_queue (q : list event) (g : gui) : gui :=
  mkGui (vars g) (root g) (btn_start g) (btn_stop g) (status_var g) (progress_maximum g)
        (progress_value g) (processing_thread g) (stop_event g) q
        (error_boxes g) (settings_file g) (destroyed g) (scheduled_checks g).

(** [messagebox.showerror(title, message)] *)
Definition showerror (title : string) (message : value) (g : gui) : gui :=
  mkGui (vars g) (root g) (btn_start g) (btn_stop g) (status_var g) (progress_maximum g)
        (progress_value g) (processing_thread g) (stop_event g) (gui_queue g)
        (error_boxes g ++ [(title, message)]) (settings_file g) (destroyed g)
        (scheduled_checks g).

Definition with_settings_file (f : settings_file_content) (g : gui) : gui :=
  mkGui (vars g) (root g) (btn_start g) (btn_stop g) (status_var g) (progress_maximum g)
        (progress_value g) (processing_thread g) (stop_event g) (gui_queue g)
        (error_boxes g) f (destroyed g) (scheduled_checks g).

Definition with_destroyed (b : bool) (g : gui) : gui :=
  mkGui (vars g) (root g) (btn_start g) (btn_stop g) (status_var g) (progress_maximum g)
        (progress_value g) (processing_thread g) (stop_event g) (gui_queue g)
        (error_boxes g) (settings_file g) b (scheduled_checks g).

(** [self.after(100, self.check_queue)] *)
Definition after_check_queue (g : gui) : gui :=
  mkGui (vars g) (root g) (btn_start g) (btn_stop g) (status_var g) (progress_maximum g)
        (progress_value g) (processing_thread g) (stop_event g) (gui_queue g)
        (error_boxes g) (settings_file g) (destroyed g) (S (scheduled_checks g)).

(** [button.config(state=...)] for a [ttk.Button]. *)
Definition config_button (i : nat) (state : string) (g : gui) : gui :=
  with_root (alter (set_state state) i (root g)) g.

(** [f'{value}'] *)
Definition fmt (v : value) : string :=
  match v with
  | VInt n => pretty n
  | VStr s => s
  end.

(** [__init__(self)], given what the settings file holds.  A new progress
    bar has the maximum 100 and the value 0. *)
Definition gui_init (file : settings_file_content) : gui :=
  mkGui (create_variables (load_settings file)) create_widgets 28 29 "Status: Idle"
        (VInt 100) (VInt 0) None false [] [] file false 1.

Section Window.

Variable E : env.
Variable tk : tk_answers.

(** The dictionary [values] of [start_processing]. *)
Definition thread_values (is_file : bool) (input_path output_dir : string) (vs : variables)
    : result values :=
  let encoder := StringVar_get tk (encoder_var vs) in
  let input_size := StringVar_get tk (input_size_var vs) in
  let max_res := StringVar_get tk (max_res_var vs) in
  let max_len := StringVar_get tk (max_len_var vs) in
  let target_fps := StringVar_get tk (target_fps_var vs) in
  fp32 ← BooleanVar_get tk (fp32_var vs);
  save_color ← BooleanVar_get tk (save_color_var vs);
  save_npz ← BooleanVar_get tk (save_npz_var vs);
  save_exr ← BooleanVar_get tk (save_exr_var vs);
  create_src ← BooleanVar_get tk (create_src_var vs);
  tta ← BooleanVar_get tk (tta_var vs);
  resume ← BooleanVar_get tk (resume_var vs);
  save_png ← BooleanVar_get tk (save_png_var vs);
  png_16bit ← BooleanVar_get tk (png_16bit_var vs);
  png_compression ← IntVar_get tk (png_compression_var vs);
  metric ← BooleanVar_get tk (metric_var vs);
  _ ← BooleanVar_get tk (invert_metric_var vs);
  mp4_crf ← IntVar_get tk (mp4_crf_var vs);
  invert_metric ← BooleanVar_get tk (invert_metric_var vs);
  Ok (mkValues (if is_file then "" else input_path) (if is_file then input_path else "")
               output_dir encoder input_size max_res max_len target_fps
               fp32 save_color save_npz save_exr create_src tta resume save_png png_16bit
               png_compression mp4_crf metric invert_metric).

(** [start_processing(self)] *)
Definition start_processing (g : gui) : result unit * gui :=
  match py_int E (StringVar_get tk (input_size_var (vars g))),
        py_int E (StringVar_get tk (max_res_var (vars g))) with
  | Some _, Some _ =>
      let input_path := StringVar_get tk (input_path_var (vars g)) in
      let output_dir := StringVar_get tk (output_dir_var (vars g)) in
      if String.eqb input_path "" then
        (Ok tt, showerror "Input Error" (VStr "Please select an input file or folder") g)
      else if String.eqb output_dir "" then
        (Ok tt, showerror "Input Error" (VStr "Please select an output directory") g)
      else
        let is_file := os_path_isfile E input_path in
        let g := config_button (btn_start g) "disabled" g in
        let g := config_button (btn_stop g) "normal" g in
        let g := with_stop_event false g in
        let g := with_root (set_input_widgets_state tk "disabled" (root g)) g in
        match thread_values is_file input_path output_dir (vars g) with
        | Raise e => (Raise e, g)
        | Ok values =>
            (Ok tt, with_status "Status: Starting..." (with_thread (Some values) g))
        end
  | _, _ =>
      (Ok tt,
       showerror "Input Error"
         (VStr "Please enter valid integers for Input Size and Max Resolution") g)
  end.

(** [stop_processing(self)] *)
Definition stop_processing (g : gui) : gui :=
  with_status "Status: Stopping... please wait."
    (config_button (btn_stop g) "disabled" (with_stop_event true g)).

(** [on_thread_done(self, message)] *)
Definition on_thread_done (message : value) (g : gui) : gui :=
  let g := config_button (btn_start g) "normal" g in
  let g := config_button (btn_stop g) "disabled" g in
  let g := with_root (set_input_widgets_state tk "normal" (root g)) g in
  let g := with_status ("Status: Processing " +:+ fmt message) g in
  let g := with_progress (progress_maximum g) (progress_maximum g) g in
  with_thread None g.

(** The body of the loop of [check_queue], for one message. *)
Definition handle (g : gui) (ev : event) : gui :=
  match ev with
  | (SET_MAX, v) => with_progress v (VInt 0) g
  | (PROGRESS_UPDATE, v) => with_progress (progress_maximum g) v g
  | (STATUS_UPDATE, v) => with_status ("Status: " +:+ fmt v) g
  | (ERROR, v) => showerror "Processing Error" v g
  | (THREAD_DONE, v) => on_thread_done v g
  end.

(** [check_queue(self)]: the messages are taken one by one, oldest first,
    until the queue is empty; then the next check is scheduled. *)
Definition check_queue (g : gui) : gui :=
  after_check_queue (fold_left handle (gui_queue g) (with_queue [] g)).

(** [on_closing(self)] *)
Definition on_closing (g : gui) : result unit * gui :=
  let g :=
    if bool_decide (processing_thread g <> None) && is_alive tk
    then with_stop_event true g else g in
  match save_settings tk (vars g) (settings_file g) with
  | (Raise e, f) => (Raise e, with_settings_file f g)
  | (Ok _, f) => (Ok tt, with_destroyed true (with_settings_file f g))
  end.

End Window.

(** The worker puts its messages on the queue of the window. *)
Definition put_all (q : list event) (g : gui) : gui := with_queue (gui_queue g ++ q) g.

(** The messages that a run of the worker puts, from an empty queue. *)
Definition worker_messages (E : env) (vals : values) : list event :=
  update_queue (snd (run (process_videos_threaded E vals) initial_state)).

(** Whether the window is locked: Process disabled, Stop enabled. *)
Definition button_state (g : gui) (i : nat) : option string :=
  cget_state <$> root g !! i.

(** A stand-in for Tk: reading a variable through a class that does not
    fit its value raises; the entries, the comboboxes, the buttons and the
    checkbuttons accept [config(state=...)]. *)
Definition plain_tk : tk_answers :=
  mkTk py_str
       (fun _ => Raise (Exception "expected integer"))
       (fun _ => Raise (ValueError "invalid literal for getboolean()"))
       None false
       (fun c => match c with
                 | TtkEntry | TtkCombobox | TtkButton | TtkCheckbutton => true
                 | _ => false
                 end).

(** The Process and the Stop button are two [ttk.Button]s among the
    children of the window. *)
Definition buttons_in_place (g : gui) : Prop :=
  btn_start g <> btn_stop g /\
  py_class <$> root g !! btn_start g = Some TtkButton /\
  py_class <$> root g !! btn_stop g = Some TtkButton.

(** The window between two batches: Process enabled, Stop disabled, no
    thread. *)
Definition unlocked (g : gui) : Prop :=
  button_state g (btn_start g) = Some "normal" /\
  button_state g (btn_stop g) = Some "disabled" /\
  processing_thread g = None.

(** The window while a batch runs: Process disabled, Stop enabled. *)
Definition locked (g : gui) : Prop :=
  button_state g (btn_start g) = Some "disabled" /\
  button_state g (btn_stop g) = Some "normal".

(** The [values] that pass the checks of [start_processing]: two integer
    literals, an output directory, and the input path in the field of the
    file when it names a file and in the field of the folder otherwise. *)
Definition checked (E : env) (vals : values) : Prop :=
  py_int E (INPUT_SIZE vals) <> None /\
  py_int E (MAX_RES vals) <> None /\
  OUTPUT_DIR vals <> "" /\
  ((INPUT_FILE vals <> "" /\ INPUT_FOLDER vals = "" /\
    os_path_isfile E (INPUT_FILE vals) = true) \/
   (INPUT_FILE vals = "" /\ INPUT_FOLDER vals <> "" /\
    os_path_isfile E (INPUT_FOLDER vals) = false)).

(** The two messages of the worker for values that were not checked. *)
Definition logic_error : event := (ERROR, VStr "Logic Error: No input selected.").

Definition internal_error : event :=
  (ERROR, VStr "Internal Error: Invalid Input Size or Max Resolution type.").

(** A window whose settings name a video and an output directory. *)
Definition ready_window : gui :=
  gui_init (JsonDict (list_to_map [("-INPUT_FOLDER-", JStr "/videos/a.mp4");
                                   ("-OUTPUT_DIR-", JStr "/out")])).

(** A message that is neither of the two. *)
Definition expected (ev : event) : Prop := ev <> logic_error /\ ev <> internal_error.

(** The done message is the last message of [q], or [q] holds none; it is
    there only when the run returned. *)
Definition done_only_last {A : Type} (q : list event) (r : result A) : Prop :=
  messages THREAD_DONE q = [] \/
  exists (q' : list event) (reason : string),
    q = q' ++ [(THREAD_DONE, VStr reason)] /\
    messages THREAD_DONE q' = [] /\
    (reason = "Completed" \/ reason = "Stopped") /\
    exists a : A, r = Ok a.

(** A name part without slash and without dot. *)
Definition plain (s : string) : Prop :=
  ~ In slash (list_ascii_of_string s) /\ ~ In dot (list_ascii_of_string s).

(** ** The plan of the output writer *)

(** What the writer does for one file, step by step: an external call, or
    a computation that raises before any call is made (the extremum of a
    sequence without values). *)
Inductive step : Type :=
| Call (a : action)
| Fails (e : exn).



(** The external calls among the steps, in order. *)
Definition calls_of (l : list step) : list action :=
  omap (fun st => match st with Call a => Some a | Fails _ => None end) l.



(** The six outputs, in the order of the code. *)
Definition output_order : list output_format :=
  [SourceClip; DepthVideo; NpzArchive; ExrFrames; PngFrames; MoveToFinished].



(** * Properties *)

(** ** Running monadic code *)

Lemma run_bind {A B : Type} (m : M A) (f : A -> M B) (s : state) :
  (m ≫= f) s = match m s with
               | (Ok a, s') => f a s'
               | (Raise e, s') => (Raise e, s')
               end.
Proof. reflexivity. Qed.

Ltac run_events :=
  repeat (progress (rewrite ?run_bind; unfold write_event_value; simpl)).

Lemma run_try_except (m : M unit) (h : exn -> M unit) (s : state) :
  try_except m h s = match m s with
                     | (Ok _, s') => (Ok tt, s')
                     | (Raise e, s') => h e s'
                     end.
Proof.
  unfold try_except. rewrite run_bind. unfold attempt.
  destruct (m s) as [[[]|e] s']; reflexivity.
Qed.

(** ** The codec table *)

Lemma codec_map_x264 :
  codec_map !! "libx264 (8-bit)" = Some ("libx264", "high", "yuv420p", false).
Proof. vm_compute. reflexivity. Qed.

Lemma codec_map_x265 :
  codec_map !! "libx265 (10-bit)" = Some ("libx265", "main10", "yuv420p10le", true).
Proof. vm_compute. reflexivity. Qed.

Lemma codec_map_nvenc_h264 :
  codec_map !! "nvenc_h264 (8-bit)" = Some ("h264_nvenc", "high", "yuv420p", false).
Proof. vm_compute. reflexivity. Qed.

Lemma codec_map_nvenc_h265 :
  codec_map !! "nvenc_h265 (10-bit)" = Some ("hevc_nvenc", "main10", "yuv420p10le", true).
Proof. vm_compute. reflexivity. Qed.

Lemma codec_map_unknown (k : string) :
  k ∉ ["libx264 (8-bit)"; "libx265 (10-bit)"; "nvenc_h264 (8-bit)"; "nvenc_h265 (10-bit)"] ->
  codec_map !! k = None.
Proof.
  intros Hk. unfold codec_map. simpl.
  rewrite !lookup_insert_ne, lookup_empty; [reflexivity | ..];
    intros Heq; apply Hk; rewrite <- Heq; set_solver.
Qed.

Lemma h26x_known_calls (E : env) (input_dir output_path codec_mode fps crf : string)
    (invert_vis : bool) (s : state) (codec profile pix_fmt : string) (is_10bit : bool) :
  codec_map !! codec_mode = Some (codec, profile, pix_fmt, is_10bit) ->
  calls (snd (run (run_h26x_encoding E input_dir output_path codec_mode fps crf invert_vis) s))
  = calls s ++
    [SubprocessRun
       (["ffmpeg"; "-y"; "-i"; path_join input_dir "frame_%05d.png"; "-r"; fps; "-vf";
         if invert_vis then "format=gray, lut=curve=opposit" else "format=gray"]
        ++ ["-vcodec"; codec; "-pix_fmt"; pix_fmt; "-crf"; crf; "-profile:v"; profile;
            "-tag:v"; if is_10bit then "hvc1" else "avc1"; output_path])].
Proof.
  intros Hk. unfold run, run_h26x_encoding. rewrite Hk.
  rewrite run_bind. unfold attempt, call.
  destruct invert_vis; simpl;
    (destruct (ext_raises E _) as [[]|]; reflexivity).
Qed.

(** C8. Each of the four codec modes runs ffmpeg exactly once, with the
    codec, pixel format, profile and container tag of its row of the table;
    any other mode puts exactly one error message on the queue and runs no
    subprocess. *)
Theorem h26x_codec_selection (E : env) (input_dir output_path fps crf : string)
    (invert_vis : bool) (s : state) :
  let ran codec_mode :=
    snd (run (run_h26x_encoding E input_dir output_path codec_mode fps crf invert_vis) s) in
  let ffmpeg codec profile pix_fmt tag :=
    SubprocessRun
      (["ffmpeg"; "-y"; "-i"; path_join input_dir "frame_%05d.png"; "-r"; fps; "-vf";
        if invert_vis then "format=gray, lut=curve=opposit" else "format=gray"]
       ++ ["-vcodec"; codec; "-pix_fmt"; pix_fmt; "-crf"; crf; "-profile:v"; profile;
           "-tag:v"; tag; output_path]) in
  calls (ran "libx264 (8-bit)") = calls s ++ [ffmpeg "libx264" "high" "yuv420p" "avc1"] /\
  calls (ran "libx265 (10-bit)") = calls s ++ [ffmpeg "libx265" "main10" "yuv420p10le" "hvc1"] /\
  calls (ran "nvenc_h264 (8-bit)") = calls s ++ [ffmpeg "h264_nvenc" "high" "yuv420p" "avc1"] /\
  calls (ran "nvenc_h265 (10-bit)") = calls s ++ [ffmpeg "hevc_nvenc" "main10" "yuv420p10le" "hvc1"] /\
  forall codec_mode : string,
    codec_mode ∉ ["libx264 (8-bit)"; "libx265 (10-bit)"; "nvenc_h264 (8-bit)";
                  "nvenc_h265 (10-bit)"] ->
    update_queue (ran codec_mode)
    = update_queue s ++
      [(ERROR, VStr ("Internal error: Unknown codec mode '" +:+ codec_mode +:+ "'"))] /\
    calls (ran codec_mode) = calls s.
Proof.
  intros ran ffmpeg. subst ran ffmpeg. cbv beta.
  rewrite (h26x_known_calls E _ _ _ _ _ _ _ _ _ _ _ codec_map_x264).
  rewrite (h26x_known_calls E _ _ _ _ _ _ _ _ _ _ _ codec_map_x265).
  rewrite (h26x_known_calls E _ _ _ _ _ _ _ _ _ _ _ codec_map_nvenc_h264).
  rewrite (h26x_known_calls E _ _ _ _ _ _ _ _ _ _ _ codec_map_nvenc_h265).
  repeat split; try reflexivity.
  all: unfold run, run_h26x_encoding; rewrite (codec_map_unknown _ H); reflexivity.
Qed.

Lemma h26x_codec_selection_witness :
  ("vp9" ∉ ["libx264 (8-bit)"; "libx265 (10-bit)"; "nvenc_h264 (8-bit)";
            "nvenc_h265 (10-bit)"]) /\
  update_queue (snd (run (run_h26x_encoding calm_env "png" "out.mp4" "vp9" "24" "18" false)
                       initial_state))
  = [(ERROR, VStr "Internal error: Unknown codec mode 'vp9'")] /\
  calls (snd (run (run_h26x_encoding calm_env "png" "out.mp4" "vp9" "24" "18" false)
                initial_state)) = [].
Proof.
  assert (Hk : "vp9" ∉ ["libx264 (8-bit)"; "libx265 (10-bit)"; "nvenc_h264 (8-bit)";
                        "nvenc_h265 (10-bit)"]).
  { intros Hin. repeat (apply elem_of_cons in Hin as [Hin|Hin]; [discriminate Hin|]).
    inversion Hin. }
  split; [exact Hk|].
  exact (proj2 (proj2 (proj2 (proj2
    (h26x_codec_selection calm_env "png" "out.mp4" "24" "18" false initial_state))))
    "vp9" Hk).
Defined.

(** ** Arithmetic on depth values *)

Lemma Qcleb_le (x y : Qc) : Qcleb x y = true <-> (x <= y)%Qc.
Proof. unfold Qcleb, Qcle. apply Qle_bool_iff. Qed.

Lemma Qcleb_gt (x y : Qc) : Qcleb x y = false -> (y <= x)%Qc.
Proof.
  intros H. destruct (Qclt_le_dec x y) as [Hlt|Hle]; [|exact Hle].
  apply Qclt_le_weak in Hlt. apply Qcleb_le in Hlt. congruence.
Qed.

Lemma Qcmin_le_l (x y : Qc) : (Qcmin x y <= x)%Qc.
Proof.
  unfold Qcmin. destruct (Qcleb x y) eqn:H.
  - apply Qcle_refl.
  - apply Qcleb_gt, H.
Qed.

Lemma Qcmin_le_r (x y : Qc) : (Qcmin x y <= y)%Qc.
Proof.
  unfold Qcmin. destruct (Qcleb x y) eqn:H.
  - apply Qcleb_le, H.
  - apply Qcle_refl.
Qed.

Lemma Qcmax_ge_l (x y : Qc) : (x <= Qcmax x y)%Qc.
Proof.
  unfold Qcmax. destruct (Qcleb x y) eqn:H.
  - apply Qcleb_le, H.
  - apply Qcle_refl.
Qed.

Lemma Qcmax_ge_r (x y : Qc) : (y <= Qcmax x y)%Qc.
Proof.
  unfold Qcmax. destruct (Qcleb x y) eqn:H.
  - apply Qcle_refl.
  - apply Qcleb_gt, H.
Qed.

Lemma fold_min_le (l : list Qc) (x : Qc) :
  (fold_left Qcmin l x <= x)%Qc /\ Forall (fun v => (fold_left Qcmin l x <= v)%Qc) l.
Proof.
  revert x. induction l as [|y l IH]; intros x; simpl.
  - split; [apply Qcle_refl | constructor].
  - destruct (IH (Qcmin x y)) as [H1 H2]. split.
    + eapply Qcle_trans; [exact H1 | apply Qcmin_le_l].
    + constructor; [|exact H2].
      eapply Qcle_trans; [exact H1 | apply Qcmin_le_r].
Qed.

Lemma fold_max_ge (l : list Qc) (x : Qc) :
  (x <= fold_left Qcmax l x)%Qc /\ Forall (fun v => (v <= fold_left Qcmax l x)%Qc) l.
Proof.
  revert x. induction l as [|y l IH]; intros x; simpl.
  - split; [apply Qcle_refl | constructor].
  - destruct (IH (Qcmax x y)) as [H1 H2]. split.
    + eapply Qcle_trans; [apply Qcmax_ge_l | exact H1].
    + constructor; [|exact H2].
      eapply Qcle_trans; [apply Qcmax_ge_r | exact H1].
Qed.

Lemma np_min_le (d : depth_seq) (m : Qc) :
  np_min d = Ok m -> Forall (fun v => (m <= v)%Qc) (ravel d).
Proof.
  unfold np_min. destruct (ravel d) as [|x l]; [discriminate|].
  intros [= <-]. destruct (fold_min_le l x) as [H1 H2]. constructor; assumption.
Qed.

Lemma np_max_ge (d : depth_seq) (m : Qc) :
  np_max d = Ok m -> Forall (fun v => (v <= m)%Qc) (ravel d).
Proof.
  unfold np_max. destruct (ravel d) as [|x l]; [discriminate|].
  intros [= <-]. destruct (fold_max_ge l x) as [H1 H2]. constructor; assumption.
Qed.

Lemma lookup_In {A : Type} (l : list A) (i : nat) (x : A) : l !! i = Some x -> In x l.
Proof. intros H. apply list_elem_of_In. eapply list_elem_of_lookup_2, H. Qed.

Lemma at2_elem {A : Type} (m : list (list A)) (r c : nat) (v : A) :
  at2 m r c = Some v -> In v (concat m).
Proof.
  unfold at2. destruct (m !! r) as [row|] eqn:Hr; [|discriminate].
  intros Hc. apply in_concat. exists row. split.
  - eapply lookup_In, Hr.
  - eapply lookup_In, Hc.
Qed.

Lemma pixel_at_concat {A : Type} (d : list (list (list A))) (t r c : nat) (v : A) :
  pixel_at d t r c = Some v -> In v (concat (concat d)).
Proof.
  unfold pixel_at. intros H.
  destruct (d !! t) as [m|] eqn:Ht; [|discriminate H].
  apply at2_elem in H.
  apply in_concat in H as (row & Hrow & Hv).
  apply in_concat. exists row. split; [|exact Hv].
  apply in_concat. exists m. split; [|exact Hrow].
  eapply lookup_In, Ht.
Qed.

Lemma pixel_at_frame {A : Type} (d : list (list (list A))) (t r c : nat) (m : list (list A)) :
  d !! t = Some m -> pixel_at d t r c = at2 m r c.
Proof. intros H. unfold pixel_at. rewrite H. reflexivity. Qed.

Lemma at2_map2d {A B : Type} (f : A -> B) (m : list (list A)) (r c : nat) :
  at2 (map2d f m) r c = f <$> at2 m r c.
Proof.
  unfold at2, map2d. rewrite list_lookup_fmap.
  destruct (m !! r) as [row|]; simpl; [|reflexivity].
  apply list_lookup_fmap.
Qed.

(** The operations of [Qc] read in [Q]. *)
Lemma this_minus (x y : Qc) : (this (x - y)%Qc == this x - this y)%Q.
Proof.
  unfold Qcminus, Qcplus, Qcopp. simpl. rewrite !Qred_correct. reflexivity.
Qed.

Lemma this_plus (x y : Qc) : (this (x + y)%Qc == this x + this y)%Q.
Proof. unfold Qcplus. simpl. apply Qred_correct. Qed.

Lemma this_mult (x y : Qc) : (this (x * y)%Qc == this x * this y)%Q.
Proof. unfold Qcmult. simpl. apply Qred_correct. Qed.

Lemma this_div (x y : Qc) : (this (x / y)%Qc == this x / this y)%Q.
Proof.
  unfold Qcdiv, Qcmult, Qcinv. simpl. rewrite !Qred_correct. reflexivity.
Qed.

Lemma this_of_Z (n : Z) : (this (Qc_of_Z n) == inject_Z n)%Q.
Proof. unfold Qc_of_Z. simpl. apply Qred_correct. Qed.

Lemma Qcminus_eq_0 (x y : Qc) : (x - y)%Qc = 0%Qc -> x = y.
Proof.
  intros H. replace x with ((x - y) + y)%Qc by ring. rewrite H. ring.
Qed.

Lemma Q_scaled_ratio_bounds (a b k : Q) :
  (0 <= a)%Q -> (a <= b)%Q -> (0 < b)%Q -> (0 <= k)%Q ->
  (0 <= a / b * k)%Q /\ (a / b * k <= k)%Q.
Proof.
  intros Ha Hab Hb Hk.
  assert (H0 : (0 <= a / b)%Q).
  { apply Qle_shift_div_l; [exact Hb|]. lra. }
  assert (H1 : (a / b <= 1)%Q).
  { apply Qle_shift_div_r; [exact Hb|]. lra. }
  split.
  - apply Qmult_le_0_compat; assumption.
  - apply Qle_trans with (1 * k)%Q.
    + apply Qmult_le_compat_r; assumption.
    + rewrite Qmult_1_l. apply Qle_refl.
Qed.

Lemma Qc_trunc_range (x : Qc) (k : Z) :
  (0 <= this x)%Q -> (this x <= inject_Z k)%Q -> (0 <= Qc_trunc x <= k)%Z.
Proof.
  unfold Qle, Qc_trunc. simpl. intros H0 Hk.
  assert (Hn : (0 <= Qnum x)%Z) by lia.
  rewrite Z.quot_div_nonneg by lia. split.
  - apply Z.div_pos; lia.
  - apply Z.div_le_upper_bound; lia.
Qed.

(** Between the extrema, and when they differ, a normalized pixel is
    defined and within the scale. *)
Lemma norm_pixel_range (bits : N) (scale : Z) (d_min d_max v : Qc) :
  (d_min <= v)%Qc -> (v <= d_max)%Qc -> d_min <> d_max ->
  (0 <= scale < 2 ^ Z.of_N bits)%Z ->
  exists n : Z, norm_pixel bits scale d_min d_max v = Some n /\ (0 <= n <= scale)%Z.
Proof.
  intros Hlo Hhi Hne Hscale. unfold norm_pixel, np_true_divide.
  destruct (Qc_eq_dec _ _) as [Heq|Hnz].
  { apply Qcminus_eq_0 in Heq. congruence. }
  eexists. split; [reflexivity|].
  unfold astype_uint.
  assert (Hlt : (d_min < d_max)%Qc).
  { apply Qcle_lt_or_eq in Hlo as Hlo'. apply Qcle_lt_or_eq in Hhi as Hhi'.
    destruct Hlo' as [Hlo' | ->]; destruct Hhi' as [Hhi' | Hhi'].
    - eapply Qclt_trans; eassumption.
    - subst. exact Hlo'.
    - exact Hhi'.
    - congruence. }
  unfold Qcle, Qclt in *.
  destruct (Q_scaled_ratio_bounds (this v - this d_min) (this d_max - this d_min)
              (inject_Z scale)) as [B0 B1]; try lra.
  { change 0%Q with (inject_Z 0). rewrite <- Zle_Qle. lia. }
  assert (Hr : (0 <= Qc_trunc ((v - d_min) / (d_max - d_min) * Qc_of_Z scale) <= scale)%Z).
  { apply Qc_trunc_range.
    - rewrite this_mult, this_div, !this_minus, this_of_Z. exact B0.
    - rewrite this_mult, this_div, !this_minus, this_of_Z. exact B1. }
  rewrite Z.mod_small by lia. exact Hr.
Qed.

Lemma norm_pixel_constant (bits : N) (scale : Z) (d v : Qc) :
  (d - d)%Qc = 0%Qc /\ norm_pixel bits scale d d v = None.
Proof.
  assert (H : (d - d)%Qc = 0%Qc) by ring.
  split; [exact H|].
  unfold norm_pixel, np_true_divide. rewrite H.
  destruct (Qc_eq_dec _ _) as [_|Hn]; [reflexivity|congruence].
Qed.

(** ** The normalized PNG frames *)

(** C9. In a sequence whose minimum is 0 and whose maximum is 10, a pixel
    of depth 5 becomes 127 in an 8-bit frame and 32767 in a 16-bit frame:
    the scaled values 127.5 and 32767.5 lose their fraction in the
    conversion to the unsigned type. *)
Theorem png_midpoint_is_truncated (depths : depth_seq) (depth : depth_map) (t r c : nat) :
  np_min depths = Ok (Qc_of_Z 0) ->
  np_max depths = Ok (Qc_of_Z 10) ->
  depths !! t = Some depth ->
  at2 depth r c = Some (Qc_of_Z 5) ->
  at2 (png_image false (Qc_of_Z 0) (Qc_of_Z 10) depth) r c = Some (Some 127%Z) /\
  at2 (png_image true (Qc_of_Z 0) (Qc_of_Z 10) depth) r c = Some (Some 32767%Z).
Proof.
  intros _ _ _ Hpix. unfold png_image.
  rewrite !at2_map2d, Hpix. split; vm_compute; reflexivity.
Qed.

Lemma png_midpoint_is_truncated_witness :
  np_min ramp_depths = Ok (Qc_of_Z 0) /\
  np_max ramp_depths = Ok (Qc_of_Z 10) /\
  at2 (png_image false (Qc_of_Z 0) (Qc_of_Z 10) [[Qc_of_Z 0; Qc_of_Z 5; Qc_of_Z 10]]) 0 1
  = Some (Some 127%Z) /\
  at2 (png_image true (Qc_of_Z 0) (Qc_of_Z 10) [[Qc_of_Z 0; Qc_of_Z 5; Qc_of_Z 10]]) 0 1
  = Some (Some 32767%Z).
Proof.
  assert (Hmin : np_min ramp_depths = Ok (Qc_of_Z 0)) by reflexivity.
  assert (Hmax : np_max ramp_depths = Ok (Qc_of_Z 10)) by reflexivity.
  split; [exact Hmin|]. split; [exact Hmax|].
  exact (png_midpoint_is_truncated ramp_depths [[Qc_of_Z 0; Qc_of_Z 5; Qc_of_Z 10]] 0 0 1
           Hmin Hmax eq_refl eq_refl).
Defined.

(** C10. The frames are divided by (maximum - minimum) without a guard.
    When the two differ, every 8-bit value is defined and lies in
    [0, 255] and every 16-bit value in [0, 65535]; when the sequence is
    constant the divisor is zero and no pixel has a defined value. *)
Theorem png_normalization_domain (depths : depth_seq) (d_min d_max : Qc) :
  np_min depths = Ok d_min ->
  np_max depths = Ok d_max ->
  (d_min <> d_max ->
   forall (t r c : nat) (depth : depth_map) (v : Qc),
     depths !! t = Some depth -> at2 depth r c = Some v ->
     (exists n : Z, at2 (png_image false d_min d_max depth) r c = Some (Some n)
                    /\ (0 <= n <= 255)%Z) /\
     (exists n : Z, at2 (png_image true d_min d_max depth) r c = Some (Some n)
                    /\ (0 <= n <= 65535)%Z)) /\
  (d_min = d_max ->
   (d_max - d_min)%Qc = 0%Qc /\
   forall (png_16bit : bool) (t r c : nat) (depth : depth_map) (v : Qc),
     depths !! t = Some depth -> at2 depth r c = Some v ->
     at2 (png_image png_16bit d_min d_max depth) r c = Some None).
Proof.
  intros Hmin Hmax. split.
  - intros Hne t r c depth v Ht Hv.
    assert (Hin : In v (ravel depths)).
    { apply (pixel_at_concat depths t r c).
      rewrite (pixel_at_frame depths t r c depth Ht). exact Hv. }
    pose proof (np_min_le _ _ Hmin) as Hlo. pose proof (np_max_ge _ _ Hmax) as Hhi.
    rewrite Forall_forall in Hlo, Hhi.
    apply list_elem_of_In in Hin.
    specialize (Hlo v Hin). specialize (Hhi v Hin).
    unfold png_image. rewrite !at2_map2d, Hv. simpl.
    destruct (norm_pixel_range 8 255 d_min d_max v Hlo Hhi Hne) as (n & -> & Hn);
      [simpl; lia|].
    destruct (norm_pixel_range 16 65535 d_min d_max v Hlo Hhi Hne) as (n' & -> & Hn');
      [simpl; lia|].
    split; eexists; split; try reflexivity; assumption.
  - intros <-. split; [apply (norm_pixel_constant 8 255 d_min d_min)|].
    intros png_16bit t r c depth v _ Hv.
    unfold png_image. destruct png_16bit; rewrite at2_map2d, Hv; simpl; f_equal.
    + apply (norm_pixel_constant 16 65535 d_min v).
    + apply (norm_pixel_constant 8 255 d_min v).
Qed.

Lemma png_normalization_domain_witness :
  (np_min ramp_depths = Ok (Qc_of_Z 0) /\ np_max ramp_depths = Ok (Qc_of_Z 10) /\
   Qc_of_Z 0 <> Qc_of_Z 10 /\
   exists n : Z,
     at2 (png_image false (Qc_of_Z 0) (Qc_of_Z 10) [[Qc_of_Z 0; Qc_of_Z 5; Qc_of_Z 10]]) 0 2
     = Some (Some n) /\ (0 <= n <= 255)%Z) /\
  (np_min flat_depths = Ok (Qc_of_Z 7) /\ np_max flat_depths = Ok (Qc_of_Z 7) /\
   (Qc_of_Z 7 - Qc_of_Z 7)%Qc = 0%Qc /\
   at2 (png_image true (Qc_of_Z 7) (Qc_of_Z 7) [[Qc_of_Z 7; Qc_of_Z 7]]) 0 1 = Some None).
Proof.
  assert (Hmin : np_min ramp_depths = Ok (Qc_of_Z 0)) by reflexivity.
  assert (Hmax : np_max ramp_depths = Ok (Qc_of_Z 10)) by reflexivity.
  assert (Hne : Qc_of_Z 0 <> Qc_of_Z 10) by discriminate.
  assert (Fmin : np_min flat_depths = Ok (Qc_of_Z 7)) by reflexivity.
  assert (Fmax : np_max flat_depths = Ok (Qc_of_Z 7)) by reflexivity.
  split.
  - split; [exact Hmin|]. split; [exact Hmax|]. split; [exact Hne|].
    exact (proj1 (proj1 (png_normalization_domain ramp_depths _ _ Hmin Hmax) Hne
                   0%nat 0%nat 2%nat [[Qc_of_Z 0; Qc_of_Z 5; Qc_of_Z 10]] (Qc_of_Z 10)
                   eq_refl eq_refl)).
  - split; [exact Fmin|]. split; [exact Fmax|].
    destruct (proj2 (png_normalization_domain flat_depths _ _ Fmin Fmax) eq_refl)
      as [Hz Hpix].
    split; [exact Hz|].
    exact (Hpix true 0%nat 0%nat 1%nat [[Qc_of_Z 7; Qc_of_Z 7]] (Qc_of_Z 7) eq_refl eq_refl).
Defined.

(** ** The visualization inversion *)

Lemma ravel_seq_map (f : Qc -> Qc) (d : depth_seq) :
  ravel (seq_map f d) = map f (ravel d).
Proof.
  unfold ravel, seq_map. rewrite !concat_map. reflexivity.
Qed.

Lemma seq_map_seq_map {A B C : Type} (f : A -> B) (g : B -> C) (d : list (list (list A))) :
  seq_map g (seq_map f d) = seq_map (fun x => g (f x)) d.
Proof.
  unfold seq_map. rewrite map_map. apply map_ext. intros m.
  rewrite map_map. apply map_ext. intros row. apply map_map.
Qed.

Lemma seq_map_ext {A B : Type} (f g : A -> B) (d : list (list (list A))) :
  (forall x, f x = g x) -> seq_map f d = seq_map g d.
Proof.
  intros H. unfold seq_map. apply map_ext. intros m. apply map_ext. intros row.
  apply map_ext, H.
Qed.

Lemma seq_map_id {A : Type} (d : list (list (list A))) : seq_map (fun x => x) d = d.
Proof.
  unfold seq_map. rewrite <- (map_id d) at 2. apply map_ext. intros m.
  rewrite <- (map_id m) at 2. apply map_ext. intros row. apply map_id.
Qed.

Lemma Qcle_minus_flip (m a b : Qc) : (m - a <= m - b)%Qc <-> (b <= a)%Qc.
Proof.
  unfold Qcle. rewrite !this_minus. split; intros H; lra.
Qed.

Lemma Qcmax_antitone (f : Qc -> Qc) (a b : Qc) :
  (forall x y : Qc, (x <= y)%Qc -> (f y <= f x)%Qc) ->
  Qcmax (f a) (f b) = f (Qcmin a b).
Proof.
  intros Hf. unfold Qcmax, Qcmin.
  destruct (Qcleb (f a) (f b)) eqn:H1; destruct (Qcleb a b) eqn:H2; try reflexivity.
  - apply Qcleb_le in H1, H2. apply Qcle_antisym; [apply Hf, H2 | exact H1].
  - apply Qcleb_gt in H2. apply Hf, Qcleb_le in H2. congruence.
Qed.

Lemma fold_max_antitone (f : Qc -> Qc) (l : list Qc) (x : Qc) :
  (forall x y : Qc, (x <= y)%Qc -> (f y <= f x)%Qc) ->
  fold_left Qcmax (map f l) (f x) = f (fold_left Qcmin l x).
Proof.
  intros Hf. revert x. induction l as [|y l IH]; intros x; simpl; [reflexivity|].
  rewrite (Qcmax_antitone f x y Hf). apply IH.
Qed.

(** The maximum of an inverted sequence is the inverted minimum. *)
Lemma np_max_scalar_minus (minus : Qc -> Qc -> Qc) (m lo : Qc) (d : depth_seq) :
  keeps_order minus ->
  np_min d = Ok lo -> np_max (scalar_minus minus m d) = Ok (minus m lo).
Proof.
  intros Hminus. unfold np_min, np_max, scalar_minus. rewrite ravel_seq_map.
  destruct (ravel d) as [|x l]; [discriminate|].
  intros [= <-]. simpl. f_equal. apply (fold_max_antitone (minus m)), Hminus.
Qed.

Lemma np_min_max_defined (d : depth_seq) (lo : Qc) :
  np_min d = Ok lo -> exists hi, np_max d = Ok hi.
Proof.
  unfold np_min, np_max. destruct (ravel d); [discriminate|]. eauto.
Qed.

Lemma lookup_snoc {A : Type} (l : list A) (x : A) : (l ++ [x]) !! length l = Some x.
Proof. rewrite lookup_app_r by lia. rewrite Nat.sub_diag. reflexivity. Qed.

Lemma lookup_snoc_old {A : Type} (l : list A) (x y : A) (i : nat) :
  l !! i = Some y -> (l ++ [x]) !! i = Some y.
Proof. intros H. apply lookup_app_l_Some, H. Qed.

(** What [max_minus] does to the heap. *)
Lemma run_max_minus (E : env) (l : loc) (d : depth_seq) (hi : Qc) (s : state) :
  heap s !! l = Some d -> np_max d = Ok hi ->
  max_minus E l s
  = (Ok (length (heap s)),
     mkState (update_queue s) (calls s) (made_dirs s)
             (heap s ++ [scalar_minus (np_subtract E) hi d])).
Proof.
  intros Hl Hhi. unfold max_minus. rewrite run_bind. unfold load. rewrite Hl. simpl.
  rewrite run_bind. unfold lift. rewrite Hhi. reflexivity.
Qed.

(** C5, as the code has it. The second inversion takes its maximum from
    the inverted array, and that maximum is the inverted minimum: with
    [max] and [min] those of the original sequence and the subtraction that
    of the array's type, which keeps the order, inverting twice gives
    [(max - min) - (max - x)] for every value [x], and leaves the original
    array as it was.  Where the three subtractions are exact this is
    [x - min], and the original sequence when that minimum is 0. *)
Theorem double_inversion_subtracts_minimum (E : env) (s : state) (l : loc) (d : depth_seq)
    (lo : Qc) :
  keeps_order (np_subtract E) ->
  heap s !! l = Some d ->
  np_min d = Ok lo ->
  exists (hi : Qc) (l2 : loc) (s' : state),
    np_max d = Ok hi /\
    invert_twice E l s = (Ok l2, s') /\
    heap s' !! l2
    = Some (seq_map (fun x => np_subtract E (np_subtract E hi lo) (np_subtract E hi x)) d) /\
    heap s' !! l = Some d /\
    ((forall m v : Qc, np_subtract E m v = (m - v)%Qc) ->
     heap s' !! l2 = Some (seq_map (fun x => (x - lo)%Qc) d) /\
     (lo = 0%Qc -> heap s' !! l2 = Some d)).
Proof.
  intros Hminus Hl Hlo. destruct (np_min_max_defined d lo Hlo) as [hi Hhi].
  exists hi. unfold invert_twice. rewrite run_bind, (run_max_minus E l d hi s Hl Hhi).
  set (s1 := mkState _ _ _ _).
  assert (H1 : heap s1 !! length (heap s) = Some (scalar_minus (np_subtract E) hi d)).
  { subst s1. simpl. apply lookup_snoc. }
  rewrite (run_max_minus E _ _ (np_subtract E hi lo) s1 H1
             (np_max_scalar_minus (np_subtract E) hi lo d Hminus Hlo)).
  assert (Hres : scalar_minus (np_subtract E) (np_subtract E hi lo)
                   (scalar_minus (np_subtract E) hi d)
                 = seq_map (fun x => np_subtract E (np_subtract E hi lo) (np_subtract E hi x))
                     d).
  { unfold scalar_minus. rewrite seq_map_seq_map. reflexivity. }
  eexists _, _. split; [exact Hhi|]. split; [reflexivity|]. simpl. rewrite length_app. simpl.
  replace (length (heap s) + 1)%nat
    with (length (heap s ++ [scalar_minus (np_subtract E) hi d]))
    by (rewrite length_app; reflexivity).
  rewrite lookup_snoc, Hres. split; [reflexivity|].
  split; [do 2 apply lookup_snoc_old; exact Hl|].
  intros Hexact.
  assert (Hsub : seq_map (fun x => np_subtract E (np_subtract E hi lo) (np_subtract E hi x)) d
                 = seq_map (fun x => (x - lo)%Qc) d).
  { apply seq_map_ext. intros x. rewrite !Hexact. ring. }
  rewrite Hsub. split; [reflexivity|].
  intros ->. f_equal. rewrite <- (seq_map_id d) at 2. apply seq_map_ext. intros x. ring.
Qed.

Lemma double_inversion_subtracts_minimum_witness :
  exists (hi : Qc) (l2 : loc) (s' : state),
    np_max step_depths = Ok hi /\
    invert_twice calm_env 0%nat (mkState [] [] [] [step_depths]) = (Ok l2, s') /\
    heap s' !! l2
    = Some (seq_map (fun x => np_subtract calm_env (np_subtract calm_env hi (Qc_of_Z 1))
                                (np_subtract calm_env hi x)) step_depths) /\
    heap s' !! 0%nat = Some step_depths /\
    ((forall m v : Qc, np_subtract calm_env m v = (m - v)%Qc) ->
     heap s' !! l2 = Some (seq_map (fun x => (x - Qc_of_Z 1)%Qc) step_depths) /\
     (Qc_of_Z 1 = 0%Qc -> heap s' !! l2 = Some step_depths)).
Proof.
  exact (double_inversion_subtracts_minimum calm_env (mkState [] [] [] [step_depths]) 0%nat
           step_depths (Qc_of_Z 1)
           (fun m x y H => proj2 (Qcle_minus_flip m y x) H) eq_refl eq_refl).
Defined.

(** The numerators and denominators of a sequence, to tell two sequences
    apart by computation. *)
Lemma fractions_differ (d1 d2 : depth_seq) :
  seq_map (fun v : Qc => (Qnum v, Qden v)) d1 <> seq_map (fun v : Qc => (Qnum v, Qden v)) d2 ->
  d1 <> d2.
Proof. intros H ->. apply H. reflexivity. Qed.

(** C5, as stated, fails on the sequence 1, 3: the first inversion gives
    2, 0, the second 0, 2. *)
Lemma double_inversion_is_not_identity :
  exists (l2 : loc) (s' : state) (d2 : depth_seq),
    invert_twice calm_env 0%nat (mkState [] [] [] [step_depths]) = (Ok l2, s') /\
    heap s' !! l2 = Some d2 /\
    seq_map (fun v : Qc => (Qnum v, Qden v)) d2 = [[[(0, 1%positive); (2, 1%positive)]]]%Z /\
    d2 <> step_depths.
Proof.
  eexists _, _, _. split; [reflexivity|]. split; [reflexivity|].
  split; [vm_compute; reflexivity|].
  apply fractions_differ. vm_compute. discriminate.
Qed.

(** Rounding to the nearest quarter keeps the order. *)
Lemma coarse_minus_keeps_order : keeps_order coarse_minus.
Proof.
  intros m x y H. unfold coarse_minus, Qcle. cbn [this Q2Qc]. rewrite !Qred_correct.
  unfold Qdiv. apply Qmult_le_compat_r; [|discriminate].
  rewrite <- Zle_Qle. apply Qfloor_resp_le.
  apply Qplus_le_l. apply Qmult_le_compat_r; [|discriminate].
  apply (proj2 (Qcle_minus_flip m y x) H).
Qed.

(** With a subtraction that rounds, the sequence 0, 1/8, 1, whose minimum
    is 0, comes back from the two inversions as 0, 0, 1: the first
    inversion rounds 7/8 to 1.  The closed forms of the exact case do not
    hold of such a subtraction; the general form does. *)
Lemma rounded_double_inversion :
  keeps_order (np_subtract coarse_env) /\
  np_min fine_depths = Ok 0%Qc /\
  exists (l2 : loc) (s' : state) (d2 : depth_seq),
    invert_twice coarse_env 0%nat (mkState [] [] [] [fine_depths]) = (Ok l2, s') /\
    heap s' !! l2 = Some d2 /\
    seq_map (fun v : Qc => (Qnum v, Qden v)) d2
    = [[[(0, 1%positive); (0, 1%positive); (1, 1%positive)]]]%Z /\
    d2 <> fine_depths.
Proof.
  split; [exact coarse_minus_keeps_order|].
  split; [reflexivity|].
  eexists _, _, _. split; [reflexivity|]. split; [reflexivity|].
  split; [vm_compute; reflexivity|].
  apply fractions_differ. vm_compute. discriminate.
Qed.

(** ** Test-time augmentation *)

Lemma shape_dims {A : Type} (m : list (list A)) :
  shape m = (length (dims m), hd 0%nat (dims m)).
Proof. unfold shape, dims. rewrite length_map. destruct m; reflexivity. Qed.

Lemma dims_shape {A B : Type} (l : list (list (list A))) (k : list (list (list B))) :
  map dims l = map dims k -> map shape l = map shape k.
Proof.
  revert k. induction l as [|a l IH]; intros [|b k] H; try discriminate; [reflexivity|].
  simpl in *. injection H as Hab Hlk. rewrite !shape_dims, Hab. f_equal. apply IH, Hlk.
Qed.

Lemma dims_flip {A : Type} (m : list (list A)) : dims (np_flip_axis1 m) = dims m.
Proof.
  unfold dims, np_flip_axis1. rewrite map_map. apply map_ext.
  intros row. apply length_rev.
Qed.

Lemma map_dims_flip {A : Type} (l : list (list (list A))) :
  map dims (map np_flip_axis1 l) = map dims l.
Proof. rewrite map_map. apply map_ext, dims_flip. Qed.

Lemma dims_average2 (a b : depth_map) : dims a = dims b -> dims (average2 a b) = dims a.
Proof.
  revert b. induction a as [|r1 a IH]; intros [|r2 b] H; try discriminate; [reflexivity|].
  simpl in *. injection H as Hr Hab. f_equal; [|apply IH, Hab].
  apply length_zip_with_l_eq, Hr.
Qed.

Lemma map_dims_average2 (d1 d2 : depth_seq) :
  map dims d1 = map dims d2 -> map dims (zip_with average2 d1 d2) = map dims d1.
Proof.
  revert d2. induction d1 as [|a d1 IH]; intros [|b d2] H; try discriminate; [reflexivity|].
  simpl in *. injection H as Hab Hd. f_equal; [apply dims_average2, Hab | apply IH, Hd].
Qed.

(** Whether [np.stack] accepts a list depends on the shapes alone. *)
Lemma np_stack_by_shapes {A B : Type} (l : list (list (list A))) (k : list (list (list B)))
    (l' : list (list (list A))) :
  map shape l = map shape k -> np_stack l = Ok l' -> np_stack k = Ok k.
Proof.
  unfold np_stack. destruct l as [|a l]; [discriminate|].
  destruct k as [|b k]; [discriminate|]. intros Hmap.
  pose proof (f_equal (hd (0%nat, 0%nat)) Hmap) as Hab.
  pose proof (f_equal (@tl _) Hmap) as Hlk. simpl in Hab, Hlk.
  destruct (forallb _ l) eqn:Hall; [|discriminate]. intros _.
  replace (forallb (fun b0 => shape_eqb (shape b0) (shape b)) k) with true; [reflexivity|].
  symmetry. rewrite forallb_forall in Hall. apply forallb_forall.
  intros x Hx. apply (in_map shape) in Hx. rewrite <- Hlk in Hx.
  apply in_map_iff in Hx as (y & Hy & Hin). rewrite <- Hy, <- Hab. apply Hall, Hin.
Qed.

Lemma np_stack_ok {A : Type} (l l' : list (list (list A))) : np_stack l = Ok l' -> l' = l.
Proof.
  unfold np_stack. destruct l; [discriminate|].
  destruct (forallb _ _); [|discriminate]. intros [= <-]. reflexivity.
Qed.

Lemma at2_average2 (m1 m2 : list (list Qc)) (r c : nat) (a b : Qc) :
  at2 m1 r c = Some a -> at2 m2 r c = Some b ->
  at2 (average2 m1 m2) r c = Some ((a + b) / 2)%Qc.
Proof.
  unfold at2, average2. rewrite lookup_zip_with.
  destruct (m1 !! r) as [r1|]; [|discriminate].
  destruct (m2 !! r) as [r2|]; [|discriminate]. simpl.
  intros H1 H2. rewrite lookup_zip_with, H1, H2. reflexivity.
Qed.

Lemma pixel_at_average2 (d1 d2 : list (list (list Qc))) (t r c : nat) (a b : Qc) :
  pixel_at d1 t r c = Some a -> pixel_at d2 t r c = Some b ->
  pixel_at (zip_with average2 d1 d2) t r c = Some ((a + b) / 2)%Qc.
Proof.
  unfold pixel_at. rewrite lookup_zip_with.
  destruct (d1 !! t) as [m1|]; [|discriminate].
  destruct (d2 !! t) as [m2|]; [|discriminate]. simpl.
  apply at2_average2.
Qed.

Lemma this_two : (this 2%Qc == 2)%Q.
Proof. reflexivity. Qed.

(** The mean of two values lies between them. *)
Lemma mean_between (a b : Qc) :
  (Qcmin a b <= (a + b) / 2)%Qc /\ ((a + b) / 2 <= Qcmax a b)%Qc.
Proof.
  assert (Hm : (this ((a + b) / 2)%Qc == (this a + this b) * (1 # 2))%Q).
  { rewrite this_div, this_plus, this_two. reflexivity. }
  unfold Qcmin, Qcmax. destruct (Qcleb a b) eqn:H.
  - apply Qcleb_le in H. unfold Qcle in *. rewrite Hm. split; lra.
  - apply Qcleb_gt in H. unfold Qcle in *. rewrite Hm. split; lra.
Qed.

Lemma run_rbind {A B : Type} (r : result A) (f : A -> result B) :
  (r ≫= f) = match r with Ok a => f a | Raise e => Raise e end.
Proof. reflexivity. Qed.

(** C7. When the engine answers both passes with one map per frame, each
    of its frame's rows and columns, the augmented sequence has the frames
    and the dimensions of the plain one, and every pixel of it is the mean
    of the first-pass value and the mirrored-back second-pass value, hence
    between the smaller and the larger of the two. *)
Theorem tta_keeps_shape_and_averages (E : env) (frames frames_array : list frame)
    (actual_target_fps : Qc) (input_size : Z) (DEVICE : string) (fp32 : bool)
    (d1 d2 : depth_seq) (f1 f2 : Qc) :
  np_stack frames = Ok frames_array ->
  infer_video_depth E frames_array actual_target_fps input_size DEVICE fp32 = Ok (d1, f1) ->
  infer_video_depth E (map np_flip_axis1 frames) actual_target_fps input_size DEVICE fp32
  = Ok (d2, f2) ->
  map dims d1 = map dims frames ->
  map dims d2 = map dims (map np_flip_axis1 frames) ->
  exists d_tta : depth_seq,
    infer_depths E true frames frames_array actual_target_fps input_size DEVICE fp32
    = Ok (d_tta, f1) /\
    infer_depths E false frames frames_array actual_target_fps input_size DEVICE fp32
    = Ok (d1, f1) /\
    length d_tta = length d1 /\
    map dims d_tta = map dims d1 /\
    forall (t r c : nat) (a b : Qc),
      pixel_at d1 t r c = Some a ->
      pixel_at (map np_flip_axis1 d2) t r c = Some b ->
      pixel_at d_tta t r c = Some ((a + b) / 2)%Qc /\
      (Qcmin a b <= (a + b) / 2)%Qc /\ ((a + b) / 2 <= Qcmax a b)%Qc.
Proof.
  intros Hstack H1 H2 Hd1 Hd2.
  pose proof (np_stack_ok _ _ Hstack) as ->.
  assert (Hback : map dims (map np_flip_axis1 d2) = map dims d1).
  { rewrite map_dims_flip, Hd2, map_dims_flip, Hd1. reflexivity. }
  assert (Hlist : map dims (zip_with average2 d1 (map np_flip_axis1 d2)) = map dims d1).
  { apply map_dims_average2. symmetry. exact Hback. }
  assert (Hflipped : np_stack (map np_flip_axis1 frames) = Ok (map np_flip_axis1 frames)).
  { eapply np_stack_by_shapes; [|exact Hstack]. apply dims_shape.
    symmetry. apply map_dims_flip. }
  assert (Hstacked : np_stack (zip_with average2 d1 (map np_flip_axis1 d2))
                     = Ok (zip_with average2 d1 (map np_flip_axis1 d2))).
  { eapply np_stack_by_shapes; [|exact Hstack]. apply dims_shape.
    rewrite Hlist, Hd1. reflexivity. }
  exists (zip_with average2 d1 (map np_flip_axis1 d2)).
  split; [|split; [|split; [|split]]].
  - unfold infer_depths. rewrite H1, run_rbind. cbv beta iota.
    rewrite Hflipped, run_rbind, H2, run_rbind. cbv beta iota zeta.
    rewrite Hstacked. reflexivity.
  - unfold infer_depths. exact H1.
  - rewrite <- (length_map dims), Hlist. apply length_map.
  - exact Hlist.
  - intros t r c a b Ha Hb. split; [|apply mean_between].
    apply pixel_at_average2; assumption.
Qed.

Lemma tta_keeps_shape_and_averages_witness :
  exists d_tta : depth_seq,
    infer_depths calm_env true [sample_frame] [sample_frame] (Qc_of_Z 24) 518 "cpu" false
    = Ok (d_tta, Qc_of_Z 24) /\
    infer_depths calm_env false [sample_frame] [sample_frame] (Qc_of_Z 24) 518 "cpu" false
    = Ok (red_depth [sample_frame], Qc_of_Z 24) /\
    length d_tta = length (red_depth [sample_frame]) /\
    map dims d_tta = map dims (red_depth [sample_frame]) /\
    forall (t r c : nat) (a b : Qc),
      pixel_at (red_depth [sample_frame]) t r c = Some a ->
      pixel_at (map np_flip_axis1 (red_depth (map np_flip_axis1 [sample_frame]))) t r c
      = Some b ->
      pixel_at d_tta t r c = Some ((a + b) / 2)%Qc /\
      (Qcmin a b <= (a + b) / 2)%Qc /\ ((a + b) / 2 <= Qcmax a b)%Qc.
Proof.
  exact (tta_keeps_shape_and_averages calm_env [sample_frame] [sample_frame] (Qc_of_Z 24)
           518 "cpu" false (red_depth [sample_frame])
           (red_depth (map np_flip_axis1 [sample_frame])) (Qc_of_Z 24) (Qc_of_Z 24)
           eq_refl eq_refl eq_refl eq_refl eq_refl).
Defined.

(** ** Runs that end without a terminal message *)

(** C4, at runs that end on a configuration error: a path that names
    nothing, a folder without videos, a missing checkpoint.  Each run puts
    its error message on the queue and returns; no done message is ever
    put. *)
Theorem configuration_errors_send_no_done :
  run (process_videos_threaded no_such_path_env folder_values) initial_state
  = (Ok tt,
     mkState [(ERROR, VStr "Input path must be a valid file or directory: /videos")]
             [] [] []) /\
  run (process_videos_threaded empty_folder_env folder_values) initial_state
  = (Ok tt, mkState [(ERROR, VStr "No video files found in the input folder")] [] [] []) /\
  run (process_videos_threaded no_checkpoint_env one_file_values) initial_state
  = (Ok tt,
     mkState [(STATUS_UPDATE, VStr "Loading model...");
              (ERROR, VStr "Checkpoint file for vitl not found in ./checkpoints/")]
             [] [] []) /\
  messages THREAD_DONE
    (update_queue (snd (run (process_videos_threaded no_such_path_env folder_values)
                          initial_state))) = [] /\
  messages THREAD_DONE
    (update_queue (snd (run (process_videos_threaded empty_folder_env folder_values)
                          initial_state))) = [] /\
  messages THREAD_DONE
    (update_queue (snd (run (process_videos_threaded no_checkpoint_env one_file_values)
                          initial_state))) = [].
Proof. repeat split; vm_compute; reflexivity. Qed.

(** ** Exceptions that leave the worker *)

(** C2, at a run whose output directory cannot be created and at a run
    whose decoder returns no frame: the exception of [os.makedirs], and
    that of [np.stack], leaves [process_videos_threaded]; the queue holds
    neither an error message nor a progress or done message for it. *)
Theorem unguarded_statements_escape :
  fst (run (process_videos_threaded no_output_dir_env one_file_values) initial_state)
  = Raise (Exception "[Errno 13] Permission denied: '/out'") /\
  update_queue (snd (run (process_videos_threaded no_output_dir_env one_file_values)
                       initial_state))
  = [(STATUS_UPDATE, VStr "Loading model...");
     (SET_MAX, VInt 1);
     (STATUS_UPDATE, VStr "Processing file 1 of 1: a.mp4")] /\
  fst (run (process_videos_threaded no_frames_env one_file_values) initial_state)
  = Raise (ValueError "need at least one array to stack") /\
  update_queue (snd (run (process_videos_threaded no_frames_env one_file_values)
                       initial_state))
  = [(STATUS_UPDATE, VStr "Loading model...");
     (SET_MAX, VInt 1);
     (STATUS_UPDATE, VStr "Processing file 1 of 1: a.mp4")].
Proof. repeat split; vm_compute; reflexivity. Qed.

(** ** Rules for the runs of the output writer *)

Section Rules.

Variable E : env.
Variable R : list depth_seq -> list depth_seq -> Prop.
Hypothesis R_refl : forall h, R h h.
Hypothesis R_trans : forall h1 h2 h3, R h1 h2 -> R h2 h3 -> R h1 h3.

Lemma Forall_removelast {A : Type} (P : A -> Prop) (l : list A) :
  Forall P l -> Forall P (removelast l).
Proof.
  induction 1 as [|x l Hx Hl IH]; simpl; [constructor|].
  destruct l; [constructor|]. constructor; assumption.
Qed.

Lemma Forall_removelast_app {A : Type} (P : A -> Prop) (l1 l2 : list A) :
  Forall P l1 -> Forall P (removelast l2) -> Forall P (removelast (l1 ++ l2)).
Proof.
  intros H1 H2. destruct l2 as [|x l2].
  - rewrite app_nil_r. apply Forall_removelast, H1.
  - rewrite removelast_app by discriminate. apply Forall_app. split; assumption.
Qed.

Lemma tidy_ret {A : Type} (P : action -> Prop) (a : A) (s : state) : tidy_at E R P (ret a) s.
Proof.
  split; [reflexivity|]. split; [apply R_refl|].
  exists []. rewrite app_nil_r.
  split; [reflexivity|]. split; [constructor|]. split; [constructor|].
  split; [intros; constructor|]. intros e _. left. constructor.
Qed.

Lemma tidy_lift {A : Type} (P : action -> Prop) (r : result A) (s : state) :
  tidy_at E R P (lift r) s.
Proof.
  split; [reflexivity|]. split; [apply R_refl|].
  exists []. rewrite app_nil_r.
  split; [reflexivity|]. split; [constructor|]. split; [constructor|].
  split; [intros; constructor|]. intros e _. left. constructor.
Qed.

Lemma tidy_dir_made (P : action -> Prop) (p : string) (s : state) :
  tidy_at E R P (dir_made p) s.
Proof.
  split; [reflexivity|]. split; [apply R_refl|].
  exists []. simpl. rewrite app_nil_r.
  split; [reflexivity|]. split; [constructor|]. split; [constructor|].
  split; [intros; constructor|]. intros e _. left. constructor.
Qed.

Lemma tidy_call (P : action -> Prop) (a : action) (s : state) :
  P a -> tidy_at E R P (call E a) s.
Proof.
  intros Ha. split; [reflexivity|]. split; [apply R_refl|].
  exists [a]. simpl. repeat split.
  - constructor; [exact Ha | constructor].
  - constructor.
  - intros []. unfold ok_call. destruct (ext_raises E a) eqn:H; [discriminate|].
    intros _. constructor; [exact H | constructor].
  - intros e. destruct (ext_raises E a) eqn:H; [|discriminate].
    intros [= ->]. right. exists [], a. split; [reflexivity | exact H].
Qed.

Lemma tidy_bind {A B : Type} (P : action -> Prop) (m : M A) (f : A -> M B) (s : state) :
  tidy_at E R P m s ->
  (forall a : A, fst (m s) = Ok a -> tidy_at E R P (f a) (snd (m s))) ->
  tidy_at E R P (m ≫= f) s.
Proof.
  intros (Hq & Hh & l1 & Hc & HP & Hrl & Hok & Hex) Hf. unfold tidy_at.
  rewrite run_bind. destruct (m s) as [[a|e] s1] eqn:Hm; simpl in *.
  - destruct (Hf a eq_refl) as (Hq2 & Hh2 & l2 & Hc2 & HP2 & Hrl2 & Hok2 & Hex2).
    split; [congruence|]. split; [eapply R_trans; eassumption|].
    exists (l1 ++ l2). rewrite Hc2, Hc, app_assoc. repeat split.
    + apply Forall_app. split; assumption.
    + apply Forall_removelast_app; [apply (Hok a eq_refl) | exact Hrl2].
    + intros b Hb. apply Forall_app. split; [apply (Hok a eq_refl) | apply (Hok2 b Hb)].
    + intros e He. destruct (Hex2 e He) as [Hall | (pre & x & -> & Hx)].
      * left. apply Forall_app. split; [apply (Hok a eq_refl) | exact Hall].
      * right. exists (l1 ++ pre), x. rewrite app_assoc. split; [reflexivity | exact Hx].
  - split; [exact Hq|]. split; [exact Hh|].
    exists l1. split; [exact Hc|]. split; [exact HP|]. split; [exact Hrl|].
    split; [intros b Hb; discriminate Hb|].
    intros e0 [= <-]. apply Hex. reflexivity.
Qed.

Lemma tidy_load_bind {B : Type} (P : action -> Prop) (l : loc) (f : depth_seq -> M B)
    (s : state) :
  tidy_at E R P (f (default [] (heap s !! l))) s -> tidy_at E R P (load l ≫= f) s.
Proof. intros H. exact H. Qed.

Lemma tidy_when (P : action -> Prop) (b : bool) (m : M unit) (s : state) :
  (b = true -> tidy_at E R P m s) -> tidy_at E R P (when b m) s.
Proof. destruct b; simpl; intros H; [apply H; reflexivity | apply tidy_ret]. Qed.

Lemma tidy_write_exr_frames (P : action -> Prop) (dir : string) (ds : depth_seq) :
  Forall (fun z => forall p w h, P (ExrWrite p w h z)) ds ->
  forall (j : nat) (s : state), tidy_at E R P (write_exr_frames E dir j ds) s.
Proof.
  induction 1 as [|z ds Hz Hds IH]; intros j s; simpl.
  - apply tidy_ret.
  - apply tidy_bind; [apply tidy_call, Hz|]. intros _ _. apply IH.
Qed.

Lemma tidy_write_png_frames (P : action -> Prop) (dir : string) (b16 : bool) (pc : Z)
    (d_min d_max : Qc) (ds : depth_seq) :
  Forall (fun z => forall p params, P (ImWrite p (png_image b16 d_min d_max z) params)) ds ->
  forall (j : nat) (s : state),
    tidy_at E R P (write_png_frames E dir b16 pc d_min d_max j ds) s.
Proof.
  induction 1 as [|z ds Hz Hds IH]; intros j s; simpl.
  - apply tidy_ret.
  - apply tidy_bind; [apply tidy_call, Hz|]. intros _ _. apply IH.
Qed.

End Rules.

(** The side conditions of the rules: the heap relation is a preorder. *)
Ltac heap_preorder :=
  first [ solve [intros; subst; reflexivity]
        | solve [intros; etransitivity; eassumption] ].

Ltac tidy_rule lem := apply lem; try heap_preorder.

Section RawOutputs.

Variable E : env.
Variable vals : values.
Variable file_path : string.
Variable depths : loc.


Lemma tidy_write_src_clip (H : list depth_seq -> list depth_seq -> Prop)
    (P : action -> Prop) (frames : list frame) (fps : Qc) (s : state) :
  (forall h, H h h) ->
  (forall fs p f c, P (SaveVideoFrames fs p f c)) ->
  tidy_at E H P (write_src_clip E vals file_path frames fps) s.
Proof.
  intros Hr HP. unfold write_src_clip. apply tidy_when; [exact Hr|]. intros _.
  apply tidy_call; [exact Hr | apply HP].
Qed.

Lemma tidy_write_npz (s : state) :
  tidy_at E eq (raw_from vals (bound_to depths s)) (write_npz E vals file_path depths) s.
Proof.
  unfold write_npz. tidy_rule tidy_when. intros _.
  tidy_rule tidy_call; reflexivity.
Qed.

Lemma tidy_write_exr (s : state) :
  tidy_at E eq (raw_from vals (bound_to depths s)) (write_exr E vals file_path depths) s.
Proof.
  unfold write_exr. tidy_rule tidy_when. intros _.
  tidy_rule tidy_bind; [tidy_rule tidy_call; exact I|]. intros _ _.
  tidy_rule tidy_bind; [tidy_rule tidy_dir_made|]. intros _ _.
  tidy_rule tidy_bind; [tidy_rule tidy_call; exact I|]. intros _ _.
  tidy_rule (tidy_write_exr_frames E eq) .
  apply Forall_forall. intros z Hz p w h. simpl. apply list_elem_of_In, Hz.
Qed.

Lemma tidy_write_png (s : state) :
  tidy_at E eq (raw_from vals (bound_to depths s)) (write_png E vals file_path depths) s.
Proof.
  unfold write_png. tidy_rule tidy_when. intros _.
  tidy_rule tidy_bind; [tidy_rule tidy_call; exact I|]. intros _ _.
  tidy_rule tidy_bind; [tidy_rule tidy_dir_made|]. intros _ _.
  apply tidy_load_bind. simpl heap. fold (bound_to depths s).
  tidy_rule tidy_bind; [tidy_rule tidy_lift|]. intros d_min Hmin.
  tidy_rule tidy_bind; [tidy_rule tidy_lift|]. intros d_max Hmax.
  tidy_rule tidy_write_png_frames.
  apply Forall_forall. intros z Hz p params. simpl.
  exists z, d_min, d_max. repeat split; try assumption. apply list_elem_of_In, Hz.
Qed.

Lemma tidy_write_raw_outputs (s : state) :
  tidy_at E eq (raw_from vals (bound_to depths s)) (write_raw_outputs E vals file_path depths) s.
Proof.
  unfold write_raw_outputs.
  tidy_rule tidy_bind; [apply tidy_write_npz|]. intros _ _.
  destruct (tidy_write_npz s) as (_ & Hh1 & _).
  tidy_rule tidy_bind.
  { replace (bound_to depths s) with (bound_to depths (snd (write_npz E vals file_path depths s)))
      by (unfold bound_to; rewrite <- Hh1; reflexivity).
    apply tidy_write_exr. }
  intros _ _.
  destruct (tidy_write_exr (snd (write_npz E vals file_path depths s))) as (_ & Hh2 & _).
  replace (bound_to depths s)
    with (bound_to depths (snd (write_exr E vals file_path depths
                        (snd (write_npz E vals file_path depths s)))))
    by (unfold bound_to; rewrite <- Hh2, <- Hh1; reflexivity).
  apply tidy_write_png.
Qed.

End RawOutputs.

Section DepthVideo.

Variable E : env.
Variable vals : values.
Variable file_path : string.
Variable depths : loc.
Variable fps : Qc.

Lemma insert_snoc {A : Type} (l : list A) (x y : A) : <[length l := y]> (l ++ [x]) = l ++ [y].
Proof.
  rewrite insert_app_r_alt by lia. rewrite Nat.sub_diag. reflexivity.
Qed.

Lemma run_save_video_depths_last (d : depth_seq) (path : string) (g : bool) (crf : Z)
    (s : state) (h : list depth_seq) :
  heap s = h ++ [d] ->
  save_video_depths E (length h) path fps g crf s
  = (match ext_raises E (SaveVideoDepths d path fps g crf) with
     | Some e => Raise e
     | None => Ok tt
     end,
     mkState (update_queue s) (calls s ++ [SaveVideoDepths d path fps g crf]) (made_dirs s)
             (h ++ [save_video_leaves E d])).
Proof.
  intros Hh. unfold save_video_depths. rewrite run_bind. unfold load. rewrite Hh, lookup_snoc.
  simpl. rewrite run_bind. unfold store. simpl. rewrite Hh, insert_snoc. reflexivity.
Qed.

Lemma run_write_depth_video_plain (s : state) :
  INVERT_METRIC vals = false ->
  let d := default [] (heap s !! depths) in
  let a := SaveVideoDepths d (depth_vis_path vals file_path) fps (negb (SAVE_COLOR vals))
             (MP4_CRF vals) in
  write_depth_video E vals file_path depths fps s
  = (match ext_raises E a with Some e => Raise e | None => Ok tt end,
     mkState (update_queue s) (calls s ++ [a]) (made_dirs s)
             (heap s ++ [save_video_leaves E d])).
Proof.
  intros Hinv d a. unfold write_depth_video. rewrite Hinv.
  unfold np_copy. rewrite !run_bind. unfold load, alloc. simpl.
  rewrite run_bind. unfold ret at 1.
  rewrite (run_save_video_depths_last d _ _ _ _ (heap s)) by reflexivity.
  reflexivity.
Qed.

Lemma run_write_depth_video_inverted (s : state) (hi : Qc) :
  INVERT_METRIC vals = true ->
  let d := default [] (heap s !! depths) in
  np_max d = Ok hi ->
  let a := SaveVideoDepths (scalar_minus (np_subtract E) hi d) (depth_vis_path vals file_path) fps
             (negb (SAVE_COLOR vals)) (MP4_CRF vals) in
  write_depth_video E vals file_path depths fps s
  = (match ext_raises E a with Some e => Raise e | None => Ok tt end,
     mkState (update_queue s) (calls s ++ [a]) (made_dirs s)
             (heap s ++ [d; save_video_leaves E (scalar_minus (np_subtract E) hi d)])).
Proof.
  intros Hinv d Hhi a. unfold write_depth_video. rewrite Hinv.
  unfold np_copy. rewrite !run_bind. unfold load at 1, alloc at 1. simpl.
  rewrite run_bind.
  rewrite (run_max_minus E (length (heap s)) d hi) by (try apply lookup_snoc; exact Hhi).
  simpl.
  rewrite (run_save_video_depths_last (scalar_minus (np_subtract E) hi d) _ _ _ _ (heap s ++ [d]))
    by reflexivity.
  simpl. rewrite <- !app_assoc. reflexivity.
Qed.

Lemma run_write_depth_video_empty (s : state) (e : exn) :
  INVERT_METRIC vals = true ->
  np_max (default [] (heap s !! depths)) = Raise e ->
  write_depth_video E vals file_path depths fps s
  = (Raise e,
     mkState (update_queue s) (calls s) (made_dirs s)
             (heap s ++ [default [] (heap s !! depths)])).
Proof.
  intros Hinv Hhi. unfold write_depth_video. rewrite Hinv.
  unfold np_copy. rewrite !run_bind. unfold load at 1, alloc at 1. simpl.
  rewrite run_bind. unfold max_minus. rewrite run_bind. unfold load. simpl.
  rewrite lookup_snoc. simpl. rewrite run_bind. unfold lift. rewrite Hhi. reflexivity.
Qed.

End DepthVideo.

Section Outputs.

Variable E : env.
Variable vals : values.
Variable file_path : string.
Variable frames : list frame.
Variable depths : loc.
Variable fps : Qc.

Lemma tidy_weaken {A : Type} (R R' : list depth_seq -> list depth_seq -> Prop)
    (P P' : action -> Prop) (m : M A) (s : state) :
  (forall h1 h2, R h1 h2 -> R' h1 h2) -> (forall a, P a -> P' a) ->
  tidy_at E R P m s -> tidy_at E R' P' m s.
Proof.
  intros HR HP (Hq & Hh & l & Hc & Hl & Hrl & Hok & Hex).
  split; [exact Hq|]. split; [apply HR, Hh|].
  exists l. split; [exact Hc|]. split; [eapply Forall_impl; [exact Hl | exact HP]|].
  split; [exact Hrl|]. split; [exact Hok | exact Hex].
Qed.

Lemma tidy_write_depth_video (P : action -> Prop) (s : state) :
  (forall d p f g c, P (SaveVideoDepths d p f g c)) ->
  tidy_at E prefix P (write_depth_video E vals file_path depths fps) s.
Proof.
  intros HP. unfold tidy_at.
  destruct (INVERT_METRIC vals) eqn:Hinv.
  - destruct (np_max (default [] (heap s !! depths))) as [hi|e] eqn:Hmax.
    + rewrite (run_write_depth_video_inverted E vals file_path depths fps s hi Hinv Hmax).
      simpl. split; [reflexivity|]. split; [eexists; reflexivity|].
      eexists [_]. split; [reflexivity|]. repeat split.
      * constructor; [apply HP | constructor].
      * constructor.
      * intros []. destruct (ext_raises E _) eqn:Hx; [discriminate|].
        intros _. constructor; [exact Hx | constructor].
      * intros e. destruct (ext_raises E _) eqn:Hx; [|discriminate].
        intros [= ->]. right. eexists [], _. split; [reflexivity | exact Hx].
    + rewrite (run_write_depth_video_empty E vals file_path depths fps s e Hinv Hmax).
      simpl. split; [reflexivity|]. split; [eexists; reflexivity|].
      exists []. rewrite app_nil_r.
      split; [reflexivity|]. split; [constructor|]. split; [constructor|].
      split; [intros; constructor|]. intros e' _. left. constructor.
  - rewrite (run_write_depth_video_plain E vals file_path depths fps s Hinv).
    simpl. split; [reflexivity|]. split; [eexists; reflexivity|].
    eexists [_]. split; [reflexivity|]. repeat split.
    * constructor; [apply HP | constructor].
    * constructor.
    * intros []. destruct (ext_raises E _) eqn:Hx; [discriminate|].
      intros _. constructor; [exact Hx | constructor].
    * intros e. destruct (ext_raises E _) eqn:Hx; [|discriminate].
      intros [= ->]. right. eexists [], _. split; [reflexivity | exact Hx].
Qed.

Lemma prefix_lookup (h1 h2 : list depth_seq) (d : depth_seq) :
  h1 `prefix_of` h2 -> h1 !! depths = Some d -> h2 !! depths = Some d.
Proof. intros [k ->] H. apply lookup_app_l_Some, H. Qed.

Lemma tidy_write_data_outputs_gen (P : action -> Prop) (s : state) :
  (forall a, is_raw a = false -> P a) ->
  (forall s2, heap s `prefix_of` heap s2 ->
     forall a, raw_from vals (default [] (heap s2 !! depths)) a -> P a) ->
  tidy_at E prefix P (write_data_outputs E vals file_path frames depths fps) s.
Proof.
  intros Hother Hraw. unfold write_data_outputs.
  tidy_rule tidy_bind.
  { apply tidy_write_src_clip; [reflexivity | intros; apply Hother; reflexivity]. }
  intros _ _.
  destruct (tidy_write_src_clip E vals file_path prefix (fun _ => True) frames fps s)
    as (_ & Hh1 & _); [reflexivity | intros; exact I |].
  set (s1 := snd (write_src_clip E vals file_path frames fps s)) in *.
  tidy_rule tidy_bind.
  { apply tidy_write_depth_video. intros; apply Hother; reflexivity. }
  intros _ _.
  destruct (tidy_write_depth_video (fun _ => True) s1) as (_ & Hh2 & _); [intros; exact I|].
  set (s2 := snd (write_depth_video E vals file_path depths fps s1)) in *.
  eapply tidy_weaken; [| |apply tidy_write_raw_outputs].
  - intros h1 h2 ->. reflexivity.
  - apply Hraw. etransitivity; eassumption.
Qed.

(** The data outputs: every raw call carries data of the array bound to
    [depths], which stays as it is. *)
Lemma tidy_write_data_outputs (d : depth_seq) (s : state) :
  heap s !! depths = Some d ->
  tidy_at E prefix (raw_from vals d)
    (write_data_outputs E vals file_path frames depths fps) s.
Proof.
  intros Hd. apply tidy_write_data_outputs_gen.
  - intros [] Ha; try discriminate Ha; exact I.
  - intros s2 Hpre a. rewrite (prefix_lookup _ _ d Hpre Hd). simpl. tauto.
Qed.

Lemma write_outputs_split (s : state) :
  write_outputs E vals file_path frames depths fps s
  = (write_data_outputs E vals file_path frames depths fps;;
     move_to_finished E vals file_path) s.
Proof.
  unfold write_outputs, write_data_outputs. rewrite !run_bind.
  destruct (write_src_clip E vals file_path frames fps s) as [[[]|e] s1]; [|reflexivity].
  rewrite !run_bind.
  destruct (write_depth_video E vals file_path depths fps s1) as [[[]|e] s2]; [|reflexivity].
  rewrite !run_bind. reflexivity.
Qed.

(** The move: the queue gains a message only when [shutil.move] itself
    raises, and that exception stays inside. *)
Lemma move_to_finished_spec (s : state) :
  let r := move_to_finished E vals file_path s in
  heap (snd r) = heap s /\
  exists (l : list action) (q : list event),
    calls (snd r) = calls s ++ l /\
    update_queue (snd r) = update_queue s ++ q /\
    Forall (fun a => is_raw a = false) l /\
    ((fst r = Ok tt /\ q = [] /\ Forall (ok_call E) l) \/
     exists (pre : list action) (a : action) (e : exn),
       l = pre ++ [a] /\ Forall (ok_call E) pre /\ ext_raises E a = Some e /\
       ((fst r = Ok tt /\ q = [move_error file_path e]) \/ (fst r = Raise e /\ q = []))).
Proof.
  assert (Hnr : forall l : list action,
             forallb (fun a => negb (is_raw a)) l = true ->
             Forall (fun a => is_raw a = false) l).
  { intros l Hl. apply Forall_forall. intros a Ha.
    rewrite forallb_forall in Hl. apply list_elem_of_In in Ha.
    apply negb_true_iff, Hl, Ha. }
  unfold move_to_finished. destruct (RESUME vals); simpl.
  2:{ split; [reflexivity|]. exists [], []. rewrite !app_nil_r.
      split; [reflexivity|]. split; [reflexivity|]. split; [constructor|].
      left. split; [reflexivity|]. split; [reflexivity | constructor]. }
  rewrite run_bind. unfold path_exists. simpl.
  set (fd := path_join (dirname file_path) "finished").
  set (mv := Move file_path (path_join fd (basename file_path))).
  destruct (os_path_exists E fd || bool_decide (fd ∈ made_dirs s)); simpl.
  - rewrite run_bind. unfold ret at 1. rewrite run_try_except. unfold call.
    destruct (ext_raises E mv) as [e|] eqn:Hmv; simpl; rewrite ?Hmv; simpl.
    + split; [reflexivity|]. exists [mv], [move_error file_path e].
      split; [reflexivity|]. split; [reflexivity|]. split; [apply Hnr; reflexivity|].
      right. exists [], mv, e.
      split; [reflexivity|]. split; [constructor|]. split; [exact Hmv|].
      left. split; reflexivity.
    + split; [reflexivity|]. exists [mv], []. rewrite app_nil_r.
      split; [reflexivity|]. split; [reflexivity|]. split; [apply Hnr; reflexivity|].
      left. split; [reflexivity|]. split; [reflexivity|].
      constructor; [exact Hmv | constructor].
  - rewrite run_bind. unfold os_makedirs. rewrite run_bind. unfold call at 1.
    destruct (ext_raises E (Makedirs fd)) as [e|] eqn:Hmk; simpl; rewrite ?Hmk; simpl.
    + split; [reflexivity|]. exists [Makedirs fd], []. rewrite app_nil_r.
      split; [reflexivity|]. split; [reflexivity|]. split; [apply Hnr; reflexivity|].
      right. exists [], (Makedirs fd), e.
      split; [reflexivity|]. split; [constructor|]. split; [exact Hmk|].
      right. split; reflexivity.
    + rewrite run_try_except. unfold call.
      destruct (ext_raises E mv) as [e|] eqn:Hmv; simpl; rewrite ?Hmv; simpl.
      * split; [reflexivity|]. exists [Makedirs fd; mv], [move_error file_path e].
        rewrite <- app_assoc. simpl.
        split; [reflexivity|]. split; [reflexivity|]. split; [apply Hnr; reflexivity|].
        right. exists [Makedirs fd], mv, e.
        split; [reflexivity|]. split; [constructor; [exact Hmk | constructor]|].
        split; [exact Hmv|]. left. split; reflexivity.
      * split; [reflexivity|]. exists [Makedirs fd; mv], []. rewrite app_nil_r.
        rewrite <- app_assoc. simpl.
        split; [reflexivity|]. split; [reflexivity|]. split; [apply Hnr; reflexivity|].
        left. split; [reflexivity|]. split; [reflexivity|].
        constructor; [exact Hmk|]. constructor; [exact Hmv | constructor].
Qed.

(** The guarded block of lines 626-694: it never raises; it puts at most
    one message; when a call raises, that call is the last one made. *)
Lemma save_outputs_spec (P : action -> Prop) (s : state) :
  (forall a, is_raw a = false -> P a) ->
  (forall s2, heap s `prefix_of` heap s2 ->
     forall a, raw_from vals (default [] (heap s2 !! depths)) a -> P a) ->
  let r := save_outputs E vals file_path frames depths fps s in
  fst r = Ok tt /\
  heap s `prefix_of` heap (snd r) /\
  exists (l : list action) (q : list event),
    calls (snd r) = calls s ++ l /\
    update_queue (snd r) = update_queue s ++ q /\
    Forall P l /\
    ((Forall (ok_call E) l /\ (q = [] \/ exists e, q = [save_error file_path e])) \/
     exists (pre : list action) (a : action) (e : exn),
       l = pre ++ [a] /\ Forall (ok_call E) pre /\ ext_raises E a = Some e /\
       (q = [save_error file_path e] \/ q = [move_error file_path e])).
Proof.
  intros Hother Hraw.
  destruct (tidy_write_data_outputs_gen P s Hother Hraw)
    as (Hq1 & Hh1 & l1 & Hc1 & HP1 & Hrl1 & Hok1 & Hex1).
  unfold save_outputs. cbv zeta. rewrite run_try_except, write_outputs_split, run_bind.
  destruct (write_data_outputs E vals file_path frames depths fps s) as [[[]|e] s1];
    simpl in *.
  - specialize (Hok1 tt eq_refl).
    destruct (move_to_finished_spec s1) as (Hh2 & l2 & q2 & Hc2 & Hq2 & Hnr2 & Hcase).
    assert (HP2 : Forall P l2).
    { eapply Forall_impl; [exact Hnr2 | exact Hother]. }
    destruct (move_to_finished E vals file_path s1) as [r2 s2]; simpl in *.
    destruct Hcase as [(-> & -> & Hall2) | (pre & a & e & -> & Hpre & Ha & [[-> ->] | [-> ->]])];
      simpl.
    + split; [reflexivity|]. split; [rewrite Hh2; exact Hh1|].
      exists (l1 ++ l2), []. rewrite Hc2, Hc1, Hq2, Hq1, <- ?app_assoc.
      split; [reflexivity|]. split; [reflexivity|].
      split; [apply Forall_app; split; assumption|].
      left. split; [apply Forall_app; split; assumption | left; reflexivity].
    + split; [reflexivity|]. split; [rewrite Hh2; exact Hh1|].
      exists (l1 ++ pre ++ [a]), [move_error file_path e].
      rewrite Hc2, Hc1, Hq2, Hq1, <- ?app_assoc.
      split; [reflexivity|]. split; [reflexivity|].
      split; [apply Forall_app; split; assumption|].
      right. exists (l1 ++ pre), a, e. rewrite app_assoc.
      split; [reflexivity|]. split; [apply Forall_app; split; assumption|].
      split; [exact Ha | right; reflexivity].
    + split; [reflexivity|]. split; [rewrite Hh2; exact Hh1|].
      exists (l1 ++ pre ++ [a]), [save_error file_path e].
      rewrite Hc2, Hc1, Hq2, Hq1, app_nil_r, <- ?app_assoc.
      split; [reflexivity|]. split; [reflexivity|].
      split; [apply Forall_app; split; assumption|].
      right. exists (l1 ++ pre), a, e. rewrite app_assoc.
      split; [reflexivity|]. split; [apply Forall_app; split; assumption|].
      split; [exact Ha | left; reflexivity].
  - split; [reflexivity|]. split; [exact Hh1|].
    exists l1, [save_error file_path e]. rewrite Hc1, Hq1.
    split; [reflexivity|]. split; [reflexivity|]. split; [exact HP1|].
    destruct (Hex1 e eq_refl) as [Hall | (pre & a & -> & Ha)].
    + left. split; [exact Hall | right; exists e; reflexivity].
    + right. exists pre, a, e. rewrite removelast_last in Hrl1.
      split; [reflexivity|]. split; [exact Hrl1|]. split; [exact Ha | left; reflexivity].
Qed.

End Outputs.

(** ** A failure while writing the outputs *)

Lemma raising_call_is_last (E : env) (pre0 pre post : list action) (a0 a : action) (e : exn) :
  pre0 ++ [a0] = pre ++ a :: post ->
  Forall (ok_call E) pre0 ->
  ext_raises E a = Some e ->
  post = [] /\ a = a0.
Proof.
  intros Heq Hpre Ha. destruct post as [|b post].
  - apply app_inj_tail in Heq as [_ ->]. split; reflexivity.
  - exfalso. apply (f_equal (@removelast action)) in Heq.
    rewrite removelast_last in Heq.
    rewrite removelast_app in Heq by discriminate.
    rewrite Heq in Hpre. apply Forall_app in Hpre as [_ Hpre].
    change (removelast (a :: b :: post)) with (a :: removelast (b :: post)) in Hpre.
    apply Forall_cons in Hpre as [Hok _]. unfold ok_call in Hok. congruence.
Qed.

(** ** The plan that the output writer follows *)

Section Plan.

Variable E : env.
Variable vals : values.
Variable file_path : string.
Variable frames : list frame.
Variable depths : loc.
Variable d : depth_seq.
Variable fps : Qc.


Lemma calls_of_calls (l : list action) : calls_of (map Call l) = l.
Proof. induction l as [|a l IH]; simpl; [reflexivity|]. f_equal. exact IH. Qed.




















End Plan.




(** ** The raw outputs do not depend on the inversion *)

Section Respects.

Variable E : env.
Variable depths : loc.

Lemma raw_calls_app (l1 l2 : list action) :
  raw_calls (l1 ++ l2) = raw_calls l1 ++ raw_calls l2.
Proof. apply List.filter_app. Qed.

Lemma respects_ret {A : Type} (a : A) : respects depths (ret a).
Proof. intros s1 s2 H. split; [reflexivity | exact H]. Qed.

Lemma respects_lift {A : Type} (r : result A) : respects depths (lift r).
Proof. intros s1 s2 H. split; [reflexivity | exact H]. Qed.

Lemma respects_call (a : action) : respects depths (call E a).
Proof.
  intros s1 s2 (Hq & Hm & Hh & Hc). split; [reflexivity|].
  repeat split; simpl; try assumption.
  rewrite !raw_calls_app, Hc. reflexivity.
Qed.

Lemma respects_load : respects depths (load depths).
Proof.
  intros s1 s2 (Hq & Hm & Hh & Hc). split.
  - simpl. rewrite Hh. reflexivity.
  - repeat split; assumption.
Qed.

Lemma respects_dir_made (p : string) : respects depths (dir_made p).
Proof.
  intros s1 s2 (Hq & Hm & Hh & Hc). split; [reflexivity|].
  repeat split; simpl; try assumption. rewrite Hm. reflexivity.
Qed.

Lemma respects_path_exists (p : string) : respects depths (path_exists E p).
Proof.
  intros s1 s2 (Hq & Hm & Hh & Hc). split.
  - simpl. rewrite Hm. reflexivity.
  - repeat split; assumption.
Qed.

Lemma respects_write_event_value (k : key) (v : value) :
  respects depths (write_event_value k v).
Proof.
  intros s1 s2 (Hq & Hm & Hh & Hc). split; [reflexivity|].
  repeat split; simpl; try assumption. rewrite Hq. reflexivity.
Qed.

Lemma respects_bind {A B : Type} (m : M A) (f : A -> M B) :
  respects depths m -> (forall a, respects depths (f a)) -> respects depths (m ≫= f).
Proof.
  intros Hm Hf s1 s2 H. rewrite !run_bind.
  destruct (Hm s1 s2 H) as [Hr Hs].
  destruct (m s1) as [[a|e] t1], (m s2) as [[a'|e'] t2]; simpl in *; try discriminate.
  - injection Hr as <-. apply Hf, Hs.
  - injection Hr as <-. split; [reflexivity | exact Hs].
Qed.

Lemma respects_try_except (m : M unit) (h : exn -> M unit) :
  respects depths m -> (forall e, respects depths (h e)) -> respects depths (try_except m h).
Proof.
  intros Hm Hh s1 s2 H. rewrite !run_try_except.
  destruct (Hm s1 s2 H) as [Hr Hs].
  destruct (m s1) as [[[]|e] t1], (m s2) as [[[]|e'] t2]; simpl in *; try discriminate.
  - split; [reflexivity | exact Hs].
  - injection Hr as <-. apply Hh, Hs.
Qed.

Lemma respects_when (b : bool) (m : M unit) :
  respects depths m -> respects depths (when b m).
Proof. destruct b; simpl; [tauto | intros _; apply respects_ret]. Qed.

Lemma respects_write_exr_frames (dir : string) (ds : depth_seq) (j : nat) :
  respects depths (write_exr_frames E dir j ds).
Proof.
  revert j. induction ds as [|z ds IH]; intros j; simpl.
  - apply respects_ret.
  - apply respects_bind; [apply respects_call | intros _; apply IH].
Qed.

Lemma respects_write_png_frames (dir : string) (b16 : bool) (pc : Z) (d_min d_max : Qc)
    (ds : depth_seq) (j : nat) :
  respects depths (write_png_frames E dir b16 pc d_min d_max j ds).
Proof.
  revert j. induction ds as [|z ds IH]; intros j; simpl.
  - apply respects_ret.
  - apply respects_bind; [apply respects_call | intros _; apply IH].
Qed.

Create HintDb respects_db.

Hint Resolve respects_ret respects_lift respects_call respects_load respects_dir_made
  respects_path_exists respects_write_event_value respects_write_exr_frames
  respects_write_png_frames : respects_db.

Ltac respects_steps :=
  repeat first
    [ apply respects_when
    | apply respects_try_except
    | apply respects_bind
    | match goal with |- forall _, _ => intro end
    | solve [auto with respects_db] ].

Lemma respects_write_raw_outputs (vals : values) (file_path : string) :
  respects depths (write_raw_outputs E vals file_path depths).
Proof.
  unfold write_raw_outputs, write_npz, write_exr, write_png. respects_steps.
Qed.

Lemma respects_move_to_finished (vals : values) (file_path : string) :
  respects depths (move_to_finished E vals file_path).
Proof.
  unfold move_to_finished, os_makedirs. respects_steps.
Qed.

End Respects.

Section Inversion.

Variable E : env.
Variable vals : values.
Variable file_path : string.
Variable frames : list frame.
Variable depths : loc.
Variable fps : Qc.

Lemma respects_after_depth_video (r : result unit) :
  respects depths (after_depth_video E vals file_path depths r).
Proof.
  destruct r as [[]|e]; simpl.
  - apply respects_try_except.
    + apply respects_bind; [apply respects_write_raw_outputs|].
      intros _. apply respects_move_to_finished.
    + intros e. apply respects_write_event_value.
  - apply respects_write_event_value.
Qed.

Lemma save_outputs_after_video (b : bool) (s s1 : state) :
  write_src_clip E vals file_path frames fps s = (Ok tt, s1) ->
  save_outputs E (set_invert b vals) file_path frames depths fps s
  = after_depth_video E vals file_path depths
      (fst (write_depth_video E (set_invert b vals) file_path depths fps s1))
      (snd (write_depth_video E (set_invert b vals) file_path depths fps s1)).
Proof.
  intros Hsrc. unfold save_outputs, write_outputs. rewrite run_try_except, run_bind.
  change (write_src_clip E (set_invert b vals) file_path frames fps s)
    with (write_src_clip E vals file_path frames fps s).
  rewrite Hsrc, run_bind.
  destruct (write_depth_video E (set_invert b vals) file_path depths fps s1)
    as [[[]|e] s2]; simpl.
  - rewrite run_try_except. reflexivity.
  - reflexivity.
Qed.

Lemma save_outputs_src_raises (b : bool) (s s1 : state) (e : exn) :
  write_src_clip E vals file_path frames fps s = (Raise e, s1) ->
  save_outputs E (set_invert b vals) file_path frames depths fps s
  = write_event_value (fst (save_error file_path e)) (snd (save_error file_path e)) s1.
Proof.
  intros Hsrc. unfold save_outputs, write_outputs. rewrite run_try_except, run_bind.
  change (write_src_clip E (set_invert b vals) file_path frames fps s)
    with (write_src_clip E vals file_path frames fps s).
  rewrite Hsrc. reflexivity.
Qed.

(** The two runs are alike once the depth video is written. *)
Lemma depth_video_alike (s1 : state) (d : depth_seq) (hi : Qc) :
  heap s1 !! depths = Some d ->
  np_max d = Ok hi ->
  ext_raises E (SaveVideoDepths (scalar_minus (np_subtract E) hi d) (depth_vis_path vals file_path) fps
                  (negb (SAVE_COLOR vals)) (MP4_CRF vals))
  = ext_raises E (SaveVideoDepths d (depth_vis_path vals file_path) fps
                    (negb (SAVE_COLOR vals)) (MP4_CRF vals)) ->
  fst (write_depth_video E (set_invert true vals) file_path depths fps s1)
  = fst (write_depth_video E (set_invert false vals) file_path depths fps s1) /\
  alike depths (snd (write_depth_video E (set_invert true vals) file_path depths fps s1))
               (snd (write_depth_video E (set_invert false vals) file_path depths fps s1)).
Proof.
  intros Hd Hhi Hsame.
  rewrite (run_write_depth_video_inverted E (set_invert true vals) file_path depths fps s1 hi)
    by (try reflexivity; rewrite Hd; exact Hhi).
  rewrite (run_write_depth_video_plain E (set_invert false vals) file_path depths fps s1)
    by reflexivity.
  rewrite Hd. simpl.
  change (depth_vis_path (set_invert true vals) file_path)
    with (depth_vis_path vals file_path).
  change (depth_vis_path (set_invert false vals) file_path)
    with (depth_vis_path vals file_path).
  rewrite Hsame. split; [reflexivity|].
  repeat split; simpl.
  - rewrite !lookup_app_l by (eapply lookup_lt_Some, Hd). reflexivity.
  - rewrite !raw_calls_app. reflexivity.
Qed.

End Inversion.

(** C6. Whatever the video writer does to the array it is handed, with
    the invert box set or not: the array bound to [depths] is the same
    after the outputs are written, every npz, EXR and PNG call carries data
    computed from it, and the raw calls made with the box set are those
    made with the box unset (the depth sequence has at least one value,
    and writing the video fails for the inverted data when it fails for
    the plain data). *)
Theorem raw_outputs_ignore_inversion (E : env) (vals : values) (file_path : string)
    (frames : list frame) (depths : loc) (fps : Qc) (s : state) (d : depth_seq) (hi : Qc) :
  heap s !! depths = Some d ->
  np_max d = Ok hi ->
  ext_raises E (SaveVideoDepths (scalar_minus (np_subtract E) hi d) (depth_vis_path vals file_path) fps
                  (negb (SAVE_COLOR vals)) (MP4_CRF vals))
  = ext_raises E (SaveVideoDepths d (depth_vis_path vals file_path) fps
                    (negb (SAVE_COLOR vals)) (MP4_CRF vals)) ->
  let after (b : bool) :=
    snd (run (save_outputs E (set_invert b vals) file_path frames depths fps) s) in
  raw_calls (calls (after true)) = raw_calls (calls (after false)) /\
  forall b : bool,
    heap (after b) !! depths = Some d /\
    exists l : list action,
      calls (after b) = calls s ++ l /\ Forall (raw_from vals d) l.
Proof.
  intros Hd Hhi Hsame after. subst after. unfold run. cbv beta. split.
  - destruct (write_src_clip E vals file_path frames fps s) as [[[]|e] s1] eqn:Hsrc.
    + rewrite !(save_outputs_after_video E vals file_path frames depths fps _ s s1 Hsrc).
      assert (Hd1 : heap s1 !! depths = Some d).
      { destruct (tidy_write_src_clip E vals file_path eq (fun _ => True) frames fps s)
          as (_ & Hh & _); [reflexivity | intros; exact I |].
        rewrite Hsrc in Hh. simpl in Hh. rewrite <- Hh. exact Hd. }
      destruct (depth_video_alike E vals file_path depths fps s1 d hi Hd1 Hhi Hsame)
        as [Hr Halike].
      rewrite Hr.
      destruct (respects_after_depth_video E vals file_path depths
                  (fst (write_depth_video E (set_invert false vals) file_path depths fps s1))
                  _ _ Halike) as [_ (_ & _ & _ & Hraw)].
      exact Hraw.
    + rewrite !(save_outputs_src_raises E vals file_path frames depths fps _ s s1 e Hsrc).
      reflexivity.
  - intros b.
    destruct (save_outputs_spec E (set_invert b vals) file_path frames depths fps
                (raw_from vals d) s) as (_ & Hh & l & q & Hc & _ & HP & _).
    + intros [] Ha; try discriminate Ha; exact I.
    + intros s2 Hpre a. rewrite (prefix_lookup depths _ _ d Hpre Hd). simpl. tauto.
    + split; [eapply prefix_lookup; eassumption|].
      exists l. split; assumption.
Qed.

Lemma raw_outputs_ignore_inversion_witness :
  let after (b : bool) :=
    snd (run (save_outputs scribbling_env (set_invert b one_file_values) "/videos/a.mp4"
                [sample_frame] 0%nat (Qc_of_Z 24))
             (mkState [] [] [] [ramp_depths])) in
  raw_calls (calls (after true)) = raw_calls (calls (after false)) /\
  forall b : bool,
    heap (after b) !! 0%nat = Some ramp_depths /\
    exists l : list action,
      calls (after b) = [] ++ l /\ Forall (raw_from one_file_values ramp_depths) l.
Proof.
  exact (raw_outputs_ignore_inversion scribbling_env one_file_values "/videos/a.mp4"
           [sample_frame] 0%nat (Qc_of_Z 24) (mkState [] [] [] [ramp_depths])
           ramp_depths (Qc_of_Z 10) eq_refl eq_refl eq_refl).
Defined.

(** ** The loop over the files *)

Section Loop.

Variable E : env.
Variable vals : values.
Variable input_size max_res : Z.
Variable DEVICE : string.
Variable total_files : nat.

Lemma process_file_read_raises (i : nat) (file_path : string) (e : exn) (s : state) :
  read_frames E vals max_res file_path = Raise e ->
  process_file E vals input_size max_res DEVICE total_files i file_path s
  = (Ok tt,
     mkState (update_queue s ++ [status_line i total_files file_path;
                                 read_error file_path e; progress i])
             (calls s) (made_dirs s) (heap s)).
Proof.
  intros Hread. unfold process_file. rewrite run_bind. simpl.
  rewrite run_bind. unfold attempt, lift. rewrite Hread. run_events.
  rewrite <- !app_assoc. reflexivity.
Qed.

(** What an iteration puts on the queue when the file decodes and
    nothing escapes: its status line, at most one error message, which is
    not a decoding error, and its progress message. *)
Lemma process_file_decodes (i : nat) (file_path : string) (s : state) :
  decodes E vals max_res file_path ->
  os_path_exists E (OUTPUT_DIR vals) = true \/ ext_raises E (Makedirs (OUTPUT_DIR vals)) = None ->
  let r := process_file E vals input_size max_res DEVICE total_files i file_path s in
  fst r = Ok tt /\
  exists q : list event,
    update_queue (snd r)
    = update_queue s ++ [status_line i total_files file_path] ++ q ++ [progress i] /\
    (q = [] \/ exists e, q = [inference_error file_path e] \/ q = [save_error file_path e]
                         \/ q = [move_error file_path e]).
Proof.
  intros (frames & fps & fa & Hread & Hstack) Hdir.
  unfold process_file. rewrite run_bind. simpl.
  rewrite run_bind. unfold attempt at 1, lift at 1. rewrite Hread. simpl.
  rewrite run_bind. unfold lift at 1. rewrite Hstack. simpl.
  rewrite run_bind. unfold attempt at 1, lift at 1.
  destruct (infer_depths E (TTA vals) frames fa fps input_size DEVICE (FP32 vals))
    as [[dv fps']|e]; simpl.
  2:{ run_events. split; [reflexivity|]. exists [inference_error file_path e].
      split; [rewrite <- !app_assoc; reflexivity|]. right. exists e. left. reflexivity. }
  rewrite run_bind. simpl. rewrite run_bind. unfold path_exists at 1. simpl.
  match goal with |- context [(_ ≫= _) ?st] => set (s0 := st) end.
  assert (Hs0 : update_queue s0 = update_queue s ++ [status_line i total_files file_path])
    by reflexivity.
  assert (Hmk : exists s1,
             when (negb (os_path_exists E (OUTPUT_DIR vals)
                        || bool_decide (OUTPUT_DIR vals ∈ made_dirs s)))
               (os_makedirs E (OUTPUT_DIR vals)) s0 = (Ok tt, s1) /\
             update_queue s1 = update_queue s0).
  { destruct (os_path_exists E (OUTPUT_DIR vals) || bool_decide (OUTPUT_DIR vals ∈ made_dirs s))
      eqn:Hthere; simpl.
    - eexists. split; reflexivity.
    - destruct Hdir as [Hex | Hok].
      + rewrite Hex in Hthere. discriminate Hthere.
      + unfold os_makedirs. rewrite run_bind. unfold call. rewrite Hok. simpl.
        eexists. split; reflexivity. }
  destruct Hmk as (s1 & Hs1 & Hq1).
  rewrite run_bind, Hs1, run_bind.
  destruct (save_outputs_spec E vals file_path frames (length (heap s)) fps' (fun _ => True) s1)
    as (Hr & _ & l & q & _ & Hq & _ & Hcase); [intros; exact I | intros; exact I |].
  destruct (save_outputs E vals file_path frames (length (heap s)) fps' s1) as [r2 s2].
  simpl in Hr, Hq. subst r2. run_events.
  split; [reflexivity|]. exists q. rewrite Hq, Hq1, Hs0.
  split; [rewrite <- !app_assoc; reflexivity|].
  destruct Hcase as [[_ [-> | [e ->]]] | (_ & _ & e & _ & _ & _ & [-> | ->])].
  - left. reflexivity.
  - right. exists e. right. left. reflexivity.
  - right. exists e. right. left. reflexivity.
  - right. exists e. right. right. reflexivity.
Qed.

Lemma messages_app (k : key) (q1 q2 : list event) :
  messages k (q1 ++ q2) = messages k q1 ++ messages k q2.
Proof. apply List.filter_app. Qed.

(** The messages of an iteration whose file decodes: one progress
    message, no decoding error. *)
Lemma iteration_messages (i : nat) (file_path : string) (q : list event) :
  (q = [] \/ exists e, q = [inference_error file_path e] \/ q = [save_error file_path e]
                       \/ q = [move_error file_path e]) ->
  messages PROGRESS_UPDATE ([status_line i total_files file_path] ++ q ++ [progress i])
  = [progress i] /\
  List.filter is_read_error ([status_line i total_files file_path] ++ q ++ [progress i]) = [].
Proof.
  intros [-> | [e [-> | [-> | ->]]]]; split; reflexivity.
Qed.

Lemma prefix_append (p s : string) : String.prefix p (p +:+ s) = true.
Proof.
  induction p as [|a p IH]; simpl.
  - destruct s; reflexivity.
  - destruct (ascii_dec a a) as [_|Hne]; [exact IH | contradiction].
Qed.

Lemma is_read_error_read_error (file_path : string) (e : exn) :
  is_read_error (read_error file_path e) = true.
Proof. apply prefix_append. Qed.

Lemma corrupt_iteration_messages (i : nat) (file_path : string) (e : exn) :
  messages PROGRESS_UPDATE
    [status_line i total_files file_path; read_error file_path e; progress i]
  = [progress i] /\
  List.filter is_read_error
    [status_line i total_files file_path; read_error file_path e; progress i]
  = [read_error file_path e].
Proof.
  split; [reflexivity|].
  change (List.filter is_read_error
            [status_line i total_files file_path; read_error file_path e; progress i])
    with (if is_read_error (read_error file_path e)
          then [read_error file_path e] else []).
  rewrite is_read_error_read_error. reflexivity.
Qed.

Lemma process_files_all_decode (files : list string) :
  (forall i, stop_is_set E i = false) ->
  os_path_exists E (OUTPUT_DIR vals) = true \/ ext_raises E (Makedirs (OUTPUT_DIR vals)) = None ->
  Forall (decodes E vals max_res) files ->
  forall (i : nat) (s : state),
    let r := process_files E vals input_size max_res DEVICE total_files i files s in
    fst r = Ok true /\
    exists q : list event,
      update_queue (snd r) = update_queue s ++ q /\
      messages PROGRESS_UPDATE q = map progress (seq i (length files)) /\
      List.filter is_read_error q = [].
Proof.
  intros Hstop Hdir Hall. induction Hall as [|f rest Hf Hrest IH]; intros i s; simpl.
  - split; [reflexivity|]. exists []. rewrite app_nil_r. repeat split.
  - rewrite Hstop, run_bind.
    destruct (process_file_decodes i f s Hf Hdir) as (Hr & q1 & Hq1 & Hshape).
    destruct (process_file E vals input_size max_res DEVICE total_files i f s) as [r1 s1].
    simpl in Hr, Hq1. subst r1.
    destruct (IH (S i) s1) as (Hr2 & q2 & Hq2 & Hp2 & He2).
    split; [exact Hr2|].
    exists (([status_line i total_files f] ++ q1 ++ [progress i]) ++ q2).
    destruct (iteration_messages i f q1 Hshape) as [Hp1 He1].
    split; [rewrite Hq2, Hq1, <- app_assoc; reflexivity|]. split.
    + rewrite messages_app, Hp1, Hp2. reflexivity.
    + rewrite List.filter_app, He1, He2. reflexivity.
Qed.

Lemma process_files_one_corrupt (files : list string) (fk : string) (e : exn) :
  (forall i, stop_is_set E i = false) ->
  os_path_exists E (OUTPUT_DIR vals) = true \/ ext_raises E (Makedirs (OUTPUT_DIR vals)) = None ->
  read_frames E vals max_res fk = Raise e ->
  forall (k i : nat) (s : state),
    files !! k = Some fk ->
    (forall j fj, j <> k -> files !! j = Some fj -> decodes E vals max_res fj) ->
    let r := process_files E vals input_size max_res DEVICE total_files i files s in
    fst r = Ok true /\
    exists q : list event,
      update_queue (snd r) = update_queue s ++ q /\
      messages PROGRESS_UPDATE q = map progress (seq i (length files)) /\
      List.filter is_read_error q = [read_error fk e].
Proof.
  intros Hstop Hdir Hread. induction files as [|f rest IH]; intros k i s Hk Hothers.
  - discriminate Hk.
  - simpl. rewrite Hstop, run_bind. destruct k as [|k].
    + injection Hk as ->.
      rewrite (process_file_read_raises i fk e s Hread).
      assert (Hrest : Forall (decodes E vals max_res) rest).
      { apply Forall_forall. intros fj Hin. apply list_elem_of_lookup in Hin as [j Hj].
        apply (Hothers (S j) fj); [discriminate | exact Hj]. }
      match goal with |- context [process_files _ _ _ _ _ _ _ _ ?st] => set (s1 := st) end.
      destruct (process_files_all_decode rest Hstop Hdir Hrest (S i) s1)
        as (Hr2 & q2 & Hq2 & Hp2 & He2).
      split; [exact Hr2|].
      exists ([status_line i total_files fk; read_error fk e; progress i] ++ q2).
      split; [rewrite Hq2; subst s1; simpl; rewrite <- app_assoc; reflexivity|]. split.
      * rewrite messages_app, Hp2, (proj1 (corrupt_iteration_messages i fk e)).
        reflexivity.
      * rewrite List.filter_app, He2, (proj2 (corrupt_iteration_messages i fk e)).
        reflexivity.
    + assert (Hf : decodes E vals max_res f).
      { apply (Hothers 0%nat f); [discriminate | reflexivity]. }
      destruct (process_file_decodes i f s Hf Hdir) as (Hr & q1 & Hq1 & Hshape).
      destruct (process_file E vals input_size max_res DEVICE total_files i f s) as [r1 s1].
      simpl in Hr, Hq1. subst r1.
      destruct (IH k (S i) s1 Hk) as (Hr2 & q2 & Hq2 & Hp2 & He2).
      { intros j fj Hj Hfj. apply (Hothers (S j) fj); [congruence | exact Hfj]. }
      split; [exact Hr2|].
      exists (([status_line i total_files f] ++ q1 ++ [progress i]) ++ q2).
      destruct (iteration_messages i f q1 Hshape) as [Hp1 He1].
      split; [rewrite Hq2, Hq1, <- app_assoc; reflexivity|]. split.
      * rewrite messages_app, Hp1, Hp2. reflexivity.
      * rewrite List.filter_app, He1, He2. reflexivity.
Qed.

End Loop.

Lemma run_cleanup (E : env) (s : state) : cleanup E s = (Ok tt, s).
Proof.
  unfold cleanup. rewrite run_try_except. unfold lift.
  destruct (cleanup_raises E); reflexivity.
Qed.

Lemma run_run_batch (E : env) (vals : values) (input_size max_res : Z) (DEVICE : string)
    (files : list string) (s : state) :
  run_batch E vals input_size max_res DEVICE files s
  = match process_files E vals input_size max_res DEVICE (length files) 0 files
            (mkState (update_queue s ++ [(SET_MAX, VInt (length files))]) (calls s)
                     (made_dirs s) (heap s)) with
    | (Ok true, s1) =>
        (Ok tt,
         mkState (update_queue s1 ++ [(THREAD_DONE, VStr "Completed")]) (calls s1)
                 (made_dirs s1) (heap s1))
    | (Ok false, s1) => (Ok tt, s1)
    | (Raise e, s1) => (Raise e, s1)
    end.
Proof.
  unfold run_batch. cbv zeta. rewrite run_bind. unfold write_event_value at 1.
  cbv beta iota. rewrite run_bind.
  destruct (process_files _ _ _ _ _ _ _ _ _) as [[[|]|e] s1]; try reflexivity.
  rewrite run_bind, run_cleanup. reflexivity.
Qed.

(** C3, as the code has it. In a batch that is not cancelled, where file
    [k] fails to decode and every other file decodes (to frames that can be stacked, with an
    output directory that exists or can be created): the iteration of file
    [k] puts its status line, one error message naming the file, and its
    progress message; the whole batch holds exactly one decoding error,
    that one, and exactly one progress message per file, in order. *)
Theorem one_decode_failure_is_isolated (E : env) (vals : values) (input_size max_res : Z)
    (DEVICE : string) (files : list string) (k : nat) (fk : string) (e : exn) (s : state) :
  (forall i, stop_is_set E i = false) ->
  os_path_exists E (OUTPUT_DIR vals) = true \/ ext_raises E (Makedirs (OUTPUT_DIR vals)) = None ->
  files !! k = Some fk ->
  read_frames E vals max_res fk = Raise e ->
  (forall j fj, j <> k -> files !! j = Some fj -> decodes E vals max_res fj) ->
  let r := run (run_batch E vals input_size max_res DEVICE files) s in
  fst r = Ok tt /\
  (exists q : list event,
     update_queue (snd r) = update_queue s ++ q /\
     List.filter is_read_error q = [read_error fk e] /\
     messages PROGRESS_UPDATE q = map progress (seq 0 (length files)) /\
     length (messages PROGRESS_UPDATE q) = length files) /\
  (forall s' : state,
     update_queue
       (snd (process_file E vals input_size max_res DEVICE (length files) k fk s'))
     = update_queue s' ++ [status_line k (length files) fk; read_error fk e; progress k]).
Proof.
  intros Hstop Hdir Hk Hread Hothers. unfold run. cbv zeta.
  rewrite run_run_batch.
  set (s0 := mkState (update_queue s ++ [(SET_MAX, VInt (length files))]) (calls s)
               (made_dirs s) (heap s)).
  destruct (process_files_one_corrupt E vals input_size max_res DEVICE (length files)
              files fk e Hstop Hdir Hread k 0%nat s0 Hk Hothers)
    as (Hr & q & Hq & Hp & He).
  destruct (process_files E vals input_size max_res DEVICE (length files) 0 files s0)
    as [r1 s1].
  simpl in Hr, Hq. subst r1. simpl.
  split; [reflexivity|]. split.
  - exists ([(SET_MAX, VInt (length files))] ++ q ++ [(THREAD_DONE, VStr "Completed")]).
    split; [rewrite Hq; subst s0; simpl; rewrite <- !app_assoc; reflexivity|].
    split; [|split].
    + rewrite !List.filter_app, He. reflexivity.
    + rewrite !messages_app, Hp. simpl. apply app_nil_r.
    + rewrite !messages_app, Hp. simpl. rewrite app_nil_r, length_map, length_seq.
      reflexivity.
  - intros s'. rewrite (process_file_read_raises E vals input_size max_res DEVICE
                          (length files) k fk e s' Hread).
    reflexivity.
Qed.

Lemma one_decode_failure_is_isolated_witness :
  let files := ["/videos/a.mp4"; "/videos/B.MKV"; "/videos/c.mov"] in
  let e := Exception "moov atom not found" in
  let r := run (run_batch second_file_corrupt_env folder_values 518 1280 "cpu" files)
             initial_state in
  fst r = Ok tt /\
  (exists q : list event,
     update_queue (snd r) = [] ++ q /\
     List.filter is_read_error q = [read_error "/videos/B.MKV" e] /\
     messages PROGRESS_UPDATE q = map progress (seq 0 3) /\
     length (messages PROGRESS_UPDATE q) = 3%nat) /\
  (forall s' : state,
     update_queue
       (snd (process_file second_file_corrupt_env folder_values 518 1280 "cpu" 3 1
               "/videos/B.MKV" s'))
     = update_queue s' ++ [status_line 1 3 "/videos/B.MKV"; read_error "/videos/B.MKV" e;
                           progress 1]).
Proof.
  refine (one_decode_failure_is_isolated second_file_corrupt_env folder_values 518 1280 "cpu"
            ["/videos/a.mp4"; "/videos/B.MKV"; "/videos/c.mov"] 1%nat "/videos/B.MKV"
            (Exception "moov atom not found") initial_state
            (fun _ => eq_refl) (or_introl eq_refl) eq_refl eq_refl _).
  intros j fj Hj Hfj.
  destruct j as [|[|[|j]]]; simpl in Hfj; try discriminate Hfj;
    [injection Hfj as <- | contradiction | injection Hfj as <-];
    exists [sample_frame], (Qc_of_Z 24), [sample_frame]; split; reflexivity.
Defined.

(** C3, as stated, fails on a batch that is cancelled: of the three files
    of the folder exactly one, the second, fails to decode, and the stop
    button is pressed while it is processed; the worker announces three
    files and puts two progress messages, not three. *)
Lemma one_decode_failure_in_a_cancelled_batch :
  let E := corrupt_and_stopped_env in
  let files := ["/videos/a.mp4"; "/videos/B.MKV"; "/videos/c.mov"] in
  let q := update_queue (snd (run (process_videos_threaded E folder_values) initial_state)) in
  map (fun f => match read_frames E folder_values 1280 f with
                | Ok _ => true
                | Raise _ => false
                end) files
  = [true; false; true] /\
  messages SET_MAX q = [(SET_MAX, VInt (length files))] /\
  List.filter is_read_error q = [read_error "/videos/B.MKV" (Exception "moov atom not found")] /\
  messages PROGRESS_UPDATE q = [progress 0; progress 1] /\
  length (messages PROGRESS_UPDATE q) <> length files.
Proof.
  vm_compute. split; [reflexivity|]. split; [reflexivity|]. split; [reflexivity|].
  split; [reflexivity | discriminate].
Qed.

(** ** The done message of the loop *)

Section Done.

Variable E : env.
Variable vals : values.
Variable input_size max_res : Z.
Variable DEVICE : string.
Variable total_files : nat.

(** An iteration puts no done message, however it ends. *)
Lemma process_file_puts_no_done (i : nat) (file_path : string) (s : state) :
  messages THREAD_DONE
    (update_queue (snd (process_file E vals input_size max_res DEVICE total_files i
                          file_path s)))
  = messages THREAD_DONE (update_queue s).
Proof.
  unfold process_file. rewrite run_bind. simpl.
  rewrite run_bind. unfold attempt at 1, lift at 1.
  destruct (read_frames E vals max_res file_path) as [[frames fps]|e]; simpl.
  2:{ run_events. rewrite <- !app_assoc, messages_app. simpl. apply app_nil_r. }
  rewrite run_bind. unfold lift at 1.
  destruct (np_stack frames) as [fa|e]; simpl.
  2:{ rewrite messages_app. apply app_nil_r. }
  rewrite run_bind. unfold attempt at 1, lift at 1.
  destruct (infer_depths E (TTA vals) frames fa fps input_size DEVICE (FP32 vals))
    as [[dv fps']|e]; simpl.
  2:{ run_events. rewrite <- !app_assoc, messages_app. simpl. apply app_nil_r. }
  rewrite run_bind. simpl. rewrite run_bind. unfold path_exists at 1. simpl.
  match goal with |- context [(_ ≫= _) ?st] => remember st as s0 eqn:Es0 end.
  assert (Hs0 : messages THREAD_DONE (update_queue s0) = messages THREAD_DONE (update_queue s)).
  { rewrite Es0. simpl. rewrite messages_app. apply app_nil_r. }
  clear Es0.
  rewrite run_bind.
  destruct (os_path_exists E (OUTPUT_DIR vals) || bool_decide (OUTPUT_DIR vals ∈ made_dirs s));
    simpl.
  - rewrite run_bind.
    destruct (save_outputs_spec E vals file_path frames (length (heap s)) fps' (fun _ => True)
                s0) as (Hr & _ & l & q & _ & Hq & _ & Hcase);
      [intros; exact I | intros; exact I |].
    destruct (save_outputs E vals file_path frames (length (heap s)) fps' s0) as [r2 s2].
    simpl in Hr, Hq. subst r2. run_events. rewrite Hq, !messages_app, Hs0.
    destruct Hcase as [[_ [-> | [e ->]]] | (_ & _ & e & _ & _ & _ & [-> | ->])];
      simpl; rewrite ?app_nil_r; reflexivity.
  - unfold os_makedirs. rewrite run_bind. unfold call.
    destruct (ext_raises E (Makedirs (OUTPUT_DIR vals))) as [e|]; simpl; [exact Hs0|].
    rewrite run_bind.
    match goal with |- context [save_outputs _ _ _ _ _ _ ?st] =>
      remember st as s1 eqn:Es1 end.
    assert (Hs1 : update_queue s1 = update_queue s0) by (rewrite Es1; reflexivity).
    clear Es1.
    destruct (save_outputs_spec E vals file_path frames (length (heap s)) fps' (fun _ => True)
                s1) as (Hr & _ & l & q & _ & Hq & _ & Hcase);
      [intros; exact I | intros; exact I |].
    destruct (save_outputs E vals file_path frames (length (heap s)) fps' s1) as [r2 s2].
    simpl in Hr, Hq. subst r2. run_events. rewrite Hq, !messages_app.
    rewrite Hs1, Hs0.
    destruct Hcase as [[_ [-> | [e ->]]] | (_ & _ & e & _ & _ & _ & [-> | ->])];
      simpl; rewrite ?app_nil_r; reflexivity.
Qed.

(** The loop puts a done message exactly when it returns from inside:
    the message ['Stopped']. *)
Lemma process_files_done (files : list string) (i : nat) (s : state) :
  let r := process_files E vals input_size max_res DEVICE total_files i files s in
  messages THREAD_DONE (update_queue (snd r))
  = messages THREAD_DONE (update_queue s)
    ++ match fst r with
       | Ok false => [(THREAD_DONE, VStr "Stopped")]
       | _ => []
       end.
Proof.
  revert i s. induction files as [|f rest IH]; intros i s; simpl.
  - symmetry. apply app_nil_r.
  - destruct (stop_is_set E i).
    + run_events. rewrite messages_app. reflexivity.
    + rewrite run_bind.
      pose proof (process_file_puts_no_done i f s) as Hf.
      destruct (process_file E vals input_size max_res DEVICE total_files i f s)
        as [[[]|e] s1]; simpl in *.
      * rewrite IH, Hf. reflexivity.
      * rewrite Hf. symmetry. apply app_nil_r.
Qed.

End Done.

(** The loop part of the worker, lines 572-710: a run that returns has put
    exactly one done message, ['Stopped'] or ['Completed']; a run that an
    exception leaves has put none. *)
Lemma run_batch_done (E : env) (vals : values) (input_size max_res : Z) (DEVICE : string)
    (files : list string) (s : state) :
  let r := run_batch E vals input_size max_res DEVICE files s in
  match fst r with
  | Ok _ =>
      exists reason : string,
        (reason = "Stopped" \/ reason = "Completed") /\
        messages THREAD_DONE (update_queue (snd r))
        = messages THREAD_DONE (update_queue s) ++ [(THREAD_DONE, VStr reason)]
  | Raise _ =>
      messages THREAD_DONE (update_queue (snd r)) = messages THREAD_DONE (update_queue s)
  end.
Proof.
  cbv zeta. rewrite run_run_batch.
  match goal with |- context [process_files _ _ _ _ _ _ _ _ ?st] => set (s0 := st) end.
  pose proof (process_files_done E vals input_size max_res DEVICE (length files) files
                0%nat s0) as Hd.
  assert (Hs0 : messages THREAD_DONE (update_queue s0) = messages THREAD_DONE (update_queue s)).
  { subst s0. simpl. rewrite messages_app. apply app_nil_r. }
  destruct (process_files E vals input_size max_res DEVICE (length files) 0 files s0)
    as [[[|]|e] s1]; simpl in *; rewrite Hs0 in Hd.
  - exists "Completed". split; [right; reflexivity|].
    rewrite messages_app, Hd, app_nil_r. reflexivity.
  - exists "Stopped". split; [left; reflexivity | exact Hd].
  - rewrite Hd. apply app_nil_r.
Qed.

(** With a single input file that exists as chosen, valid numbers and a
    model that loads, the worker is the loop part run after the
    ['Loading model...'] status. *)
Lemma worker_reaches_batch (E : env) (vals : values) (input_size max_res : Z) (s : state) :
  INPUT_FILE vals <> "" ->
  py_int E (INPUT_SIZE vals) = Some input_size ->
  py_int E (MAX_RES vals) = Some max_res ->
  load_model E (ENCODER vals) (METRIC vals) (if cuda_is_available E then "cuda" else "cpu")
  = Ok tt ->
  process_videos_threaded E vals s
  = run_batch E vals input_size max_res (if cuda_is_available E then "cuda" else "cpu")
      [INPUT_FILE vals]
      (mkState (update_queue s ++ [(STATUS_UPDATE, VStr "Loading model...")]) (calls s)
               (made_dirs s) (heap s)).
Proof.
  intros Hfile Hsize Hres Hload. unfold process_videos_threaded, resolve_input.
  assert (Hne : String.eqb (INPUT_FILE vals) "" = false).
  { apply String.eqb_neq, Hfile. }
  rewrite Hne. simpl. rewrite Hsize, Hres, Hne. simpl.
  unfold load_and_run. rewrite run_bind. simpl. rewrite Hload. reflexivity.
Qed.

(** * Further properties of the worker *)

(** ** The messages of an iteration, in general *)

Section Iteration.

Variable E : env.
Variable vals : values.
Variable input_size max_res : Z.
Variable DEVICE : string.
Variable total_files : nat.

Lemma save_then_progress (i : nat) (file_path : string) (frames : list frame) (depths : loc)
    (fps : Qc) (s : state) :
  let r := (save_outputs E vals file_path frames depths fps;;
            write_event_value PROGRESS_UPDATE (VInt (i + 1))) s in
  fst r = Ok tt /\
  exists q : list event,
    update_queue (snd r) = update_queue s ++ q ++ [progress i] /\
    (q = [] \/ exists e, q = [save_error file_path e] \/ q = [move_error file_path e]).
Proof.
  cbv zeta. rewrite run_bind.
  destruct (save_outputs_spec E vals file_path frames depths fps (fun _ => True) s)
    as (Hr & _ & l & q & _ & Hq & _ & Hcase); [intros; exact I | intros; exact I |].
  destruct (save_outputs E vals file_path frames depths fps s) as [r2 s2].
  simpl in Hr, Hq. subst r2. simpl. split; [reflexivity|].
  exists q. rewrite Hq. split; [rewrite <- app_assoc; reflexivity|].
  destruct Hcase as [[_ [-> | [e ->]]] | (_ & _ & e & _ & _ & _ & [-> | ->])].
  - left. reflexivity.
  - right. exists e. left. reflexivity.
  - right. exists e. left. reflexivity.
  - right. exists e. right. reflexivity.
Qed.

Lemma process_file_shape (i : nat) (file_path : string) (s : state) :
  let r := run (process_file E vals input_size max_res DEVICE total_files i file_path) s in
  match fst r with
  | Ok _ =>
      exists q : list event,
        update_queue (snd r)
        = update_queue s ++ [status_line i total_files file_path] ++ q ++ [progress i] /\
        (q = [] \/
         exists e, q = [read_error file_path e] \/ q = [inference_error file_path e] \/
                   q = [save_error file_path e] \/ q = [move_error file_path e])
  | Raise e =>
      update_queue (snd r) = update_queue s ++ [status_line i total_files file_path] /\
      exists (frames : list frame) (fps : Qc),
        read_frames E vals max_res file_path = Ok (frames, fps) /\
        (np_stack frames = Raise e \/ ext_raises E (Makedirs (OUTPUT_DIR vals)) = Some e)
  end.
Proof.
  cbv zeta. unfold run, process_file. rewrite run_bind. simpl.
  rewrite run_bind. unfold attempt at 1, lift at 1.
  destruct (read_frames E vals max_res file_path) as [[frames fps]|e] eqn:Hread; simpl.
  2:{ run_events. exists [read_error file_path e].
      split; [rewrite <- !app_assoc; reflexivity|]. right. exists e. left. reflexivity. }
  rewrite run_bind. unfold lift at 1.
  destruct (np_stack frames) as [fa|e] eqn:Hstack; simpl.
  2:{ split; [reflexivity|]. exists frames, fps. split; [reflexivity | left; first [reflexivity | exact Hstack]]. }
  rewrite run_bind. unfold attempt at 1, lift at 1.
  destruct (infer_depths E (TTA vals) frames fa fps input_size DEVICE (FP32 vals))
    as [[dv fps']|e]; simpl.
  2:{ run_events. exists [inference_error file_path e].
      split; [rewrite <- !app_assoc; reflexivity|]. right. exists e. right. left. reflexivity. }
  rewrite run_bind. simpl. rewrite run_bind. unfold path_exists at 1. simpl.
  match goal with |- context [(_ ≫= _) ?st] => remember st as s0 eqn:Es0 end.
  assert (Hs0 : update_queue s0 = update_queue s ++ [status_line i total_files file_path])
    by (rewrite Es0; reflexivity).
  clear Es0. rewrite run_bind.
  assert (Htail : forall s1, update_queue s1 = update_queue s0 ->
            let r := (save_outputs E vals file_path frames (length (heap s)) fps';;
                      write_event_value PROGRESS_UPDATE (VInt (i + 1))) s1 in
            fst r = Ok tt /\
            exists q : list event,
              update_queue (snd r)
              = update_queue s ++ [status_line i total_files file_path] ++ q ++ [progress i] /\
              (q = [] \/
               exists e, q = [read_error file_path e] \/ q = [inference_error file_path e] \/
                         q = [save_error file_path e] \/ q = [move_error file_path e])).
  { intros s1 Hs1.
    destruct (save_then_progress i file_path frames (length (heap s)) fps' s1)
      as (Hr & q & Hq & Hshape).
    split; [exact Hr|]. exists q. rewrite Hq, Hs1, Hs0.
    split; [rewrite <- !app_assoc; reflexivity|].
    destruct Hshape as [-> | [e [-> | ->]]].
    - left. reflexivity.
    - right. exists e. right. right. left. reflexivity.
    - right. exists e. right. right. right. reflexivity. }
  destruct (os_path_exists E (OUTPUT_DIR vals) || bool_decide (OUTPUT_DIR vals ∈ made_dirs s));
    simpl.
  - destruct (Htail s0 eq_refl) as (Hr & Hq). rewrite Hr. exact Hq.
  - unfold os_makedirs. rewrite run_bind. unfold call.
    destruct (ext_raises E (Makedirs (OUTPUT_DIR vals))) as [e|] eqn:Hmk; simpl.
    + split; [exact Hs0|]. exists frames, fps. split; [reflexivity | right; first [reflexivity | exact Hmk]].
    + match goal with |- context [(_ ≫= _) ?st] => remember st as s1 eqn:Es1 end.
      assert (Hs1 : update_queue s1 = update_queue s0) by (rewrite Es1; reflexivity).
      clear Es1. destruct (Htail s1 Hs1) as (Hr & Hq). rewrite Hr. exact Hq.
Qed.

(** X1. An iteration that returns has put its status line first, then at
    most one error message (decoding, inference, saving or moving), then
    its progress message, last.  An iteration that an exception leaves has
    put its status line only, and the exception is that of [np.stack] on
    the decoded frames or that of [os.makedirs] on the output directory. *)
Theorem iteration_message_order (i : nat) (file_path : string) (s : state) :
  let r := run (process_file E vals input_size max_res DEVICE total_files i file_path) s in
  match fst r with
  | Ok _ =>
      exists q : list event,
        update_queue (snd r)
        = update_queue s ++ [status_line i total_files file_path] ++ q ++ [progress i] /\
        (q = [] \/
         exists e, q = [read_error file_path e] \/ q = [inference_error file_path e] \/
                   q = [save_error file_path e] \/ q = [move_error file_path e])
  | Raise e =>
      update_queue (snd r) = update_queue s ++ [status_line i total_files file_path] /\
      exists (frames : list frame) (fps : Qc),
        read_frames E vals max_res file_path = Ok (frames, fps) /\
        (np_stack frames = Raise e \/ ext_raises E (Makedirs (OUTPUT_DIR vals)) = Some e)
  end.
Proof. exact (process_file_shape i file_path s). Qed.

(** The messages of one key among those of an iteration that returns. *)
Lemma returned_iteration_messages (i : nat) (file_path : string) (q : list event) :
  (q = [] \/
   exists e, q = [read_error file_path e] \/ q = [inference_error file_path e] \/
             q = [save_error file_path e] \/ q = [move_error file_path e]) ->
  let all := [status_line i total_files file_path] ++ q ++ [progress i] in
  messages PROGRESS_UPDATE all = [progress i] /\
  messages SET_MAX all = [] /\
  messages THREAD_DONE all = [].
Proof.
  intros [-> | [e [-> | [-> | [-> | ->]]]]]; repeat split; reflexivity.
Qed.

(** The loop: the progress messages count the iterations that returned,
    one by one; a done message is put only by the return on the stop flag,
    and it is then the last message. *)
Lemma process_files_protocol (files : list string) :
  forall (i : nat) (s : state),
    let r := process_files E vals input_size max_res DEVICE total_files i files s in
    exists (q : list event) (m : nat),
      update_queue (snd r) = update_queue s ++ q /\
      messages SET_MAX q = [] /\
      messages PROGRESS_UPDATE q = map progress (seq i m) /\
      match fst r with
      | Ok true => m = length files /\ messages THREAD_DONE q = []
      | Ok false =>
          (m < length files)%nat /\
          exists q', q = q' ++ [stopped_message] /\ messages THREAD_DONE q' = []
      | Raise _ => (m < length files)%nat /\ messages THREAD_DONE q = []
      end.
Proof.
  induction files as [|f rest IH]; intros i s; simpl.
  - exists [], 0%nat. rewrite app_nil_r. repeat split.
  - destruct (stop_is_set E i).
    + run_events. exists [stopped_message], 0%nat.
      split; [reflexivity|]. split; [reflexivity|]. split; [reflexivity|].
      split; [lia|]. exists []. split; reflexivity.
    + rewrite run_bind.
      pose proof (process_file_shape i f s) as Hf. cbv zeta in Hf. unfold run in Hf.
      destruct (process_file E vals input_size max_res DEVICE total_files i f s)
        as [[[]|e] s1]; simpl in Hf.
      * destruct Hf as (q1 & Hq1 & Hshape).
        destruct (returned_iteration_messages i f q1 Hshape) as (Hp1 & Hm1 & Hd1).
        cbv zeta in Hp1, Hm1, Hd1.
        destruct (IH (S i) s1) as (q2 & m2 & Hq2 & Hm2 & Hp2 & Hcase).
        exists (([status_line i total_files f] ++ q1 ++ [progress i]) ++ q2), (S m2).
        split; [rewrite Hq2, Hq1, <- app_assoc; reflexivity|].
        split; [rewrite messages_app, Hm1, Hm2; reflexivity|].
        split; [rewrite messages_app, Hp1, Hp2; reflexivity|].
        destruct (process_files E vals input_size max_res DEVICE total_files (S i) rest s1)
          as [[[|]|e] s2]; cbn [fst] in Hcase |- *.
        -- destruct Hcase as [-> Hd2]. split; [reflexivity|].
           rewrite messages_app, Hd1, Hd2. reflexivity.
        -- destruct Hcase as (Hlt & q' & -> & Hd2). split; [lia|].
           exists (([status_line i total_files f] ++ q1 ++ [progress i]) ++ q').
           split; [rewrite <- !app_assoc; reflexivity|].
           rewrite messages_app, Hd1, Hd2. reflexivity.
        -- destruct Hcase as [Hlt Hd2]. split; [lia|].
           rewrite messages_app, Hd1, Hd2. reflexivity.
      * destruct Hf as [Hq1 _]. exists [status_line i total_files f], 0%nat.
        split; [exact Hq1|]. repeat split. lia.
Qed.

End Iteration.

(** ** The messages of a batch *)

Lemma run_batch_protocol (E : env) (vals : values) (input_size max_res : Z)
    (DEVICE : string) (files : list string) (s : state) :
  let r := run (run_batch E vals input_size max_res DEVICE files) s in
  exists (q : list event) (m : nat),
    update_queue (snd r) = update_queue s ++ [(SET_MAX, VInt (length files))] ++ q /\
    messages SET_MAX q = [] /\
    messages PROGRESS_UPDATE q = map progress (seq 0 m) /\
    match fst r with
    | Ok _ =>
        exists (q' : list event) (done : event),
          q = q' ++ [done] /\ messages THREAD_DONE q' = [] /\
          ((done = completed_message /\ m = length files) \/
           (done = stopped_message /\ (m < length files)%nat))
    | Raise _ => (m < length files)%nat /\ messages THREAD_DONE q = []
    end.
Proof.
  unfold run. cbv zeta. rewrite run_run_batch.
  match goal with |- context [process_files _ _ _ _ _ _ _ _ ?st] => set (s0 := st) end.
  destruct (process_files_protocol E vals input_size max_res DEVICE (length files) files
              0%nat s0) as (q & m & Hq & Hm & Hp & Hcase).
  destruct (process_files E vals input_size max_res DEVICE (length files) 0 files s0)
    as [[[|]|e] s1]; cbn [fst snd] in Hq, Hcase |- *.
  - destruct Hcase as [-> Hd].
    exists (q ++ [completed_message]), (length files).
    split; [cbn [update_queue]; rewrite Hq; subst s0; cbn [update_queue];
            rewrite <- !app_assoc; reflexivity|].
    split; [rewrite messages_app, Hm; reflexivity|].
    split; [rewrite messages_app, Hp; apply app_nil_r|].
    exists q, completed_message. split; [reflexivity|]. split; [exact Hd|].
    left. split; reflexivity.
  - destruct Hcase as (Hlt & q' & -> & Hd).
    exists (q' ++ [stopped_message]), m.
    split; [rewrite Hq; subst s0; cbn [update_queue]; rewrite <- !app_assoc; reflexivity|].
    split; [exact Hm|]. split; [exact Hp|].
    exists q', stopped_message. split; [reflexivity|]. split; [exact Hd|].
    right. split; [reflexivity | exact Hlt].
  - destruct Hcase as [Hlt Hd]. exists q, m.
    split; [rewrite Hq; subst s0; cbn [update_queue]; rewrite <- !app_assoc; reflexivity|].
    split; [exact Hm|]. split; [exact Hp|]. split; [exact Hlt | exact Hd].
Qed.

(** X2. The loop part of the worker, lines 572-710: the maximum of the
    progress bar is put first and only once; the progress messages count
    1, 2, ..., m without a gap, with m at most the number of files; a run
    that returns ends with the one done message it puts, ['Completed']
    exactly when every file has had its progress message and ['Stopped']
    otherwise; a run that an exception leaves puts no done message and has
    not reached the last file's progress. *)
Theorem batch_message_protocol (E : env) (vals : values) (input_size max_res : Z)
    (DEVICE : string) (files : list string) (s : state) :
  let r := run (run_batch E vals input_size max_res DEVICE files) s in
  exists (q : list event) (m : nat),
    update_queue (snd r) = update_queue s ++ [(SET_MAX, VInt (length files))] ++ q /\
    messages SET_MAX q = [] /\
    messages PROGRESS_UPDATE q = map progress (seq 0 m) /\
    match fst r with
    | Ok _ =>
        exists (q' : list event) (done : event),
          q = q' ++ [done] /\ messages THREAD_DONE q' = [] /\
          ((done = completed_message /\ m = length files) \/
           (done = stopped_message /\ (m < length files)%nat))
    | Raise _ => (m < length files)%nat /\ messages THREAD_DONE q = []
    end.
Proof. exact (run_batch_protocol E vals input_size max_res DEVICE files s). Qed.

(** ** Cancellation *)

(** X3. The stop flag is looked at between the files only.  When it is
    first seen set before file [k], the files before it are processed as
    in a batch of those files alone, ['Stopped'] is put after them, and
    nothing is done for file [k] or any later one: no message, no call, no
    directory, no array. *)
Theorem cancellation_keeps_the_prefix (E : env) (vals : values) (input_size max_res : Z)
    (DEVICE : string) (total_files : nat) (files : list string) (k : nat) :
  forall (i : nat) (s : state),
    (k < length files)%nat ->
    stop_is_set E (i + k) = true ->
    (forall j, (j < k)%nat -> stop_is_set E (i + j) = false) ->
    process_files E vals input_size max_res DEVICE total_files i files s
    = match process_files E vals input_size max_res DEVICE total_files i (take k files) s with
      | (Ok true, s1) =>
          (Ok false,
           mkState (update_queue s1 ++ [stopped_message]) (calls s1) (made_dirs s1) (heap s1))
      | other => other
      end.
Proof.
  revert files. induction k as [|k IH]; intros files i s Hlen Hset Hclear.
  - destruct files as [|f rest]; [simpl in Hlen; lia|].
    rewrite Nat.add_0_r in Hset. simpl. rewrite Hset. reflexivity.
  - destruct files as [|f rest]; [simpl in Hlen; lia|].
    simpl in Hlen. simpl.
    pose proof (Hclear 0%nat ltac:(lia)) as H0. rewrite Nat.add_0_r in H0. rewrite H0.
    rewrite !run_bind.
    destruct (process_file E vals input_size max_res DEVICE total_files i f s)
      as [[[]|e] s1]; [|reflexivity].
    apply IH; [lia | replace (S i + k)%nat with (i + S k)%nat by lia; exact Hset |].
    intros j Hj. replace (S i + j)%nat with (i + S j)%nat by lia. apply Hclear. lia.
Qed.

Lemma cancellation_keeps_the_prefix_witness :
  let files := ["/videos/a.mp4"; "/videos/B.MKV"; "/videos/c.mov"] in
  process_files stop_pressed_env folder_values 518 1280 "cpu" 3 0 files initial_state
  = match process_files stop_pressed_env folder_values 518 1280 "cpu" 3 0 (take 1 files)
            initial_state with
    | (Ok true, s1) =>
        (Ok false,
         mkState (update_queue s1 ++ [stopped_message]) (calls s1) (made_dirs s1) (heap s1))
    | other => other
    end.
Proof.
  refine (cancellation_keeps_the_prefix stop_pressed_env folder_values 518 1280 "cpu" 3
            ["/videos/a.mp4"; "/videos/B.MKV"; "/videos/c.mov"] 1 0 initial_state _ eq_refl _).
  - simpl. lia.
  - intros j Hj. destruct j as [|j]; [reflexivity | lia].
Defined.

(** ** Where the worker writes *)

Section Within.

Variable E : env.
Variable P : action -> Prop.

Lemma within_silent {A : Type} (m : M A) :
  (forall s, calls (snd (m s)) = calls s) -> calls_within P m.
Proof.
  intros Hm s. exists []. rewrite Hm, app_nil_r. split; [reflexivity | constructor].
Qed.

Lemma within_ret {A : Type} (a : A) : calls_within P (mret a : M A).
Proof. apply within_silent. reflexivity. Qed.

Lemma within_lift {A : Type} (r : result A) : calls_within P (lift r).
Proof. apply within_silent. reflexivity. Qed.

Lemma within_put (k : key) (v : value) : calls_within P (write_event_value k v).
Proof. apply within_silent. reflexivity. Qed.

Lemma within_alloc (d : depth_seq) : calls_within P (alloc d).
Proof. apply within_silent. reflexivity. Qed.

Lemma within_load (l : loc) : calls_within P (load l).
Proof. apply within_silent. reflexivity. Qed.

Lemma within_store (l : loc) (d : depth_seq) : calls_within P (store l d).
Proof. apply within_silent. reflexivity. Qed.

Lemma within_dir_made (p : string) : calls_within P (dir_made p).
Proof. apply within_silent. reflexivity. Qed.

Lemma within_path_exists (p : string) : calls_within P (path_exists E p).
Proof. apply within_silent. reflexivity. Qed.

Lemma within_call (a : action) : P a -> calls_within P (call E a).
Proof.
  intros Ha s. exists [a]. split; [reflexivity | repeat constructor; exact Ha].
Qed.

Lemma within_bind {A B : Type} (m : M A) (f : A -> M B) :
  calls_within P m -> (forall a, calls_within P (f a)) -> calls_within P (m ≫= f).
Proof.
  intros Hm Hf s. rewrite run_bind.
  destruct (Hm s) as (l1 & Hc1 & Hl1).
  destruct (m s) as [[a|e] s1]; simpl in Hc1.
  - destruct (Hf a s1) as (l2 & Hc2 & Hl2).
    exists (l1 ++ l2). rewrite Hc2, Hc1, <- app_assoc.
    split; [reflexivity | apply Forall_app; split; assumption].
  - exists l1. split; assumption.
Qed.

Lemma within_attempt {A : Type} (m : M A) : calls_within P m -> calls_within P (attempt m).
Proof.
  intros Hm s. destruct (Hm s) as (l & Hc & Hl). exists l. unfold attempt.
  destruct (m s) as [r s1]. split; assumption.
Qed.

Lemma within_try_except (m : M unit) (h : exn -> M unit) :
  calls_within P m -> (forall e, calls_within P (h e)) -> calls_within P (try_except m h).
Proof.
  intros Hm Hh. unfold try_except. apply within_bind; [apply within_attempt, Hm|].
  intros [[]|e]; [apply within_ret | apply Hh].
Qed.

Lemma within_when (b : bool) (m : M unit) : calls_within P m -> calls_within P (when b m).
Proof. intros Hm. destruct b; [exact Hm | apply within_ret]. Qed.

End Within.

Ltac within_steps :=
  repeat first
    [ apply within_ret | apply within_lift | apply within_put | apply within_alloc
    | apply within_load | apply within_store | apply within_dir_made
    | apply within_path_exists | apply within_when | apply within_attempt
    | apply within_try_except | apply within_bind
    | match goal with |- forall _, _ => intro end ].

Section Confined.

Variable E : env.
Variable vals : values.

Lemma within_write_exr_frames (file_path : string) (depths : depth_seq) :
  forall j : nat,
    calls_within (call_for vals file_path)
      (write_exr_frames E (depth_exr_dir vals file_path) j depths).
Proof.
  induction depths as [|depth rest IH]; intros j; simpl.
  - apply within_ret.
  - apply within_bind; [apply within_call; exists j; reflexivity | intros _; apply IH].
Qed.

Lemma within_write_png_frames (file_path : string) (png_16bit : bool) (png_compression : Z)
    (d_min d_max : Qc) (depths : depth_seq) :
  forall j : nat,
    calls_within (call_for vals file_path)
      (write_png_frames E (depth_png_dir vals file_path) png_16bit png_compression
         d_min d_max j depths).
Proof.
  induction depths as [|depth rest IH]; intros j; simpl.
  - apply within_ret.
  - apply within_bind; [apply within_call; exists j; reflexivity | intros _; apply IH].
Qed.

Lemma within_save_outputs (file_path : string) (frames : list frame) (depths : loc)
    (fps : Qc) :
  calls_within (call_for vals file_path) (save_outputs E vals file_path frames depths fps).
Proof.
  unfold save_outputs, write_outputs, write_src_clip, write_depth_video, write_raw_outputs,
    write_npz, write_exr, write_png, move_to_finished, os_makedirs, save_video_depths,
    np_copy, max_minus.
  cbv zeta.
  apply within_try_except; [|intros e; apply within_put].
  apply within_bind; [apply within_when, within_call; reflexivity|]. intros _.
  apply within_bind.
  { apply within_bind; [within_steps|]. intros l1.
    apply within_bind; [destruct (INVERT_METRIC vals); within_steps|]. intros l2.
    apply within_bind; [apply within_load|]. intros d.
    apply within_bind; [apply within_store|]. intros _.
    apply within_call. reflexivity. }
  intros _. apply within_bind.
  { apply within_bind.
    { apply within_when, within_bind; [apply within_load|]. intros d.
      apply within_call. reflexivity. }
    intros _. apply within_bind.
    { apply within_when.
      apply within_bind; [apply within_call; right; left; reflexivity|]. intros _.
      apply within_bind; [apply within_dir_made|]. intros _.
      apply within_bind; [apply within_call; exact I|]. intros _.
      apply within_bind; [apply within_load|]. intros d.
      apply within_write_exr_frames. }
    intros _. apply within_when.
    apply within_bind; [apply within_call; right; right; left; reflexivity|]. intros _.
    apply within_bind; [apply within_dir_made|]. intros _.
    apply within_bind; [apply within_load|]. intros d.
    apply within_bind; [apply within_lift|]. intros d_min.
    apply within_bind; [apply within_lift|]. intros d_max.
    apply within_write_png_frames. }
  intros _. apply within_when.
  apply within_bind; [apply within_path_exists|]. intros there.
  apply within_bind.
  { apply within_when, within_bind;
      [apply within_call; right; right; right; reflexivity | intros _; apply within_dir_made]. }
  intros _. apply within_try_except; [|intros e; apply within_put].
  apply within_call. split; reflexivity.
Qed.

Lemma within_process_file (input_size max_res : Z) (DEVICE : string) (total_files i : nat)
    (file_path : string) :
  calls_within (call_for vals file_path)
    (process_file E vals input_size max_res DEVICE total_files i file_path).
Proof.
  unfold process_file.
  apply within_bind; [apply within_put|]. intros _.
  apply within_bind; [apply within_attempt, within_lift|].
  intros [[frames fps]|e]; [|within_steps].
  apply within_bind; [apply within_lift|]. intros frames_array.
  apply within_bind; [apply within_attempt, within_lift|].
  intros [[depths_value fps']|e]; [|within_steps].
  apply within_bind; [apply within_alloc|]. intros depths.
  apply within_bind; [apply within_path_exists|]. intros there.
  apply within_bind.
  { apply within_when. unfold os_makedirs.
    apply within_bind; [apply within_call; left; reflexivity | intros _; apply within_dir_made]. }
  intros _. apply within_bind; [apply within_save_outputs | intros _; apply within_put].
Qed.

Lemma within_process_files (input_size max_res : Z) (DEVICE : string) (total_files : nat)
    (all : list string) (files : list string) :
  forall i : nat,
    (forall f, In f files -> In f all) ->
    calls_within (fun a => exists f, In f all /\ call_for vals f a)
      (process_files E vals input_size max_res DEVICE total_files i files).
Proof.
  induction files as [|f rest IH]; intros i Hsub; simpl.
  - apply within_ret.
  - destruct (stop_is_set E i); [within_steps|].
    apply within_bind; [|intros _; apply IH; intros g Hg; apply Hsub; right; exact Hg].
    intros s. destruct (within_process_file input_size max_res DEVICE total_files i f s)
      as (l & Hc & Hl).
    exists l. split; [exact Hc|].
    eapply Forall_impl; [exact Hl|]. intros a Ha. exists f. split; [apply Hsub; left; reflexivity | exact Ha].
Qed.

End Confined.

(** X4. Every external call of a batch is made for one of its files and
    names only that file's paths: the two videos, the archive and the
    frame folders inside the output directory, the output directory
    itself, the [finished] folder beside the source, and the move of the
    source into it.  The worker starts no subprocess. *)
Theorem batch_calls_are_confined (E : env) (vals : values) (input_size max_res : Z)
    (DEVICE : string) (files : list string) (s : state) :
  exists l : list action,
    calls (snd (run (run_batch E vals input_size max_res DEVICE files) s)) = calls s ++ l /\
    Forall (fun a => exists f, In f files /\ call_for vals f a) l.
Proof.
  unfold run. rewrite run_run_batch.
  match goal with |- context [process_files _ _ _ _ _ _ _ _ ?st] => set (s0 := st) end.
  destruct (within_process_files E vals input_size max_res DEVICE (length files) files files
              0%nat (fun _ H => H) s0) as (l & Hc & Hl).
  exists l. split; [|exact Hl].
  destruct (process_files E vals input_size max_res DEVICE (length files) 0 files s0)
    as [[[|]|e] s1]; simpl in Hc |- *; exact Hc.
Qed.

(** ** A run in which nothing fails *)

Section Quiet.

Variable E : env.
Variable vals : values.
Variable file_path : string.
Variable depths : loc.
Variable d : depth_seq.

Hypothesis quiet : forall a : action, ext_raises E a = None.

Lemma attempted_app (f : output_format) (l1 l2 : list action) :
  attempted f (l1 ++ l2) = attempted f l1 || attempted f l2.
Proof. apply existsb_app. Qed.

Lemma completes_seq (F1 F2 : output_format -> bool) (m1 m2 : M unit) :
  completes depths d F1 m1 -> completes depths d F2 m2 ->
  completes depths d (fun f => F1 f || F2 f) (m1;; m2).
Proof.
  intros H1 H2 s Hs. rewrite run_bind.
  destruct (H1 s Hs) as (Hr1 & Hq1 & Hh1 & l1 & Hc1 & Hl1).
  destruct (m1 s) as [r1 s1]. simpl in Hr1, Hq1, Hh1, Hc1. subst r1.
  destruct (H2 s1 Hh1) as (Hr2 & Hq2 & Hh2 & l2 & Hc2 & Hl2).
  split; [exact Hr2|]. split; [rewrite Hq2; exact Hq1|]. split; [exact Hh2|].
  exists (l1 ++ l2). split; [rewrite Hc2, Hc1, <- app_assoc; reflexivity|].
  intros f. rewrite attempted_app, Hl1, Hl2. reflexivity.
Qed.

Lemma completes_skip : completes depths d (fun _ => false) (mret tt).
Proof.
  intros s Hs. split; [reflexivity|]. split; [reflexivity|]. split; [exact Hs|].
  exists []. split; [symmetry; apply app_nil_r | reflexivity].
Qed.

Lemma completes_call (a : action) :
  completes depths d (fun f => call_of_format f a) (call E a).
Proof.
  intros s Hs. unfold call. rewrite quiet. simpl.
  split; [reflexivity|]. split; [reflexivity|]. split; [exact Hs|].
  exists [a]. split; [reflexivity|]. intros f. simpl. apply orb_false_r.
Qed.

Lemma completes_dir_made (p : string) : completes depths d (fun _ => false) (dir_made p).
Proof.
  intros s Hs. split; [reflexivity|]. split; [reflexivity|]. split; [exact Hs|].
  exists []. split; [symmetry; apply app_nil_r | reflexivity].
Qed.

Lemma completes_when (b : bool) (F : output_format -> bool) (m : M unit) :
  completes depths d F m -> completes depths d (fun f => b && F f) (when b m).
Proof.
  intros Hm. destruct b; simpl; [exact Hm | apply completes_skip].
Qed.

Lemma completes_ext (F G : output_format -> bool) (m : M unit) :
  (forall f, F f = G f) -> completes depths d F m -> completes depths d G m.
Proof.
  intros HFG Hm s Hs. destruct (Hm s Hs) as (Hr & Hq & Hh & l & Hc & Hl).
  split; [exact Hr|]. split; [exact Hq|]. split; [exact Hh|].
  exists l. split; [exact Hc|]. intros f. rewrite Hl. apply HFG.
Qed.

Lemma completes_load (F : output_format -> bool) (k : depth_seq -> M unit) :
  completes depths d F (k d) -> completes depths d F (load depths ≫= k).
Proof.
  intros Hk s Hs. rewrite run_bind. unfold load. rewrite Hs. simpl. apply Hk, Hs.
Qed.

Lemma completes_write_exr_frames (dir : string) (ds : depth_seq) :
  forall j : nat,
    completes depths d (fun f => negb (bool_decide (ds = []))
                                 && call_of_format f (ExrWrite dir 0 0 []))
      (write_exr_frames E dir j ds).
Proof.
  induction ds as [|depth rest IH]; intros j; simpl.
  - apply completes_skip.
  - eapply completes_ext; [|apply completes_seq; [apply completes_call | apply (IH (S j))]].
    intros f. destruct f; simpl; rewrite ?andb_false_r; reflexivity.
Qed.

Lemma completes_write_png_frames (dir : string) (b : bool) (c : Z) (lo hi : Qc)
    (ds : depth_seq) :
  forall j : nat,
    completes depths d (fun f => negb (bool_decide (ds = []))
                                 && call_of_format f (ImWrite dir [] []))
      (write_png_frames E dir b c lo hi j ds).
Proof.
  induction ds as [|depth rest IH]; intros j; simpl.
  - apply completes_skip.
  - eapply completes_ext; [|apply completes_seq; [apply completes_call | apply (IH (S j))]].
    intros f. destruct f; simpl; rewrite ?andb_false_r; reflexivity.
Qed.

Hypothesis some_value : ravel d <> [].

Lemma some_frame : bool_decide (d = []) = false.
Proof.
  apply bool_decide_eq_false. intros ->. apply some_value. reflexivity.
Qed.

Lemma extrema_defined : exists lo hi : Qc, np_min d = Ok lo /\ np_max d = Ok hi.
Proof.
  unfold np_min, np_max. destruct (ravel d) as [|x r]; [contradiction|].
  eexists _, _. split; reflexivity.
Qed.

Lemma completes_write_depth_video (fps : Qc) :
  completes depths d (fun f => call_of_format f (SaveVideoDepths [] "" fps false 0))
    (write_depth_video E vals file_path depths fps).
Proof.
  intros s Hs. destruct extrema_defined as (lo & hi & Hlo & Hhi).
  destruct (INVERT_METRIC vals) eqn:Hinv.
  - rewrite (run_write_depth_video_inverted E vals file_path depths fps s hi Hinv)
      by (rewrite Hs; exact Hhi).
    rewrite quiet. simpl.
    split; [reflexivity|]. split; [reflexivity|].
    split; [apply lookup_app_l_Some, Hs|].
    eexists. split; [reflexivity|]. intros f. simpl. apply orb_false_r.
  - rewrite (run_write_depth_video_plain E vals file_path depths fps s Hinv).
    rewrite quiet. simpl.
    split; [reflexivity|]. split; [reflexivity|].
    split; [apply lookup_app_l_Some, Hs|].
    eexists. split; [reflexivity|]. intros f. simpl. apply orb_false_r.
Qed.

Lemma completes_move_to_finished :
  completes depths d (fun f => RESUME vals && call_of_format f (Move "" ""))
    (move_to_finished E vals file_path).
Proof.
  unfold move_to_finished. apply completes_when. cbv zeta.
  intros s Hs. rewrite run_bind. unfold path_exists at 1. cbv beta iota.
  set (there := os_path_exists E _ || _).
  assert (Hmk : completes depths d (fun _ => false)
                  (when (negb there) (os_makedirs E (path_join (dirname file_path) "finished")))).
  { eapply completes_ext; [|apply completes_when, completes_seq;
                             [apply completes_call | apply completes_dir_made]].
    intros f. destruct f; simpl; apply andb_false_r. }
  assert (Hmv : completes depths d (fun f => call_of_format f (Move "" ""))
                  (try_except
                     (call E (Move file_path
                                (path_join (path_join (dirname file_path) "finished")
                                   (basename file_path))))
                     (fun e => write_event_value ERROR
                        (VStr ("Failed to move " +:+ file_path +:+ " to finished folder: "
                               +:+ str e))))).
  { intros s1 Hs1. rewrite run_try_except. unfold call. rewrite quiet. simpl.
    split; [reflexivity|]. split; [reflexivity|]. split; [exact Hs1|].
    eexists. split; [reflexivity|]. intros f. simpl. apply orb_false_r. }
  exact (completes_seq _ _ _ _ Hmk Hmv s Hs).
Qed.

Lemma completes_write_outputs (frames : list frame) (fps : Qc) :
  completes depths d (configured vals) (write_outputs E vals file_path frames depths fps).
Proof.
  destruct extrema_defined as (lo & hi & Hlo & Hhi).
  unfold write_outputs, write_raw_outputs.
  eapply completes_ext; [|apply completes_seq; [|apply completes_seq; [|apply completes_seq;
    [apply completes_seq; [|apply completes_seq]|]]]].
  2:{ unfold write_src_clip. apply completes_when, completes_call. }
  2:{ apply completes_write_depth_video. }
  2:{ unfold write_npz. apply completes_when. cbv zeta. apply completes_load, completes_call. }
  2:{ unfold write_exr. apply completes_when. cbv zeta.
      apply completes_seq; [apply completes_call|].
      apply completes_seq; [apply completes_dir_made|].
      apply completes_seq; [apply completes_call|].
      apply completes_load, completes_write_exr_frames. }
  2:{ unfold write_png. apply completes_when. cbv zeta.
      apply completes_seq; [apply completes_call|].
      apply completes_seq; [apply completes_dir_made|].
      apply completes_load.
      intros s Hs. rewrite run_bind. unfold lift at 1. rewrite Hlo. cbv beta iota.
      rewrite run_bind. unfold lift at 1. rewrite Hhi. cbv beta iota.
      apply completes_write_png_frames, Hs. }
  2:{ apply completes_move_to_finished. }
  intros f. rewrite some_frame.
  destruct f; simpl;
    destruct (CREATE_SRC vals), (SAVE_NPZ vals), (SAVE_EXR vals), (SAVE_PNG vals),
      (RESUME vals); reflexivity.
Qed.

End Quiet.

(** X5. When no external call fails and the depth sequence holds at least
    one value, the output writer returns without putting any message,
    leaves the depth array as it was, and the formats it has written are
    exactly those the configuration asks for (the depth video always). *)
Theorem quiet_run_writes_what_is_configured (E : env) (vals : values) (file_path : string)
    (frames : list frame) (depths : loc) (fps : Qc) (d : depth_seq) (s : state) :
  (forall a : action, ext_raises E a = None) ->
  heap s !! depths = Some d ->
  ravel d <> [] ->
  let r := run (save_outputs E vals file_path frames depths fps) s in
  fst r = Ok tt /\
  update_queue (snd r) = update_queue s /\
  heap (snd r) !! depths = Some d /\
  exists l : list action,
    calls (snd r) = calls s ++ l /\
    forall f : output_format, attempted f l = configured vals f.
Proof.
  intros Hquiet Hd Hsome. unfold run, save_outputs. cbv zeta. rewrite run_try_except.
  destruct (completes_write_outputs E vals file_path depths d Hquiet Hsome frames fps s Hd)
    as (Hr & Hq & Hh & l & Hc & Hl).
  destruct (write_outputs E vals file_path frames depths fps s) as [r1 s1].
  simpl in Hr, Hq, Hh, Hc. subst r1. simpl.
  split; [reflexivity|]. split; [exact Hq|]. split; [exact Hh|].
  exists l. split; [exact Hc | exact Hl].
Qed.

Lemma quiet_run_writes_what_is_configured_witness :
  let s := mkState [] [] [] [ramp_depths] in
  let r := run (save_outputs calm_env one_file_values "/videos/a.mp4" [sample_frame] 0
                  (Qc_of_Z 24)) s in
  fst r = Ok tt /\
  update_queue (snd r) = update_queue s /\
  heap (snd r) !! 0%nat = Some ramp_depths /\
  exists l : list action,
    calls (snd r) = calls s ++ l /\
    forall f : output_format, attempted f l = configured one_file_values f.
Proof.
  refine (quiet_run_writes_what_is_configured calm_env one_file_values "/videos/a.mp4"
            [sample_frame] 0%nat (Qc_of_Z 24) ramp_depths (mkState [] [] [] [ramp_depths])
            (fun _ => eq_refl) eq_refl _).
  intros H. discriminate H.
Defined.

(** ** The frame files *)

Section Frames.

Variable E : env.

Lemma made_in_order_nil (s : state) : made_in_order E [] s (Ok tt, s).
Proof.
  split; [reflexivity|]. exists 0%nat. simpl.
  split; [symmetry; apply app_nil_r|]. split; [constructor|].
  split; [reflexivity | constructor].
Qed.

(** One call followed by a loop that makes the rest in order. *)
Lemma made_in_order_cons (a : action) (plan : list action) (rest : M unit) (s : state) :
  (forall s1, made_in_order E plan s1 (rest s1)) ->
  made_in_order E (a :: plan) s ((call E a;; rest) s).
Proof.
  intros Hrest. rewrite run_bind. unfold call.
  destruct (ext_raises E a) as [e|] eqn:Ha.
  - split; [reflexivity|]. exists 1%nat. simpl.
    split; [reflexivity|]. split; [constructor|].
    exists a. split; [reflexivity|]. split; [lia | exact Ha].
  - match goal with |- context [rest ?st] => set (s1 := st) end.
    destruct (Hrest s1) as (Hq & m & Hc & Hpre & Hcase).
    split; [rewrite Hq; reflexivity|].
    exists (S m). split; [rewrite Hc; subst s1; simpl; rewrite <- app_assoc; reflexivity|].
    assert (Hall : Forall (ok_call E) (take m plan) -> Forall (ok_call E) (take m (a :: plan))).
    { intros Hm. destruct m as [|m']; [constructor|]. simpl. simpl in Hpre.
      constructor; [exact Ha | exact Hpre]. }
    destruct (fst (rest s1)) as [[]|e].
    + destruct Hcase as [-> Hok]. simpl pred.
      split; [apply Hall; rewrite firstn_all; exact Hok|].
      split; [reflexivity | constructor; [exact Ha | exact Hok]].
    + destruct Hcase as (b & Hb & Hm & Hraise). simpl pred.
      split.
      { destruct m as [|m']; [lia|]. simpl. simpl in Hpre.
        constructor; [exact Ha | exact Hpre]. }
      exists b. split; [|split; [lia | exact Hraise]].
      destruct m as [|m']; [lia|]. exact Hb.
Qed.

Lemma write_exr_frames_in_order (depth_exr_dir : string) (depths : depth_seq) :
  forall (j : nat) (s : state),
    made_in_order E (exr_writes depth_exr_dir j depths) s
      (write_exr_frames E depth_exr_dir j depths s).
Proof.
  induction depths as [|depth rest IH]; intros j s.
  - apply made_in_order_nil.
  - apply (made_in_order_cons _ (exr_writes depth_exr_dir (S j) rest)). apply IH.
Qed.

Lemma write_png_frames_in_order (depth_png_dir : string) (png_16bit : bool)
    (png_compression : Z) (d_min d_max : Qc) (depths : depth_seq) :
  forall (j : nat) (s : state),
    made_in_order E (png_writes depth_png_dir png_16bit png_compression d_min d_max j depths) s
      (write_png_frames E depth_png_dir png_16bit png_compression d_min d_max j depths s).
Proof.
  induction depths as [|depth rest IH]; intros j s.
  - apply made_in_order_nil.
  - apply (made_in_order_cons _
             (png_writes depth_png_dir png_16bit png_compression d_min d_max (S j) rest)).
    apply IH.
Qed.

End Frames.

(** X6. The EXR loop and the PNG loop make one write per frame, in the
    order of the frames, frame n under the name [frame_] n in five digits,
    and stop at the first write that raises: the writes made form an
    initial part of the planned ones, the write that raised is the last
    one made, and its exception is the one passed on.  A write that does
    not raise, whatever it returns, is followed by the next one: the loops
    do not look at what a write returns. *)
Theorem frame_files_are_written_in_order (E : env) (dir : string) (png_16bit : bool)
    (png_compression : Z) (d_min d_max : Qc) (depths : depth_seq) (s : state) :
  made_in_order E (exr_writes dir 0 depths) s (run (write_exr_frames E dir 0 depths) s) /\
  made_in_order E (png_writes dir png_16bit png_compression d_min d_max 0 depths) s
    (run (write_png_frames E dir png_16bit png_compression d_min d_max 0 depths) s).
Proof.
  split; [apply write_exr_frames_in_order | apply write_png_frames_in_order].
Qed.

(** ** Test-time augmentation and mirroring *)

Lemma flip_flip {A : Type} (m : list (list A)) : np_flip_axis1 (np_flip_axis1 m) = m.
Proof.
  unfold np_flip_axis1. rewrite map_map. rewrite <- (map_id m) at 2.
  apply map_ext. intros row. apply rev_involutive.
Qed.

Lemma map_flip_flip {A : Type} (l : list (list (list A))) :
  map np_flip_axis1 (map np_flip_axis1 l) = l.
Proof.
  rewrite map_map. rewrite <- (map_id l) at 2. apply map_ext, flip_flip.
Qed.

Lemma rev_zip_with {A B C : Type} (f : A -> B -> C) (l : list A) :
  forall k : list B,
    length l = length k -> rev (zip_with f l k) = zip_with f (rev l) (rev k).
Proof.
  induction l as [|a l IH]; intros [|b k] Hlen; try discriminate Hlen; [reflexivity|].
  simpl. injection Hlen as Hlen. rewrite IH by exact Hlen.
  rewrite zip_with_app by (rewrite !length_rev; exact Hlen). reflexivity.
Qed.

Lemma flip_average2 (a : depth_map) :
  forall b : depth_map,
    dims a = dims b ->
    np_flip_axis1 (average2 a b) = average2 (np_flip_axis1 a) (np_flip_axis1 b).
Proof.
  induction a as [|r1 a IH]; intros [|r2 b] H; try discriminate H; [reflexivity|].
  simpl in H. injection H as Hr Hab. unfold np_flip_axis1, average2 in *. simpl.
  rewrite (rev_zip_with _ r1 r2 Hr). f_equal. apply IH, Hab.
Qed.

Lemma average2_comm (a : depth_map) : forall b : depth_map, average2 a b = average2 b a.
Proof.
  assert (Hrow : forall r1 r2 : list Qc,
             zip_with (fun x y => ((x + y) / 2)%Qc) r1 r2
             = zip_with (fun x y => ((x + y) / 2)%Qc) r2 r1).
  { induction r1 as [|x r1 IH]; intros [|y r2]; try reflexivity.
    simpl. rewrite (Qcplus_comm x y). f_equal. apply IH. }
  induction a as [|r1 a IH]; intros [|r2 b]; try reflexivity.
  unfold average2 in *. simpl. rewrite (Hrow r1 r2). f_equal. apply IH.
Qed.

Lemma flip_averages (d1 : depth_seq) :
  forall d2 : depth_seq,
    map dims d1 = map dims d2 ->
    map np_flip_axis1 (zip_with average2 d1 d2)
    = zip_with average2 (map np_flip_axis1 d2) (map np_flip_axis1 d1).
Proof.
  induction d1 as [|a d1 IH]; intros [|b d2] H; try discriminate H; [reflexivity|].
  simpl in H. injection H as Hab Hd. simpl.
  rewrite (flip_average2 a b Hab), (average2_comm (np_flip_axis1 a)). f_equal. apply IH, Hd.
Qed.

(** X7. Test-time augmentation commutes with mirroring, whatever the
    engine: when the engine answers the clip and its mirror image with one
    map per frame of the frame's dimensions, the augmented estimate of the
    mirrored clip is the mirror image of the augmented estimate of the
    clip. *)
Theorem tta_commutes_with_mirroring (E : env) (frames frames_array : list frame)
    (actual_target_fps : Qc) (input_size : Z) (DEVICE : string) (fp32 : bool)
    (d1 d2 : depth_seq) (f1 f2 : Qc) :
  np_stack frames = Ok frames_array ->
  infer_video_depth E frames_array actual_target_fps input_size DEVICE fp32 = Ok (d1, f1) ->
  infer_video_depth E (map np_flip_axis1 frames) actual_target_fps input_size DEVICE fp32
  = Ok (d2, f2) ->
  map dims d1 = map dims frames ->
  map dims d2 = map dims (map np_flip_axis1 frames) ->
  exists (mirrored_array : list frame) (d_tta : depth_seq),
    np_stack (map np_flip_axis1 frames) = Ok mirrored_array /\
    infer_depths E true frames frames_array actual_target_fps input_size DEVICE fp32
    = Ok (d_tta, f1) /\
    infer_depths E true (map np_flip_axis1 frames) mirrored_array actual_target_fps
      input_size DEVICE fp32
    = Ok (map np_flip_axis1 d_tta, f2).
Proof.
  intros Hstack H1 H2 Hd1 Hd2.
  pose proof (np_stack_ok _ _ Hstack) as ->.
  assert (Hback : map dims d1 = map dims (map np_flip_axis1 d2)).
  { rewrite map_dims_flip, Hd2, map_dims_flip, Hd1. reflexivity. }
  assert (Hflipped : np_stack (map np_flip_axis1 frames) = Ok (map np_flip_axis1 frames)).
  { eapply np_stack_by_shapes; [|exact Hstack]. apply dims_shape.
    symmetry. apply map_dims_flip. }
  assert (Hstacked : np_stack (zip_with average2 d1 (map np_flip_axis1 d2))
                     = Ok (zip_with average2 d1 (map np_flip_axis1 d2))).
  { eapply np_stack_by_shapes; [|exact Hstack]. apply dims_shape.
    rewrite (map_dims_average2 _ _ Hback), Hd1. reflexivity. }
  assert (Hmirror : map np_flip_axis1 (zip_with average2 d1 (map np_flip_axis1 d2))
                    = zip_with average2 d2 (map np_flip_axis1 d1)).
  { rewrite (flip_averages _ _ Hback), map_flip_flip. reflexivity. }
  assert (Hstacked' : np_stack (zip_with average2 d2 (map np_flip_axis1 d1))
                      = Ok (zip_with average2 d2 (map np_flip_axis1 d1))).
  { eapply np_stack_by_shapes; [|exact Hstack]. apply dims_shape.
    rewrite <- Hmirror, map_dims_flip, (map_dims_average2 _ _ Hback), Hd1. reflexivity. }
  exists (map np_flip_axis1 frames), (zip_with average2 d1 (map np_flip_axis1 d2)).
  split; [exact Hflipped|]. split.
  - unfold infer_depths. rewrite H1, run_rbind. cbv beta iota.
    rewrite Hflipped, run_rbind, H2, run_rbind. cbv beta iota zeta.
    rewrite Hstacked. reflexivity.
  - unfold infer_depths. rewrite H2, run_rbind. cbv beta iota.
    rewrite map_flip_flip, Hstack, run_rbind, H1, run_rbind. cbv beta iota zeta.
    rewrite Hstacked', Hmirror. reflexivity.
Qed.

Lemma tta_commutes_with_mirroring_witness :
  exists (mirrored_array : list frame) (d_tta : depth_seq),
    np_stack (map np_flip_axis1 [sample_frame]) = Ok mirrored_array /\
    infer_depths calm_env true [sample_frame] [sample_frame] (Qc_of_Z 24) 518 "cpu" false
    = Ok (d_tta, Qc_of_Z 24) /\
    infer_depths calm_env true (map np_flip_axis1 [sample_frame]) mirrored_array
      (Qc_of_Z 24) 518 "cpu" false
    = Ok (map np_flip_axis1 d_tta, Qc_of_Z 24).
Proof.
  exact (tta_commutes_with_mirroring calm_env [sample_frame] [sample_frame] (Qc_of_Z 24)
           518 "cpu" false (red_depth [sample_frame])
           (red_depth (map np_flip_axis1 [sample_frame])) (Qc_of_Z 24) (Qc_of_Z 24)
           eq_refl eq_refl eq_refl eq_refl eq_refl).
Defined.

(** ** The normalized PNG frames keep the order of the depths *)

Lemma Qc_trunc_mono (x y : Qc) :
  (0 <= this x)%Q -> (this x <= this y)%Q -> (Qc_trunc x <= Qc_trunc y)%Z.
Proof.
  unfold Qle, Qc_trunc. simpl. intros H0 Hxy.
  assert (Hx : (0 <= Qnum x)%Z) by lia.
  assert (Hy : (0 <= Qnum y)%Z) by nia.
  rewrite !Z.quot_div_nonneg by lia.
  apply Z.div_le_lower_bound; [lia|].
  pose proof (Z.mul_div_le (Qnum x) (Z.pos (Qden x)) ltac:(lia)) as Hfloor.
  nia.
Qed.

Lemma Qc_trunc_of_Z (n : Z) : Qc_trunc (Qc_of_Z n) = n.
Proof.
  unfold Qc_trunc, Qc_of_Z. simpl.
  rewrite (Qred_identity (inject_Z n)) by (simpl; apply Z.gcd_1_r).
  simpl. apply Z.quot_1_r.
Qed.

Lemma Q_scaled_ratio_mono (a a' b k : Q) :
  (a <= a')%Q -> (0 < b)%Q -> (0 <= k)%Q -> (a / b * k <= a' / b * k)%Q.
Proof.
  intros Ha Hb Hk. apply Qmult_le_compat_r; [|exact Hk].
  unfold Qdiv. apply Qmult_le_compat_r; [exact Ha|].
  apply Qinv_le_0_compat, Qlt_le_weak, Hb.
Qed.

Lemma norm_pixel_mono (bits : N) (scale : Z) (d_min d_max v w : Qc) :
  (d_min <= v)%Qc -> (v <= w)%Qc -> (w <= d_max)%Qc -> d_min <> d_max ->
  (0 <= scale < 2 ^ Z.of_N bits)%Z ->
  exists n m : Z,
    norm_pixel bits scale d_min d_max v = Some n /\
    norm_pixel bits scale d_min d_max w = Some m /\
    (0 <= n <= m)%Z /\ (m <= scale)%Z.
Proof.
  intros Hlo Hvw Hhi Hne Hscale. unfold norm_pixel, np_true_divide.
  destruct (Qc_eq_dec _ _) as [Heq|Hnz].
  { apply Qcminus_eq_0 in Heq. congruence. }
  eexists _, _. split; [reflexivity|]. split; [reflexivity|].
  unfold astype_uint.
  assert (Hlt : (d_min < d_max)%Qc).
  { destruct (Qcle_lt_or_eq d_min d_max) as [H | H]; [|exact H | congruence].
    eapply Qcle_trans; [exact Hlo|]. eapply Qcle_trans; eassumption. }
  unfold Qcle, Qclt in *.
  assert (Hk : (0 <= inject_Z scale)%Q).
  { change 0%Q with (inject_Z 0). rewrite <- Zle_Qle. lia. }
  destruct (Q_scaled_ratio_bounds (this v - this d_min) (this d_max - this d_min)
              (inject_Z scale)) as [V0 V1]; try lra.
  destruct (Q_scaled_ratio_bounds (this w - this d_min) (this d_max - this d_min)
              (inject_Z scale)) as [W0 W1]; try lra.
  pose proof (Q_scaled_ratio_mono (this v - this d_min) (this w - this d_min)
                (this d_max - this d_min) (inject_Z scale)
                ltac:(lra) ltac:(lra) Hk) as Hmono.
  assert (Hv : (0 <= Qc_trunc ((v - d_min) / (d_max - d_min) * Qc_of_Z scale) <= scale)%Z).
  { apply Qc_trunc_range; rewrite this_mult, this_div, !this_minus, this_of_Z; assumption. }
  assert (Hw : (0 <= Qc_trunc ((w - d_min) / (d_max - d_min) * Qc_of_Z scale) <= scale)%Z).
  { apply Qc_trunc_range; rewrite this_mult, this_div, !this_minus, this_of_Z; assumption. }
  assert (Hm : (Qc_trunc ((v - d_min) / (d_max - d_min) * Qc_of_Z scale)
                <= Qc_trunc ((w - d_min) / (d_max - d_min) * Qc_of_Z scale))%Z).
  { apply Qc_trunc_mono.
    - rewrite this_mult, this_div, !this_minus, this_of_Z. exact V0.
    - rewrite !this_mult, !this_div, !this_minus, this_of_Z. exact Hmono. }
  rewrite !Z.mod_small by lia. lia.
Qed.

Lemma norm_pixel_ends (bits : N) (scale : Z) (d_min d_max : Qc) :
  d_min <> d_max -> (0 <= scale < 2 ^ Z.of_N bits)%Z ->
  norm_pixel bits scale d_min d_max d_min = Some 0%Z /\
  norm_pixel bits scale d_min d_max d_max = Some scale.
Proof.
  intros Hne Hscale. unfold norm_pixel, np_true_divide.
  destruct (Qc_eq_dec _ _) as [Heq|Hnz].
  { apply Qcminus_eq_0 in Heq. congruence. }
  unfold astype_uint. split; f_equal.
  - replace ((d_min - d_min) / (d_max - d_min) * Qc_of_Z scale)%Qc with (Qc_of_Z 0).
    + rewrite Qc_trunc_of_Z. apply Z.mod_0_l. lia.
    + change (Qc_of_Z 0) with 0%Qc. field. exact Hnz.
  - replace ((d_max - d_min) / (d_max - d_min) * Qc_of_Z scale)%Qc with (Qc_of_Z scale).
    + rewrite Qc_trunc_of_Z. apply Z.mod_small. lia.
    + field. exact Hnz.
Qed.

(** X8. When the extrema of the sequence differ, the PNG frames keep the
    order of the depths: the minimum becomes 0, the maximum becomes the
    full scale (255, or 65535 in 16-bit frames), and of two depths of the
    sequence the larger never gets the smaller pixel value.  The pixel of
    a frame is the normalized value of the depth at its place. *)
Theorem png_normalization_keeps_order (depths : depth_seq) (d_min d_max : Qc)
    (png_16bit : bool) :
  np_min depths = Ok d_min ->
  np_max depths = Ok d_max ->
  d_min <> d_max ->
  let scale := (if png_16bit then 65535 else 255)%Z in
  let px := norm_pixel (if png_16bit then 16 else 8) scale d_min d_max in
  px d_min = Some 0%Z /\
  px d_max = Some scale /\
  (forall v w : Qc,
     In v (ravel depths) -> In w (ravel depths) -> (v <= w)%Qc ->
     exists n m : Z, px v = Some n /\ px w = Some m /\ (0 <= n <= m)%Z /\ (m <= scale)%Z) /\
  (forall (depth : depth_map) (r c : nat) (v : Qc),
     at2 depth r c = Some v ->
     at2 (png_image png_16bit d_min d_max depth) r c = Some (px v)).
Proof.
  intros Hmin Hmax Hne scale px.
  assert (Hscale : (0 <= scale < 2 ^ Z.of_N (if png_16bit then 16 else 8))%Z).
  { subst scale. destruct png_16bit; simpl; lia. }
  destruct (norm_pixel_ends _ scale d_min d_max Hne Hscale) as [H0 H1].
  split; [exact H0|]. split; [exact H1|]. split.
  - intros v w Hv Hw Hvw.
    pose proof (np_min_le _ _ Hmin) as Hlo. pose proof (np_max_ge _ _ Hmax) as Hhi.
    rewrite Forall_forall in Hlo, Hhi.
    apply list_elem_of_In in Hv, Hw.
    apply norm_pixel_mono; auto.
  - intros depth r c v Hv. subst px scale. unfold png_image.
    destruct png_16bit; rewrite at2_map2d, Hv; reflexivity.
Qed.

Lemma png_normalization_keeps_order_witness :
  let px := norm_pixel 8 255 (Qc_of_Z 0) (Qc_of_Z 10) in
  px (Qc_of_Z 0) = Some 0%Z /\
  px (Qc_of_Z 10) = Some 255%Z /\
  (forall v w : Qc,
     In v (ravel ramp_depths) -> In w (ravel ramp_depths) -> (v <= w)%Qc ->
     exists n m : Z, px v = Some n /\ px w = Some m /\ (0 <= n <= m)%Z /\ (m <= 255)%Z) /\
  (forall (depth : depth_map) (r c : nat) (v : Qc),
     at2 depth r c = Some v ->
     at2 (png_image false (Qc_of_Z 0) (Qc_of_Z 10) depth) r c = Some (px v)).
Proof.
  refine (png_normalization_keeps_order ramp_depths (Qc_of_Z 0) (Qc_of_Z 10) false
            eq_refl eq_refl _).
  intros H. discriminate H.
Defined.

(** ** The encoder helper reports once and never raises *)

(** X9. [run_h26x_encoding] never raises: whatever the mode and whatever
    ffmpeg does, it returns after putting exactly one message and running
    at most one subprocess.  The message is the status ['Encoding
    complete: ...'] exactly when a subprocess was run and did not fail;
    otherwise it is an error message. *)
Theorem h26x_reports_once (E : env) (input_dir output_path codec_mode fps crf : string)
    (invert_vis : bool) (s : state) :
  let r := run (run_h26x_encoding E input_dir output_path codec_mode fps crf invert_vis) s in
  fst r = Ok tt /\
  (exists l : list action, calls (snd r) = calls s ++ l /\ (length l <= 1)%nat) /\
  exists (k : key) (msg : string),
    update_queue (snd r) = update_queue s ++ [(k, VStr msg)] /\
    (k = STATUS_UPDATE \/ k = ERROR) /\
    (k = STATUS_UPDATE <->
     msg = "Encoding complete: " +:+ basename output_path /\
     exists command : list string,
       calls (snd r) = calls s ++ [SubprocessRun command] /\
       ext_raises E (SubprocessRun command) = None).
Proof.
  unfold run, run_h26x_encoding. cbv zeta.
  destruct (codec_map !! codec_mode) as [[[[codec profile] pix_fmt] is_10bit]|].
  2:{ split; [reflexivity|]. split; [exists []; split; [symmetry; apply app_nil_r | simpl; lia]|].
      eexists ERROR, _. split; [reflexivity|]. split; [right; reflexivity|].
      split; [discriminate|]. intros (_ & c & Hc & _). simpl in Hc.
      apply (f_equal (@length action)) in Hc. rewrite length_app in Hc. simpl in Hc. lia. }
  rewrite run_bind. unfold attempt, call.
  match goal with |- context [ext_raises E ?a] => set (act := a) end.
  destruct (ext_raises E act) as [e|] eqn:He.
  - assert (Hno : ~ (exists command : list string,
                       calls s ++ [act] = calls s ++ [SubprocessRun command] /\
                       ext_raises E (SubprocessRun command) = None)).
    { intros (c & Hc & Hok). apply app_inv_head in Hc.
      assert (Ha : act = SubprocessRun c) by congruence.
      rewrite <- Ha, He in Hok. discriminate Hok. }
    destruct e; simpl;
      (split; [reflexivity|];
       split; [exists [act]; split; [reflexivity | simpl; lia]|];
       eexists ERROR, _; split; [reflexivity|]; split; [right; reflexivity|];
       split; [discriminate | intros [_ H]; exfalso; exact (Hno H)]).
  - simpl. split; [reflexivity|].
    split; [exists [act]; split; [reflexivity | simpl; lia]|].
    eexists STATUS_UPDATE, _. split; [reflexivity|]. split; [left; reflexivity|].
    split; [|reflexivity]. intros _. split; [reflexivity|].
    eexists. split; [reflexivity | exact He].
Qed.

(** ** The numbers that are converted inside the loop *)

Section BadNumbers.

Variable E : env.
Variable vals : values.
Variable input_size max_res : Z.
Variable DEVICE : string.
Variable total_files : nat.

(** The messages of a batch in which no file decodes, with the exception
    of each file. *)
Lemma process_files_none_decodes (e : string -> exn) (files : list string) :
  (forall i, stop_is_set E i = false) ->
  (forall f, In f files -> read_frames E vals max_res f = Raise (e f)) ->
  forall (i : nat) (s : state),
    process_files E vals input_size max_res DEVICE total_files i files s
    = (Ok true,
       mkState (update_queue s ++
                concat (zip_with
                          (fun n f => [status_line n total_files f; read_error f (e f);
                                       progress n])
                          (seq i (length files)) files))
               (calls s) (made_dirs s) (heap s)).
Proof.
  intros Hstop. induction files as [|f rest IH]; intros Hread i s; simpl.
  - rewrite app_nil_r. destruct s; reflexivity.
  - rewrite Hstop, run_bind.
    rewrite (process_file_read_raises E vals input_size max_res DEVICE total_files i f (e f) s)
      by (apply Hread; left; reflexivity).
    rewrite IH by (intros g Hg; apply Hread; right; exact Hg).
    simpl. rewrite <- app_assoc. reflexivity.
Qed.

End BadNumbers.

(** X10. Max Len and Target FPS are converted to integers inside the
    [try] that reads the frames, once per file.  When one of the two
    fields holds no integer literal, every file of a batch that is not
    cancelled is reported as a reading error with the [ValueError] of
    [int()], no external call is made, and the batch still ends with
    ['Completed']. *)
Theorem unchecked_numbers_fail_every_file (E : env) (vals : values) (input_size max_res : Z)
    (DEVICE : string) (files : list string) (s : state) :
  py_int E (MAX_LEN vals) = None \/ py_int E (TARGET_FPS vals) = None ->
  (forall i, stop_is_set E i = false) ->
  exists bad : string,
    (bad = MAX_LEN vals \/ bad = TARGET_FPS vals) /\
    let e := ValueError ("invalid literal for int() with base 10: '" +:+ bad +:+ "'") in
    run (run_batch E vals input_size max_res DEVICE files) s
    = (Ok tt,
       mkState (update_queue s ++ [(SET_MAX, VInt (length files))] ++
                concat (zip_with
                          (fun n f => [status_line n (length files) f; read_error f e;
                                       progress n])
                          (seq 0 (length files)) files) ++
                [completed_message])
               (calls s) (made_dirs s) (heap s)).
Proof.
  intros Hbad Hstop.
  assert (Hread : exists bad : string,
             (bad = MAX_LEN vals \/ bad = TARGET_FPS vals) /\
             forall f, read_frames E vals max_res f
                       = Raise (ValueError ("invalid literal for int() with base 10: '"
                                            +:+ bad +:+ "'"))).
  { unfold read_frames, int_or_raise.
    destruct (py_int E (MAX_LEN vals)) as [n|] eqn:Hlen.
    - destruct Hbad as [Hbad | Hbad]; [discriminate Hbad|].
      exists (TARGET_FPS vals). split; [right; reflexivity|].
      intros f. rewrite Hbad. reflexivity.
    - exists (MAX_LEN vals). split; [left; reflexivity|]. intros f. reflexivity. }
  destruct Hread as (bad & Hwhich & Hread).
  exists bad. split; [exact Hwhich|]. cbv zeta. unfold run.
  rewrite run_run_batch.
  rewrite (process_files_none_decodes E vals input_size max_res DEVICE (length files)
             (fun _ => ValueError ("invalid literal for int() with base 10: '" +:+ bad +:+ "'"))
             files Hstop (fun f _ => Hread f)).
  simpl. rewrite <- !app_assoc. reflexivity.
Qed.

Lemma unchecked_numbers_fail_every_file_witness :
  exists bad : string,
    (bad = "all" \/ bad = "-1") /\
    let e := ValueError ("invalid literal for int() with base 10: '" +:+ bad +:+ "'") in
    run (run_batch calm_env bad_numbers_values 518 1280 "cpu" ["/videos/a.mp4"]) initial_state
    = (Ok tt,
       mkState ([] ++ [(SET_MAX, VInt 1)] ++
                concat (zip_with
                          (fun n f => [status_line n 1 f; read_error f e; progress n])
                          (seq 0 1) ["/videos/a.mp4"]) ++
                [completed_message])
               [] [] []).
Proof.
  exact (unchecked_numbers_fail_every_file calm_env bad_numbers_values 518 1280 "cpu"
           ["/videos/a.mp4"] initial_state (or_introl eq_refl) (fun _ => eq_refl)).
Defined.

(** * Properties of the tooltips *)

Lemma after_cancel_one (n : nat) : ToolTip.after_cancel n [n] = [].
Proof. unfold ToolTip.after_cancel. simpl. rewrite Nat.eqb_refl. reflexivity. Qed.

Lemma unschedule_tidy (t : ToolTip.tip) :
  ToolTip.tidy t ->
  ToolTip.timers (ToolTip.unschedule t) = [] /\
  ToolTip.id (ToolTip.unschedule t) = None /\
  ToolTip.windows (ToolTip.unschedule t) = ToolTip.windows t /\
  ToolTip.tip_window (ToolTip.unschedule t) = ToolTip.tip_window t /\
  ToolTip.text (ToolTip.unschedule t) = ToolTip.text t.
Proof.
  intros [[Ht | (n & Hid & Ht)] _]; unfold ToolTip.unschedule.
  - destruct (ToolTip.id t); simpl; rewrite Ht; repeat split; reflexivity.
  - rewrite Hid. simpl. rewrite Ht, after_cancel_one. repeat split; reflexivity.
Qed.

Lemma schedule_tidy (t : ToolTip.tip) : ToolTip.tidy t -> ToolTip.tidy (ToolTip.schedule t).
Proof.
  intros Ht. destruct (unschedule_tidy t Ht) as (Htm & _ & Hw & Htw & Htx).
  destruct Ht as [_ Hwin]. unfold ToolTip.schedule. split; simpl.
  - right. eexists. split; [reflexivity|]. rewrite Htm. reflexivity.
  - rewrite Htw, Hw, Htx. exact Hwin.
Qed.

Lemma hidetip_clears (t : ToolTip.tip) :
  ToolTip.tidy t ->
  ToolTip.timers (ToolTip.hidetip t) = [] /\ ToolTip.windows (ToolTip.hidetip t) = [] /\
  ToolTip.tip_window (ToolTip.hidetip t) = None /\ ToolTip.id (ToolTip.hidetip t) = None.
Proof.
  intros Ht. destruct (unschedule_tidy t Ht) as (Htm & Hid & Hw & Htw & Htx).
  destruct Ht as [_ Hwin]. unfold ToolTip.hidetip. rewrite Htw.
  destruct (ToolTip.tip_window t) as [w|]; simpl.
  - destruct Hwin as (pos & Hwin & _). rewrite Htm, Hid, Hw, Hwin.
    unfold ToolTip.destroy. simpl. rewrite Nat.eqb_refl. repeat split; reflexivity.
  - rewrite Htm, Hid, Hw, Hwin. repeat split; reflexivity.
Qed.

Lemma hidetip_tidy (t : ToolTip.tip) : ToolTip.tidy t -> ToolTip.tidy (ToolTip.hidetip t).
Proof.
  intros Ht. destruct (hidetip_clears t Ht) as (Htm & Hw & Htw & _).
  split; [left; exact Htm | rewrite Htw; exact Hw].
Qed.

Lemma showtip_tidy (a : ToolTip.answer) (t : ToolTip.tip) :
  ToolTip.timers t = [] \/ (exists n, ToolTip.id t = Some n /\ ToolTip.timers t = [n]) ->
  match ToolTip.tip_window t with
  | None => ToolTip.windows t = []
  | Some w => exists pos, ToolTip.windows t = [ToolTip.mkToplevel w pos (ToolTip.text t)] /\
                          ToolTip.text t <> ""
  end ->
  ToolTip.tidy (snd (ToolTip.showtip a t)).
Proof.
  intros Htm Hwin. unfold ToolTip.showtip.
  destruct (ToolTip.tip_window t) as [w|] eqn:Htw.
  - rewrite bool_decide_eq_true_2 by discriminate. simpl.
    split; [exact Htm | rewrite Htw; exact Hwin].
  - rewrite bool_decide_eq_false_2 by (intros H; apply H; reflexivity). simpl.
    destruct (String.eqb (ToolTip.text t) "") eqn:Hx; simpl.
    { split; [exact Htm | rewrite Htw; exact Hwin]. }
    destruct (ToolTip.bbox a) as [[[[x y] ?] ?]|e]; simpl.
    + split; simpl; [exact Htm|]. rewrite Hwin. simpl.
      eexists. split; [reflexivity|]. apply String.eqb_neq, Hx.
    + split; [exact Htm | rewrite Htw; exact Hwin].
Qed.

Lemma deliver_tidy (t : ToolTip.tip) (d : ToolTip.delivery) :
  ToolTip.tidy t -> ToolTip.tidy (ToolTip.deliver t d).
Proof.
  intros Ht. destruct d as [| |n a]; simpl.
  - apply schedule_tidy, Ht.
  - apply hidetip_tidy, Ht.
  - destruct (existsb (Nat.eqb n) (ToolTip.timers t)) eqn:Hn; [|exact Ht].
    destruct Ht as [Htm Hwin]. apply showtip_tidy; simpl; [|exact Hwin].
    left. destruct Htm as [Htm | (m & _ & Htm)]; rewrite Htm in Hn |- *.
    + discriminate Hn.
    + simpl in Hn. rewrite orb_false_r in Hn. apply Nat.eqb_eq in Hn. subst m.
      apply after_cancel_one.
Qed.

Lemma deliver_all_tidy (ds : list ToolTip.delivery) :
  forall t : ToolTip.tip, ToolTip.tidy t -> ToolTip.tidy (ToolTip.deliver_all t ds).
Proof.
  induction ds as [|d ds IH]; intros t Ht; simpl; [exact Ht|].
  apply IH, deliver_tidy, Ht.
Qed.

(** X11. Whatever the pointer and the timers do, a tooltip never has more
    than one timer pending nor more than one window open, an open window
    shows the text of the tip, which is not empty, and once the pointer
    has left the widget no timer is pending and no window is open. *)
Theorem tooltip_keeps_one_timer_and_one_window (text : string) (fresh : nat)
    (ds : list ToolTip.delivery) :
  let t := ToolTip.deliver_all (ToolTip.init text fresh) ds in
  let left := ToolTip.deliver t ToolTip.Leave in
  (length (ToolTip.timers t) <= 1)%nat /\
  (length (ToolTip.windows t) <= 1)%nat /\
  Forall (fun w => ToolTip.label_text w = text /\ text <> "") (ToolTip.windows t) /\
  ToolTip.timers left = [] /\ ToolTip.windows left = [].
Proof.
  intros t left.
  assert (Htext : forall (ds' : list ToolTip.delivery) (t0 : ToolTip.tip),
             ToolTip.text (ToolTip.deliver_all t0 ds') = ToolTip.text t0).
  { induction ds' as [|d ds' IH]; intros t0; simpl; [reflexivity|]. rewrite IH.
    destruct d as [| |n a]; simpl.
    - unfold ToolTip.unschedule. destruct (ToolTip.id t0); reflexivity.
    - unfold ToolTip.hidetip, ToolTip.unschedule.
      destruct (ToolTip.id t0); simpl; destruct (ToolTip.tip_window t0); reflexivity.
    - destruct (existsb _ _); [|reflexivity]. unfold ToolTip.showtip. simpl.
      destruct (bool_decide _ || _); [reflexivity|].
      destruct (ToolTip.bbox a) as [[[[x y] ?] ?]|e]; reflexivity. }
  assert (Ht : ToolTip.tidy t).
  { apply deliver_all_tidy. split; [left; reflexivity | reflexivity]. }
  assert (Hx : ToolTip.text t = text) by (subst t; rewrite Htext; reflexivity).
  destruct (hidetip_clears t Ht) as (Hl1 & Hl2 & _).
  destruct Ht as [Htm Hwin].
  split; [destruct Htm as [-> | (n & _ & ->)]; simpl; lia|].
  destruct (ToolTip.tip_window t) as [w|].
  - destruct Hwin as (pos & -> & Hne). rewrite Hx in Hne. simpl.
    split; [lia|]. split; [|split; assumption].
    constructor; [|constructor]. simpl. split; [exact Hx | exact Hne].
  - rewrite Hwin. simpl. split; [lia|]. split; [constructor | split; assumption].
Qed.

(** * Properties of the window *)

(** ** The settings survive closing and reopening *)

Lemma save_then_load (tk : tk_answers) (vs : variables)
    (file file' : settings_file_content) :
  save_settings tk vs file = (Ok tt, file') ->
  exists d : gmap string json_value,
    file' = JsonDict d /\
    current_values tk vs = Ok d /\
    current_values tk (create_variables (load_settings file')) = Ok d.
Proof.
  unfold save_settings. destruct (current_values tk vs) as [d|e] eqn:Hd; [|discriminate].
  destruct (open_raises tk); [discriminate|]. intros [= <-].
  exists d. split; [reflexivity|]. split; [reflexivity|].
  unfold current_values in Hd. cbv zeta in Hd. rewrite !run_rbind in Hd.
  repeat match type of Hd with
         | context [match ?g with Ok _ => _ | Raise _ => _ end] =>
             destruct g; [|discriminate Hd]; rewrite ?run_rbind in Hd
         end.
  injection Hd as <-. vm_compute. reflexivity.
Qed.

(** X12. What [save_settings] writes is read back in full: when saving
    succeeds, the variables that [load_settings] and [create_variables]
    build from the file give, for each of the twenty settings, the reading
    that was saved; saving them again writes the same dictionary. *)
Theorem settings_round_trip (tk : tk_answers) (vs : variables)
    (file file' : settings_file_content) :
  save_settings tk vs file = (Ok tt, file') ->
  exists d : gmap string json_value,
    file' = JsonDict d /\
    current_values tk vs = Ok d /\
    current_values tk (create_variables (load_settings file')) = Ok d.
Proof. exact (save_then_load tk vs file file'). Qed.

Lemma settings_round_trip_witness :
  exists d : gmap string json_value,
    snd (save_settings plain_tk (create_variables ∅) NoFile) = JsonDict d /\
    current_values plain_tk (create_variables ∅) = Ok d /\
    current_values plain_tk
      (create_variables (load_settings (snd (save_settings plain_tk (create_variables ∅) NoFile))))
    = Ok d.
Proof.
  apply (settings_round_trip plain_tk (create_variables ∅) NoFile).
  vm_compute. reflexivity.
Defined.

(** ** The state of the input widgets *)

Section WidgetStates.

Variable tk : tk_answers.
Variable state : string.

Lemma skeleton_try_config_state (w : widget) :
  skeleton (try_config_state tk state w) = skeleton w.
Proof.
  unfold try_config_state. destruct (state_option tk (py_class w)); [|reflexivity].
  destruct w; reflexivity.
Qed.

Lemma map_alter_same {A B : Type} (g : A -> B) (f : A -> A) (i : nat) (l : list A) :
  (forall x, g (f x) = g x) -> map g (alter f i l) = map g l.
Proof.
  intros Hgf. revert i. induction l as [|x l IH]; intros [|i]; simpl; try reflexivity.
  - rewrite Hgf. reflexivity.
  - f_equal. apply IH.
Qed.

Lemma skeleton_config_at (r : list widget) (p : place) :
  map skeleton (config_at tk state r p) = map skeleton r.
Proof.
  destruct p as [i | i j]; simpl; apply map_alter_same.
  - apply skeleton_try_config_state.
  - intros [c wc n t s ch]. simpl. f_equal. apply map_alter_same.
    apply skeleton_try_config_state.
Qed.

Lemma skeleton_fold (ps : list place) :
  forall r : list widget,
    map skeleton (fold_left (config_at tk state) ps r) = map skeleton r.
Proof.
  induction ps as [|p ps IH]; intros r; simpl; [reflexivity|].
  rewrite IH. apply skeleton_config_at.
Qed.

(** Reading the state and the class at a place after one [config]. *)
Lemma state_at_config_other (r : list widget) (p q : place) :
  p <> q -> state_at (config_at tk state r p) q = state_at r q.
Proof.
  intros Hne. unfold state_at.
  destruct p as [i | i j], q as [k | k l]; simpl.
  - assert (i <> k) by congruence. rewrite list_lookup_alter_ne by assumption. reflexivity.
  - destruct (decide (i = k)) as [<- | Hik].
    + rewrite list_lookup_alter_eq. destruct (r !! i) as [w|]; [|reflexivity]. simpl.
      unfold try_config_state. destruct (state_option tk (py_class w)); reflexivity.
    + rewrite list_lookup_alter_ne by assumption. reflexivity.
  - destruct (decide (i = k)) as [<- | Hik].
    + rewrite list_lookup_alter_eq. destruct (r !! i) as [w|]; reflexivity.
    + rewrite list_lookup_alter_ne by assumption. reflexivity.
  - destruct (decide (i = k)) as [<- | Hik].
    + assert (j <> l) by congruence.
      rewrite list_lookup_alter_eq. destruct (r !! i) as [w|]; [|reflexivity]. simpl.
      rewrite list_lookup_alter_ne by assumption. reflexivity.
    + rewrite list_lookup_alter_ne by assumption. reflexivity.
Qed.

Lemma widget_at_config_same (r : list widget) (p : place) (w : widget) :
  widget_at r p = Some w ->
  exists w' : widget,
    widget_at (config_at tk state r p) p = Some w' /\
    py_class w' = py_class w /\
    cget_state w' = state_after tk state true w.
Proof.
  unfold state_after. simpl.
  destruct p as [i | i j]; simpl.
  - intros Hw. rewrite list_lookup_alter_eq, Hw. simpl. eexists. split; [reflexivity|].
    unfold try_config_state. destruct (state_option tk (py_class w)); split; reflexivity.
  - destruct (r !! i) as [c|] eqn:Hc; [|discriminate]. simpl. intros Hw.
    rewrite list_lookup_alter_eq, Hc. simpl. rewrite list_lookup_alter_eq, Hw. simpl.
    eexists. split; [reflexivity|].
    unfold try_config_state. destruct (state_option tk (py_class w)); split; reflexivity.
Qed.

Lemma class_at_config (r : list widget) (p q : place) :
  py_class <$> widget_at (config_at tk state r p) q = py_class <$> widget_at r q.
Proof.
  destruct p as [i | i j], q as [k | k l]; simpl.
  - destruct (decide (i = k)) as [<- | Hik].
    + rewrite list_lookup_alter_eq. destruct (r !! i) as [w|]; [|reflexivity]. simpl.
      unfold try_config_state. destruct (state_option tk (py_class w)); reflexivity.
    + rewrite list_lookup_alter_ne by assumption. reflexivity.
  - destruct (decide (i = k)) as [<- | Hik].
    + rewrite list_lookup_alter_eq. destruct (r !! i) as [w|]; [|reflexivity]. simpl.
      unfold try_config_state. destruct (state_option tk (py_class w)); reflexivity.
    + rewrite list_lookup_alter_ne by assumption. reflexivity.
  - destruct (decide (i = k)) as [<- | Hik].
    + rewrite list_lookup_alter_eq. destruct (r !! i) as [w|]; reflexivity.
    + rewrite list_lookup_alter_ne by assumption. reflexivity.
  - destruct (decide (i = k)) as [<- | Hik].
    + rewrite list_lookup_alter_eq. destruct (r !! i) as [w|]; [|reflexivity]. simpl.
      destruct (decide (j = l)) as [<- | Hjl].
      * rewrite list_lookup_alter_eq. destruct (winfo_children w !! j) as [c|]; [|reflexivity].
        simpl. unfold try_config_state. destruct (state_option tk (py_class c)); reflexivity.
      * rewrite list_lookup_alter_ne by assumption. reflexivity.
    + rewrite list_lookup_alter_ne by assumption. reflexivity.
Qed.

(** The state at a place after all the [config] calls, whatever their
    order and however often a place occurs. *)
Lemma state_at_fold (ps : list place) (q : place) :
  forall r : list widget,
    state_at (fold_left (config_at tk state) ps r) q
    = match py_class <$> widget_at r q, state_at r q with
      | Some c, Some s =>
          Some (if bool_decide (q ∈ ps) && state_option tk c then state else s)
      | _, _ => None
      end.
Proof.
  induction ps as [|p ps IH]; intros r; simpl.
  - unfold state_at. destruct (widget_at r q) as [w|]; reflexivity.
  - rewrite IH, class_at_config.
    destruct (decide (p = q)) as [-> | Hpq].
    + rewrite (bool_decide_eq_true_2 (q ∈ q :: ps)) by (left).
      unfold state_at at 1 2.
      destruct (widget_at r q) as [w|] eqn:Hw.
      * destruct (widget_at_config_same r q w Hw) as (w' & Hw' & Hc & Hs).
        rewrite Hw'. simpl. rewrite Hs. unfold state_after. simpl.
        destruct (state_option tk (py_class w));
          rewrite ?andb_true_r, ?andb_false_r; [|reflexivity].
        destruct (bool_decide (q ∈ ps)); reflexivity.
      * simpl. reflexivity.
    + rewrite (state_at_config_other r p q Hpq).
      destruct (py_class <$> widget_at r q) as [c|]; [|reflexivity].
      destruct (state_at r q) as [s|]; [|reflexivity].
      destruct (decide (q ∈ ps)) as [Hin | Hnotin].
      * rewrite !bool_decide_eq_true_2; [reflexivity | right; exact Hin | exact Hin].
      * rewrite !bool_decide_eq_false_2; [reflexivity | | exact Hnotin].
        intros Hin. apply elem_of_cons in Hin as [-> | Hin]; [apply Hpq; reflexivity|].
        apply Hnotin, Hin.
Qed.

End WidgetStates.

(** X13. [set_input_widgets_state] changes nothing but [state] options,
    and those of the collected widgets only: the widgets, their classes,
    names, texts and nesting stay as they are at every depth; a widget
    that was collected and accepts a state gets the state asked for, however
    often and wherever in the list it was collected; every other widget of
    the first two levels keeps its state.  A state other than ['normal']
    and ['disabled'] changes nothing at all. *)
Theorem set_input_widgets_state_is_pointwise (tk : tk_answers) (state : string)
    (root : list widget) :
  let after := set_input_widgets_state tk state root in
  map skeleton after = map skeleton root /\
  (state ∈ ["normal"; "disabled"] ->
   forall p : place,
     state_at after p
     = state_after tk state (bool_decide (p ∈ widgets_to_control root))
         <$> widget_at root p) /\
  (state ∉ ["normal"; "disabled"] -> after = root).
Proof.
  unfold set_input_widgets_state.
  destruct (decide (state ∈ ["normal"; "disabled"])) as [Hin | Hout].
  - rewrite bool_decide_eq_true_2 by exact Hin. cbv zeta.
    split; [apply skeleton_fold|]. split; [|intros Hn; contradiction].
    intros _ p. rewrite state_at_fold. unfold state_at, state_after.
    destruct (widget_at root p) as [w|]; reflexivity.
  - rewrite bool_decide_eq_false_2 by exact Hout. cbv zeta.
    split; [reflexivity|]. split; [intros Hn; contradiction | reflexivity].
Qed.

Lemma set_input_widgets_state_is_pointwise_witness :
  let after := set_input_widgets_state plain_tk "disabled" create_widgets in
  map skeleton after = map skeleton create_widgets /\
  ("disabled" ∈ ["normal"; "disabled"] ->
   forall p : place,
     state_at after p
     = state_after plain_tk "disabled" (bool_decide (p ∈ widgets_to_control create_widgets))
         <$> widget_at create_widgets p) /\
  ("disabled" ∉ ["normal"; "disabled"] -> after = create_widgets).
Proof.
  exact (set_input_widgets_state_is_pointwise plain_tk "disabled" create_widgets).
Defined.

(** ** Which widgets are collected *)

Lemma first_loop_collects_inputs (root : list widget) (p : place) :
  p ∈ first_loop root -> exists w, widget_at root p = Some w /\ is_input w = true.
Proof.
  unfold first_loop. rewrite list_elem_of_In, in_concat.
  intros (l & Hl & Hp). apply list_elem_of_In, elem_of_lookup_imap in Hl
    as (i & child & -> & Hchild).
  unfold inputs_of_child in Hp. destruct (is_input child) eqn:Hin.
  - destruct Hp as [<- | []]. exists child. split; assumption.
  - destruct (is_ttk_frame child); [|destruct Hp].
    apply in_concat in Hp as (l & Hl & Hp).
    apply list_elem_of_In, elem_of_lookup_imap in Hl as (j & c & -> & Hc).
    destruct (is_input c) eqn:Hinc; [|destruct Hp].
    destruct Hp as [<- | []]. exists c. simpl. rewrite Hchild. simpl.
    split; assumption.
Qed.

Lemma first_loop_has_root_inputs (root : list widget) (i : nat) (w : widget) :
  root !! i = Some w -> is_input w = true -> Child i ∈ first_loop root.
Proof.
  intros Hw Hin. unfold first_loop. apply list_elem_of_In, in_concat.
  exists [Child i]. split; [|left; reflexivity].
  apply list_elem_of_In, elem_of_lookup_imap. exists i, w.
  split; [|exact Hw]. unfold inputs_of_child. rewrite Hin. reflexivity.
Qed.

Lemma second_loop_without_tk_frame (rest : list widget) :
  Forall (fun w => winfo_class w <> "Frame") rest ->
  forall i : nat, second_loop i rest = [].
Proof.
  induction 1 as [|w rest Hw _ IH]; intros i; simpl; [reflexivity|].
  apply String.eqb_neq in Hw. rewrite Hw. simpl. apply IH.
Qed.

(** X14. In a window none of whose children has the Tk class [Frame],
    [set_input_widgets_state] changes the state of entries, comboboxes,
    checkbuttons and scales only: every button, label, frame and progress
    bar of the first two levels keeps its state.  The window of
    [create_widgets] is such a window: its Folder, File, Browse and Exit
    buttons stay enabled while a batch is processed. *)
Theorem only_inputs_change_state (tk : tk_answers) (state : string) (root : list widget)
    (p : place) (w : widget) :
  Forall (fun c => winfo_class c <> "Frame") root ->
  widget_at root p = Some w ->
  is_input w = false ->
  state_at (set_input_widgets_state tk state root) p = Some (cget_state w).
Proof.
  intros Hframes Hw Hin. unfold set_input_widgets_state.
  destruct (bool_decide (state ∈ ["normal"; "disabled"])).
  2:{ unfold state_at. rewrite Hw. reflexivity. }
  rewrite state_at_fold. unfold state_at. rewrite Hw. simpl.
  rewrite bool_decide_eq_false_2; [reflexivity|].
  unfold widgets_to_control. rewrite (second_loop_without_tk_frame root Hframes), app_nil_r.
  intros Hp. apply first_loop_collects_inputs in Hp as (w' & Hw' & Hin').
  congruence.
Qed.

Lemma only_inputs_change_state_witness :
  state_at (set_input_widgets_state plain_tk "disabled" create_widgets) (Grandchild 3 0)
  = Some "normal" /\
  state_at (set_input_widgets_state plain_tk "disabled" create_widgets) (Grandchild 3 1)
  = Some "normal" /\
  state_at (set_input_widgets_state plain_tk "disabled" create_widgets) (Child 7)
  = Some "normal" /\
  state_at (set_input_widgets_state plain_tk "disabled" create_widgets) (Child 30)
  = Some "normal".
Proof.
  assert (Hframes : Forall (fun c => winfo_class c <> "Frame") create_widgets).
  { repeat constructor; discriminate. }
  split; [|split; [|split]].
  - exact (only_inputs_change_state plain_tk "disabled" create_widgets (Grandchild 3 0) _
             Hframes eq_refl eq_refl).
  - exact (only_inputs_change_state plain_tk "disabled" create_widgets (Grandchild 3 1) _
             Hframes eq_refl eq_refl).
  - exact (only_inputs_change_state plain_tk "disabled" create_widgets (Child 7) _
             Hframes eq_refl eq_refl).
  - exact (only_inputs_change_state plain_tk "disabled" create_widgets (Child 30) _
             Hframes eq_refl eq_refl).
Defined.

Lemma skeleton_class (w w' : widget) : skeleton w' = skeleton w -> py_class w' = py_class w.
Proof. destruct w, w'. simpl. intros [= -> _ _ _ _]. reflexivity. Qed.

(** X15. The state that an input widget had before it was disabled is
    not restored: after ['disabled'] and then ['normal'], an entry,
    combobox, checkbutton or scale among the children of the window that
    accepts a state is in the state ['normal'], whatever state it was
    created in.  The encoder combobox of [create_widgets], created
    read-only, is such a widget. *)
Theorem enabling_does_not_restore_the_state (tk : tk_answers) (root : list widget) (i : nat)
    (w : widget) :
  root !! i = Some w ->
  is_input w = true ->
  state_option tk (py_class w) = true ->
  state_at (set_input_widgets_state tk "disabled" root) (Child i) = Some "disabled" /\
  state_at (set_input_widgets_state tk "normal" (set_input_widgets_state tk "disabled" root))
    (Child i)
  = Some "normal".
Proof.
  intros Hw Hin Hopt.
  assert (Hstep : forall (st : string) (r : list widget) (v : widget),
             st ∈ ["normal"; "disabled"] -> r !! i = Some v -> py_class v = py_class w ->
             state_at (set_input_widgets_state tk st r) (Child i) = Some st).
  { intros st r v Hst Hv Hclass. unfold set_input_widgets_state.
    rewrite bool_decide_eq_true_2 by exact Hst.
    rewrite state_at_fold. unfold state_at. simpl. rewrite Hv. simpl.
    rewrite Hclass, Hopt, andb_true_r.
    rewrite bool_decide_eq_true_2; [reflexivity|].
    unfold widgets_to_control. apply elem_of_app. left.
    apply (first_loop_has_root_inputs r i v Hv).
    unfold is_input in *. rewrite Hclass. exact Hin. }
  split; [apply (Hstep "disabled" root w); [set_solver | exact Hw | reflexivity]|].
  pose proof (skeleton_fold tk "disabled" (widgets_to_control root) root) as Hsk.
  assert (Hsk' : map skeleton (set_input_widgets_state tk "disabled" root)
                 = map skeleton root).
  { unfold set_input_widgets_state. destruct (bool_decide _); [exact Hsk | reflexivity]. }
  pose proof (f_equal (fun l => l !! i) Hsk') as Hi. simpl in Hi.
  rewrite !list_lookup_fmap, Hw in Hi.
  destruct (set_input_widgets_state tk "disabled" root !! i) as [v|] eqn:Hv;
    [|discriminate Hi].
  simpl in Hi. injection Hi as Hi.
  apply (Hstep "normal" _ v); [set_solver | exact Hv | apply skeleton_class, Hi].
Qed.

Lemma enabling_does_not_restore_the_state_witness :
  state_at create_widgets (Child 9) = Some "readonly" /\
  state_at (set_input_widgets_state plain_tk "disabled" create_widgets) (Child 9)
  = Some "disabled" /\
  state_at (set_input_widgets_state plain_tk "normal"
              (set_input_widgets_state plain_tk "disabled" create_widgets)) (Child 9)
  = Some "normal".
Proof.
  split; [reflexivity|].
  exact (enabling_does_not_restore_the_state plain_tk create_widgets 9
           (new_widget TtkCombobox 1 "" "readonly" []) eq_refl eq_refl eq_refl).
Defined.

(** ** The buttons of the window *)

Section Buttons.

Variable tk : tk_answers.

Lemma second_loop_grandchildren (rest : list widget) :
  forall (i : nat) (p : place), p ∈ second_loop i rest -> exists k j, p = Grandchild k j.
Proof.
  induction rest as [|child rest IH]; intros i p; simpl; [intros H; inversion H|].
  destruct (String.eqb (winfo_class child) "Frame" && _); [|apply IH].
  destruct (winfo_children child) as [|first_child others] eqn:Hch; [apply IH|].
  destruct (is_ttk_button first_child && _); [|apply IH].
  intros Hp. apply elem_of_lookup_imap in Hp as (j & c & -> & _). exists i, j. reflexivity.
Qed.

Lemma buttons_are_not_collected (r : list widget) (i : nat) :
  py_class <$> r !! i = Some TtkButton -> Child i ∉ widgets_to_control r.
Proof.
  intros Hb Hin. unfold widgets_to_control in Hin. apply elem_of_app in Hin as [Hin | Hin].
  - apply first_loop_collects_inputs in Hin as (w & Hw & Hinput). simpl in Hw.
    rewrite Hw in Hb. simpl in Hb. injection Hb as Hb. unfold is_input in Hinput.
    rewrite Hb in Hinput. discriminate Hinput.
  - apply second_loop_grandchildren in Hin as (k & j & Hp). discriminate Hp.
Qed.

Lemma class_at_fold (state : string) (ps : list place) (q : place) :
  forall r : list widget,
    py_class <$> widget_at (fold_left (config_at tk state) ps r) q
    = py_class <$> widget_at r q.
Proof.
  induction ps as [|p ps IH]; intros r; simpl; [reflexivity|].
  rewrite IH. apply class_at_config.
Qed.

Lemma class_after_inputs (state : string) (r : list widget) (i : nat) :
  py_class <$> set_input_widgets_state tk state r !! i = py_class <$> r !! i.
Proof.
  unfold set_input_widgets_state. destruct (bool_decide _); [|reflexivity].
  apply (class_at_fold state (widgets_to_control r) (Child i) r).
Qed.

Lemma button_after_inputs (state : string) (r : list widget) (i : nat) :
  py_class <$> r !! i = Some TtkButton ->
  cget_state <$> set_input_widgets_state tk state r !! i = cget_state <$> r !! i.
Proof.
  intros Hb. unfold set_input_widgets_state. destruct (bool_decide _); [|reflexivity].
  pose proof (state_at_fold tk state (widgets_to_control r) (Child i) r) as H.
  unfold state_at in H. simpl in H. rewrite H, Hb.
  rewrite (bool_decide_eq_false_2 _ (buttons_are_not_collected r i Hb)). simpl.
  destruct (r !! i); reflexivity.
Qed.

Lemma class_after_set_state (state : string) (r : list widget) (i j : nat) :
  py_class <$> alter (set_state state) i r !! j = py_class <$> r !! j.
Proof.
  rewrite list_lookup_alter. destruct (decide (i = j)) as [<- | _]; [|reflexivity].
  destruct (r !! i); reflexivity.
Qed.

Lemma state_after_set_state (state : string) (r : list widget) (i j : nat) (c : widget_class) :
  py_class <$> r !! i = Some c ->
  cget_state <$> alter (set_state state) i r !! j
  = if decide (i = j) then Some state else cget_state <$> r !! j.
Proof.
  intros Hc. rewrite list_lookup_alter. destruct (decide (i = j)) as [<- | _]; [|reflexivity].
  destruct (r !! i); [reflexivity | discriminate Hc].
Qed.

(** What [on_thread_done] leaves: the buttons where they were, Process
    enabled, Stop disabled, no thread, the bar full. *)
Lemma on_thread_done_unlocks (v : value) (g : gui) :
  buttons_in_place g ->
  let g' := on_thread_done tk v g in
  buttons_in_place g' /\ unlocked g' /\
  btn_start g' = btn_start g /\ btn_stop g' = btn_stop g /\
  status_var g' = "Status: Processing " +:+ fmt v /\
  progress_maximum g' = progress_maximum g /\
  progress_value g' = progress_maximum g.
Proof.
  intros (Hne & Hstart & Hstop). unfold on_thread_done, config_button. cbv zeta. simpl.
  set (r1 := alter (set_state "normal") (btn_start g) (root g)).
  set (r2 := alter (set_state "disabled") (btn_stop g) r1).
  assert (Hc1 : forall j, py_class <$> r1 !! j = py_class <$> root g !! j).
  { intros j. apply class_after_set_state. }
  assert (Hc2 : forall j, py_class <$> r2 !! j = py_class <$> root g !! j).
  { intros j. unfold r2. rewrite class_after_set_state. apply Hc1. }
  assert (Hs1 : cget_state <$> r2 !! btn_start g = Some "normal").
  { unfold r2. rewrite (state_after_set_state _ _ _ _ TtkButton) by (rewrite Hc1; exact Hstop).
    destruct (decide (btn_stop g = btn_start g)) as [Heq | _]; [congruence|].
    unfold r1. rewrite (state_after_set_state _ _ _ _ TtkButton) by exact Hstart.
    destruct (decide (btn_start g = btn_start g)); [reflexivity | contradiction]. }
  assert (Hs2 : cget_state <$> r2 !! btn_stop g = Some "disabled").
  { unfold r2. rewrite (state_after_set_state _ _ _ _ TtkButton) by (rewrite Hc1; exact Hstop).
    destruct (decide (btn_stop g = btn_stop g)); [reflexivity | contradiction]. }
  split; [|split].
  - split; [exact Hne|]. unfold buttons_in_place. simpl.
    rewrite !class_after_inputs, !Hc2. split; assumption.
  - unfold unlocked, button_state. simpl.
    rewrite !button_after_inputs by (rewrite Hc2; assumption).
    split; [exact Hs1|]. split; [exact Hs2 | reflexivity].
  - repeat split.
Qed.

(** A message other than the done message leaves the widgets, the thread
    and the stop event as they are. *)
Lemma handle_other (g : gui) (ev : event) :
  is_key THREAD_DONE ev = false ->
  root (handle tk g ev) = root g /\
  btn_start (handle tk g ev) = btn_start g /\
  btn_stop (handle tk g ev) = btn_stop g /\
  processing_thread (handle tk g ev) = processing_thread g /\
  stop_event (handle tk g ev) = stop_event g /\
  (is_key SET_MAX ev = false -> progress_maximum (handle tk g ev) = progress_maximum g).
Proof.
  destruct ev as [[] v]; simpl; intros H; try discriminate H; repeat split; discriminate.
Qed.

Lemma handle_keeps_buttons (g : gui) (ev : event) :
  buttons_in_place g ->
  buttons_in_place (handle tk g ev) /\
  btn_start (handle tk g ev) = btn_start g /\ btn_stop (handle tk g ev) = btn_stop g.
Proof.
  intros Hb. destruct (is_key THREAD_DONE ev) eqn:Hk.
  - destruct ev as [[] v]; try discriminate Hk. simpl.
    destruct (on_thread_done_unlocks v g Hb) as (Hb' & _ & H1 & H2 & _).
    split; [exact Hb' | split; assumption].
  - destruct (handle_other g ev Hk) as (Hr & H1 & H2 & _).
    split; [|split; assumption]. unfold buttons_in_place. rewrite Hr, H1, H2. exact Hb.
Qed.

Lemma handle_keeps_unlocked (g : gui) (ev : event) :
  buttons_in_place g -> unlocked g -> unlocked (handle tk g ev).
Proof.
  intros Hb Hu. destruct (is_key THREAD_DONE ev) eqn:Hk.
  - destruct ev as [[] v]; try discriminate Hk. simpl.
    apply (on_thread_done_unlocks v g Hb).
  - destruct (handle_other g ev Hk) as (Hr & H1 & H2 & Ht & _).
    unfold unlocked, button_state. rewrite Hr, H1, H2, Ht. exact Hu.
Qed.

Lemma fold_handle_unlocked (q : list event) :
  forall g : gui,
    buttons_in_place g -> unlocked g ->
    let g' := fold_left (handle tk) q g in
    buttons_in_place g' /\ unlocked g' /\
    btn_start g' = btn_start g /\ btn_stop g' = btn_stop g.
Proof.
  induction q as [|ev q IH]; intros g Hb Hu; simpl.
  - split; [exact Hb|]. split; [exact Hu|]. split; reflexivity.
  - destruct (handle_keeps_buttons g ev Hb) as (Hb' & H1 & H2).
    destruct (IH (handle tk g ev) Hb' (handle_keeps_unlocked g ev Hb Hu)) as (Hb2 & Hu2 & H3 & H4).
    split; [exact Hb2|]. split; [exact Hu2|]. split; congruence.
Qed.

Lemma messages_cons (k : key) (ev : event) (q : list event) :
  messages k (ev :: q) = if is_key k ev then ev :: messages k q else messages k q.
Proof. reflexivity. Qed.

Lemma fold_handle_no_done (q : list event) :
  forall g : gui,
    messages THREAD_DONE q = [] ->
    let g' := fold_left (handle tk) q g in
    root g' = root g /\ btn_start g' = btn_start g /\ btn_stop g' = btn_stop g /\
    processing_thread g' = processing_thread g /\ stop_event g' = stop_event g /\
    (messages SET_MAX q = [] -> progress_maximum g' = progress_maximum g).
Proof.
  induction q as [|ev q IH]; intros g Hq; cbn [fold_left]; cbv zeta.
  - repeat split.
  - rewrite messages_cons in Hq.
    destruct (is_key THREAD_DONE ev) eqn:Hk; [discriminate Hq|].
    destruct (handle_other g ev Hk) as (Hr & H1 & H2 & Ht & Hs & Hm).
    destruct (IH (handle tk g ev) Hq) as (Hr' & H1' & H2' & Ht' & Hs' & Hm').
    split; [congruence|]. split; [congruence|]. split; [congruence|].
    split; [congruence|]. split; [congruence|].
    rewrite messages_cons.
    destruct (is_key SET_MAX ev) eqn:Hk2; [intros Hx; discriminate Hx|].
    intros Hmax. rewrite (Hm' Hmax). apply Hm. reflexivity.
Qed.

Lemma fold_handle_with_done (q : list event) :
  forall g : gui,
    buttons_in_place g ->
    messages THREAD_DONE q <> [] ->
    let g' := fold_left (handle tk) q g in
    unlocked g' /\ btn_start g' = btn_start g /\ btn_stop g' = btn_stop g.
Proof.
  induction q as [|ev q IH]; intros g Hb Hq; cbn [fold_left]; cbv zeta;
    [contradiction Hq; reflexivity|].
  destruct (is_key THREAD_DONE ev) eqn:Hk.
  - destruct ev as [[] v]; try discriminate Hk. simpl.
    destruct (on_thread_done_unlocks v g Hb) as (Hb' & Hu' & H1 & H2 & _).
    destruct (fold_handle_unlocked q (on_thread_done tk v g) Hb' Hu') as (_ & Hu2 & H3 & H4).
    split; [exact Hu2|]. split; congruence.
  - rewrite messages_cons, Hk in Hq.
    destruct (handle_keeps_buttons g ev Hb) as (Hb' & H1 & H2).
    destruct (IH (handle tk g ev) Hb' Hq) as (Hu2 & H3 & H4).
    split; [exact Hu2|]. split; congruence.
Qed.

End Buttons.

(** X16. [check_queue] empties the queue and schedules itself again.  The
    window is unlocked by the done message and by nothing else: while the
    queue holds no done message the widgets, the thread and the stop event
    stay as they are; when it holds one, the window ends with Process
    enabled, Stop disabled and no thread, whatever else the queue holds. *)
Theorem window_unlocks_exactly_on_done (tk : tk_answers) (g : gui) :
  buttons_in_place g ->
  let g' := check_queue tk g in
  gui_queue g' = [] /\
  scheduled_checks g' = S (scheduled_checks g) /\
  (messages THREAD_DONE (gui_queue g) = [] ->
   root g' = root g /\ processing_thread g' = processing_thread g /\
   stop_event g' = stop_event g) /\
  (messages THREAD_DONE (gui_queue g) <> [] -> unlocked g').
Proof.
  intros Hb. unfold check_queue. cbv zeta.
  assert (Hqueue : forall (q : list event) (g0 : gui),
             gui_queue (fold_left (handle tk) q g0) = gui_queue g0 /\
             scheduled_checks (fold_left (handle tk) q g0) = scheduled_checks g0).
  { induction q as [|ev q IH]; intros g0; simpl; [split; reflexivity|].
    destruct (IH (handle tk g0 ev)) as [-> ->]. destruct ev as [[] v]; split; reflexivity. }
  destruct (Hqueue (gui_queue g) (with_queue [] g)) as [Hq Hs].
  split; [simpl; exact Hq|]. split; [simpl; rewrite Hs; reflexivity|]. split.
  - intros Hnone.
    destruct (fold_handle_no_done tk (gui_queue g) (with_queue [] g) Hnone)
      as (Hr & _ & _ & Ht & Hse & _).
    simpl. split; [exact Hr|]. split; [exact Ht | exact Hse].
  - intros Hsome.
    destruct (fold_handle_with_done tk (gui_queue g) (with_queue [] g) Hb Hsome)
      as (Hu & _ & _).
    exact Hu.
Qed.

Lemma window_unlocks_exactly_on_done_witness :
  let g := with_queue [completed_message] (gui_init NoFile) in
  let g' := check_queue plain_tk g in
  gui_queue g' = [] /\
  scheduled_checks g' = S (scheduled_checks g) /\
  (messages THREAD_DONE (gui_queue g) = [] ->
   root g' = root g /\ processing_thread g' = processing_thread g /\
   stop_event g' = stop_event g) /\
  (messages THREAD_DONE (gui_queue g) <> [] -> unlocked g').
Proof.
  apply (window_unlocks_exactly_on_done plain_tk
           (with_queue [completed_message] (gui_init NoFile))).
  split; [discriminate|]. split; reflexivity.
Defined.

(** ** The window after a batch *)

(** X17. The window and the loop part of the worker together.  When the
    run returns, the window that has taken all its messages is unlocked,
    its progress bar stands at its maximum, which is the number of files
    (also when the batch was stopped), and the status line says
    ['Processing Completed'] or ['Processing Stopped'].  When an exception
    leaves the run, the widgets and the thread are as they were when the
    batch started: the window stays locked. *)
Theorem window_after_a_batch (E : env) (tk : tk_answers) (vals : values)
    (input_size max_res : Z) (DEVICE : string) (files : list string) (g : gui) :
  buttons_in_place g ->
  gui_queue g = [] ->
  let r := run (run_batch E vals input_size max_res DEVICE files) initial_state in
  let g' := check_queue tk (put_all (update_queue (snd r)) g) in
  match fst r with
  | Ok _ =>
      unlocked g' /\
      progress_maximum g' = VInt (length files) /\
      progress_value g' = VInt (length files) /\
      (status_var g' = "Status: Processing Completed" \/
       status_var g' = "Status: Processing Stopped")
  | Raise _ =>
      root g' = root g /\ processing_thread g' = processing_thread g
  end.
Proof.
  intros Hb Hempty r g'.
  destruct (run_batch_protocol E vals input_size max_res DEVICE files initial_state)
    as (q & m & Hq & Hmax & _ & Hcase).
  fold r in Hq, Hcase. subst g'. unfold check_queue, put_all.
  rewrite Hempty, Hq. simpl.
  set (g1 := with_progress (VInt (length files)) (VInt 0) _).
  assert (Hb1 : buttons_in_place g1) by exact Hb.
  destruct (fst r) as [[]|e].
  - destruct Hcase as (q' & done & -> & Hd' & Hdone).
    rewrite messages_app in Hmax. apply app_eq_nil in Hmax as [Hmax' _].
    rewrite fold_left_app. simpl.
    destruct (fold_handle_no_done tk q' g1 Hd') as (Hr & H1 & H2 & Ht & _ & Hm).
    specialize (Hm Hmax').
    set (g2 := fold_left (handle tk) q' g1) in *.
    assert (Hb2 : buttons_in_place g2).
    { unfold buttons_in_place. rewrite Hr, H1, H2. exact Hb1. }
    assert (Hfinal : forall v : string,
               done = (THREAD_DONE, VStr v) ->
               unlocked (handle tk g2 done) /\
               progress_maximum (handle tk g2 done) = VInt (length files) /\
               progress_value (handle tk g2 done) = VInt (length files) /\
               status_var (handle tk g2 done) = "Status: Processing " +:+ v).
    { intros v ->. simpl handle.
      destruct (on_thread_done_unlocks tk (VStr v) g2 Hb2)
        as (_ & Hu & _ & _ & Hst & Hpm & Hpv).
      split; [exact Hu|]. rewrite Hpm, Hpv, Hm.
      split; [reflexivity|]. split; [reflexivity | exact Hst]. }
    destruct Hdone as [[Hdone _] | [Hdone _]].
    + destruct (Hfinal "Completed" Hdone) as (Hu & Hpm & Hpv & Hst).
      split; [exact Hu|]. split; [exact Hpm|]. split; [exact Hpv|]. left. exact Hst.
    + destruct (Hfinal "Stopped" Hdone) as (Hu & Hpm & Hpv & Hst).
      split; [exact Hu|]. split; [exact Hpm|]. split; [exact Hpv|]. right. exact Hst.
  - destruct Hcase as [_ Hd].
    destruct (fold_handle_no_done tk q g1 Hd) as (Hr & _ & _ & Ht & _).
    split; [exact Hr | exact Ht].
Qed.

Lemma window_after_a_batch_witness :
  let r := run (run_batch calm_env one_file_values 518 1280 "cpu" ["/videos/a.mp4"])
             initial_state in
  let g' := check_queue plain_tk (put_all (update_queue (snd r)) (gui_init NoFile)) in
  match fst r with
  | Ok _ =>
      unlocked g' /\
      progress_maximum g' = VInt 1 /\
      progress_value g' = VInt 1 /\
      (status_var g' = "Status: Processing Completed" \/
       status_var g' = "Status: Processing Stopped")
  | Raise _ =>
      root g' = root (gui_init NoFile) /\
      processing_thread g' = processing_thread (gui_init NoFile)
  end.
Proof.
  apply (window_after_a_batch calm_env plain_tk one_file_values 518 1280 "cpu"
           ["/videos/a.mp4"] (gui_init NoFile)).
  - split; [discriminate|]. split; reflexivity.
  - reflexivity.
Defined.

(** ** What [start_processing] hands to the worker *)

Ltac expected_event :=
  split; intros Hx; first
    [ discriminate Hx
    | injection Hx as Hx; simpl in Hx; discriminate Hx ].

Ltac all_expected :=
  cbn [app];
  repeat (match goal with |- Forall _ (_ :: _) => constructor; [expected_event|] end);
  apply Forall_nil_2.

Section Checked.

Variable E : env.

Lemma expected_messages_of_an_iteration (vals : values) (input_size max_res : Z)
    (DEVICE : string) (total_files i : nat) (file_path : string) (s : state) :
  exists q : list event,
    update_queue (snd (process_file E vals input_size max_res DEVICE total_files i
                         file_path s))
    = update_queue s ++ q /\
    Forall expected q.
Proof.
  pose proof (process_file_shape E vals input_size max_res DEVICE total_files i file_path s)
    as H. cbv zeta in H. unfold run in H.
  destruct (process_file E vals input_size max_res DEVICE total_files i file_path s)
    as [[[]|e] s1]; simpl in H |- *.
  - destruct H as (q & Hq & Hshape). eexists. split; [exact Hq|].
    constructor; [expected_event|].
    apply Forall_app. split; [|all_expected].
    destruct Hshape as [-> | [e [-> | [-> | [-> | ->]]]]];
      all_expected.
  - destruct H as [Hq _]. eexists. split; [exact Hq|].
    all_expected.
Qed.

Lemma expected_messages_of_the_loop (vals : values) (input_size max_res : Z)
    (DEVICE : string) (total_files : nat) (files : list string) :
  forall (i : nat) (s : state),
    exists q : list event,
      update_queue (snd (process_files E vals input_size max_res DEVICE total_files i
                           files s))
      = update_queue s ++ q /\
      Forall expected q.
Proof.
  induction files as [|f rest IH]; intros i s; simpl.
  - exists []. split; [symmetry; apply app_nil_r | constructor].
  - destruct (stop_is_set E i).
    + run_events. eexists. split; [reflexivity|]. all_expected.
    + rewrite run_bind.
      destruct (expected_messages_of_an_iteration vals input_size max_res DEVICE total_files
                  i f s) as (q1 & Hq1 & HP1).
      destruct (process_file E vals input_size max_res DEVICE total_files i f s)
        as [[[]|e] s1]; simpl in Hq1 |- *.
      * destruct (IH (S i) s1) as (q2 & Hq2 & HP2).
        exists (q1 ++ q2). split; [rewrite Hq2, Hq1, app_assoc; reflexivity|].
        apply Forall_app. split; assumption.
      * exists q1. split; assumption.
Qed.

Lemma expected_messages_of_load_and_run (vals : values) (input_size max_res : Z)
    (files : list string) (s : state) :
  exists q : list event,
    update_queue (snd (load_and_run E vals input_size max_res files s)) = update_queue s ++ q /\
    Forall expected q.
Proof.
  unfold load_and_run. cbv zeta. rewrite run_bind. unfold write_event_value at 1.
  cbv beta iota.
  destruct (load_model E (ENCODER vals) (METRIC vals) _) as [[]|e].
  - rewrite run_run_batch.
    match goal with |- context [process_files _ _ _ _ _ _ _ _ ?st] => set (s0 := st) end.
    destruct (expected_messages_of_the_loop vals input_size max_res
                (if cuda_is_available E then "cuda" else "cpu") (length files) files 0%nat s0)
      as (q & Hq & HP).
    destruct (process_files _ _ _ _ _ _ _ _ s0) as [[[|]|e] s1]; simpl in Hq |- *.
    + eexists. rewrite Hq. subst s0. simpl. rewrite <- !app_assoc.
      split; [reflexivity|]. simpl.
      constructor; [expected_event|]. constructor; [expected_event|].
      apply Forall_app. split; [exact HP | all_expected].
    + eexists. rewrite Hq. subst s0. simpl. rewrite <- !app_assoc.
      split; [reflexivity|]. simpl.
      constructor; [expected_event|]. constructor; [expected_event | exact HP].
    + eexists. rewrite Hq. subst s0. simpl. rewrite <- !app_assoc.
      split; [reflexivity|]. simpl.
      constructor; [expected_event|]. constructor; [expected_event | exact HP].
  - destruct e; simpl; rewrite <- app_assoc;
      (eexists; split; [reflexivity | all_expected]).
Qed.

End Checked.

(** X18. [start_processing] either shows one Input Error box and changes
    nothing else, or locks the window (Process disabled, Stop enabled, stop
    event cleared).  In the second case a thread is started exactly when
    every variable could be read, and its values are checked ones: two
    integer literals, an output directory, and the input path in the file
    field when it names a file and in the folder field otherwise.  When a
    variable cannot be read the exception leaves [start_processing] with
    the window locked and no thread started. *)
Theorem start_processing_checks (E : env) (tk : tk_answers) (g : gui) :
  buttons_in_place g ->
  let r := start_processing E tk g in
  (exists msg : string, r = (Ok tt, showerror "Input Error" (VStr msg) g)) \/
  (locked (snd r) /\ stop_event (snd r) = false /\
   match fst r with
   | Ok _ =>
       exists vals : values,
         processing_thread (snd r) = Some vals /\ checked E vals /\
         status_var (snd r) = "Status: Starting..."
   | Raise _ => processing_thread (snd r) = processing_thread g
   end).
Proof.
  intros (Hne & Hstart & Hstop). unfold start_processing. cbv zeta.
  destruct (py_int E (StringVar_get tk (input_size_var (vars g)))) as [n1|] eqn:Hsize;
    [|left; eexists; reflexivity].
  destruct (py_int E (StringVar_get tk (max_res_var (vars g)))) as [n2|] eqn:Hres;
    [|left; eexists; reflexivity].
  destruct (String.eqb (StringVar_get tk (input_path_var (vars g))) "") eqn:Hin;
    [left; eexists; reflexivity|].
  destruct (String.eqb (StringVar_get tk (output_dir_var (vars g))) "") eqn:Hout;
    [left; eexists; reflexivity|].
  right. apply String.eqb_neq in Hin, Hout.
  unfold config_button. simpl.
  set (r1 := alter (set_state "disabled") (btn_start g) (root g)).
  set (r2 := alter (set_state "normal") (btn_stop g) r1).
  assert (Hc1 : forall j, py_class <$> r1 !! j = py_class <$> root g !! j).
  { intros j. apply class_after_set_state. }
  assert (Hc2 : forall j, py_class <$> r2 !! j = py_class <$> root g !! j).
  { intros j. unfold r2. rewrite class_after_set_state. apply Hc1. }
  assert (Hs1 : cget_state <$> r2 !! btn_start g = Some "disabled").
  { unfold r2. rewrite (state_after_set_state _ _ _ _ TtkButton) by (rewrite Hc1; exact Hstop).
    destruct (decide (btn_stop g = btn_start g)) as [Heq | _]; [congruence|].
    unfold r1. rewrite (state_after_set_state _ _ _ _ TtkButton) by exact Hstart.
    destruct (decide (btn_start g = btn_start g)); [reflexivity | contradiction]. }
  assert (Hs2 : cget_state <$> r2 !! btn_stop g = Some "normal").
  { unfold r2. rewrite (state_after_set_state _ _ _ _ TtkButton) by (rewrite Hc1; exact Hstop).
    destruct (decide (btn_stop g = btn_stop g)); [reflexivity | contradiction]. }
  assert (Hlocked : forall r3 : list widget,
             r3 = set_input_widgets_state tk "disabled" r2 ->
             cget_state <$> r3 !! btn_start g = Some "disabled" /\
             cget_state <$> r3 !! btn_stop g = Some "normal").
  { intros r3 ->. rewrite !button_after_inputs by (rewrite Hc2; assumption).
    split; assumption. }
  destruct (thread_values tk _ _ _ _) as [vals|e] eqn:Hvals; simpl.
  - split; [exact (Hlocked _ eq_refl)|]. split; [reflexivity|].
    exists vals. split; [reflexivity|]. split; [|reflexivity].
    unfold thread_values in Hvals. cbv zeta in Hvals. rewrite !run_rbind in Hvals.
    repeat match type of Hvals with
           | context [match ?x with Ok _ => _ | Raise _ => _ end] =>
               destruct x; [|discriminate Hvals]; rewrite ?run_rbind in Hvals
           end.
    injection Hvals as <-. unfold checked. simpl.
    split; [congruence|]. split; [congruence|]. split; [exact Hout|].
    destruct (os_path_isfile E (StringVar_get tk (input_path_var (vars g)))) eqn:Hfile.
    + left. split; [exact Hin|]. split; [reflexivity | exact Hfile].
    + right. split; [reflexivity|]. split; [exact Hin | exact Hfile].
  - split; [exact (Hlocked _ eq_refl)|]. split; reflexivity.
Qed.

Lemma start_processing_checks_witness :
  let r := start_processing calm_env plain_tk ready_window in
  (exists msg : string, r = (Ok tt, showerror "Input Error" (VStr msg) ready_window)) \/
  (locked (snd r) /\ stop_event (snd r) = false /\
   match fst r with
   | Ok _ =>
       exists vals : values,
         processing_thread (snd r) = Some vals /\ checked calm_env vals /\
         status_var (snd r) = "Status: Starting..."
   | Raise _ => processing_thread (snd r) = processing_thread ready_window
   end).
Proof.
  apply (start_processing_checks calm_env plain_tk ready_window).
  split; [discriminate|]. split; reflexivity.
Defined.

(** X19. The worker's two messages for values that were not checked,
    ['Logic Error: No input selected.'] and ['Internal Error: Invalid Input
    Size or Max Resolution type.'], are never put for values that passed
    the checks of [start_processing], whatever the files, the model and
    the calls do. *)
Theorem checked_values_reach_no_internal_error (E : env) (vals : values) (s : state) :
  checked E vals ->
  exists q : list event,
    update_queue (snd (run (process_videos_threaded E vals) s)) = update_queue s ++ q /\
    (logic_error ∉ q) /\ (internal_error ∉ q).
Proof.
  intros (Hsize & Hres & _ & Hinput).
  assert (Hgoal : exists q : list event,
             update_queue (snd (run (process_videos_threaded E vals) s)) = update_queue s ++ q /\
             Forall expected q).
  { unfold run, process_videos_threaded, resolve_input. cbv zeta.
    destruct (py_int E (INPUT_SIZE vals)) as [input_size|]; [|contradiction].
    destruct (py_int E (MAX_RES vals)) as [max_res|]; [|contradiction].
    destruct Hinput as [(Hfile & Hfolder & _) | (Hfile & Hfolder & Hisfile)].
    - apply String.eqb_neq in Hfile. rewrite Hfile. simpl. rewrite Hfile. simpl.
      apply expected_messages_of_load_and_run.
    - rewrite Hfile. apply String.eqb_neq in Hfolder. rewrite Hfolder. simpl.
      destruct (os_path_isdir E (INPUT_FOLDER vals)); simpl.
      + rewrite ?Hfile, ?Hfolder. simpl. rewrite run_bind. unfold lift.
        destruct (os_listdir E (INPUT_FOLDER vals)) as [names|e]; simpl.
        * destruct (filter _ names) as [|v0 vs] eqn:Hfilter.
          -- eexists. split; [reflexivity | all_expected].
          -- apply expected_messages_of_load_and_run.
        * exists []. split; [symmetry; apply app_nil_r | constructor].
      + rewrite Hisfile.
        eexists. split; [reflexivity | all_expected]. }
  destruct Hgoal as (q & Hq & HP). exists q. split; [exact Hq|].
  rewrite Forall_forall in HP.
  split; intros Hin; destruct (HP _ Hin) as [H1 H2]; [apply H1 | apply H2]; reflexivity.
Qed.

Lemma checked_values_reach_no_internal_error_witness :
  exists q : list event,
    update_queue (snd (run (process_videos_threaded calm_env one_file_values) initial_state))
    = [] ++ q /\
    (logic_error ∉ q) /\ (internal_error ∉ q).
Proof.
  apply (checked_values_reach_no_internal_error calm_env one_file_values initial_state).
  split; [discriminate|]. split; [discriminate|]. split; [discriminate|].
  left. split; [discriminate|]. split; reflexivity.
Defined.

(** ** Closing the window *)

(** X20. [on_closing] destroys the window only after the settings were
    saved.  When it returns, the window is destroyed and the file holds
    the readings of all twenty variables, which a new window reads back
    unchanged; when a variable cannot be read or the file cannot be
    opened, the exception leaves [on_closing], the file is as it was and
    the window is not destroyed.  The stop event is set when a thread is
    alive, and never cleared. *)
Theorem closing_saves_before_it_destroys (tk : tk_answers) (g : gui) :
  let r := on_closing tk g in
  stop_event (snd r)
  = stop_event g || (bool_decide (processing_thread g <> None) && is_alive tk) /\
  match fst r with
  | Ok _ =>
      destroyed (snd r) = true /\
      exists d : gmap string json_value,
        settings_file (snd r) = JsonDict d /\
        current_values tk (vars g) = Ok d /\
        current_values tk (vars (gui_init (settings_file (snd r)))) = Ok d
  | Raise _ =>
      destroyed (snd r) = destroyed g /\ settings_file (snd r) = settings_file g
  end.
Proof.
  unfold on_closing. cbv zeta.
  set (g1 := if bool_decide (processing_thread g <> None) && is_alive tk
             then with_stop_event true g else g).
  assert (Hvars : vars g1 = vars g) by (subst g1; destruct (_ && _); reflexivity).
  assert (Hfile : settings_file g1 = settings_file g)
    by (subst g1; destruct (_ && _); reflexivity).
  assert (Hdest : destroyed g1 = destroyed g) by (subst g1; destruct (_ && _); reflexivity).
  assert (Hstop : stop_event g1
                  = stop_event g
                    || (bool_decide (processing_thread g <> None) && is_alive tk)).
  { subst g1. destruct (_ && _); simpl; [apply eq_sym, orb_true_r | apply eq_sym, orb_false_r]. }
  pose proof (save_then_load tk (vars g1) (settings_file g1)) as Hsave.
  destruct (save_settings tk (vars g1) (settings_file g1)) as [[[]|e] f] eqn:Hs; simpl.
  - split; [exact Hstop|]. split; [reflexivity|].
    destruct (Hsave f eq_refl) as (d & -> & Hd & Hd').
    exists d. rewrite <- Hvars. split; [reflexivity|]. split; [exact Hd | exact Hd'].
  - split; [exact Hstop|]. split; [exact Hdest|].
    rewrite <- Hfile. unfold save_settings in Hs.
    destruct (current_values tk (vars g1)); [|injection Hs as _ <-; reflexivity].
    destruct (open_raises tk); [injection Hs as _ <-; reflexivity | discriminate Hs].
Qed.

(** ** The done message of the whole worker *)

Lemma load_and_run_done (E : env) (vals : values) (input_size max_res : Z)
    (files : list string) (s : state) :
  exists q : list event,
    update_queue (snd (load_and_run E vals input_size max_res files s)) = update_queue s ++ q /\
    done_only_last q (fst (load_and_run E vals input_size max_res files s)).
Proof.
  unfold load_and_run. cbv zeta. rewrite run_bind. unfold write_event_value.
  cbv beta iota.
  destruct (load_model E (ENCODER vals) (METRIC vals) _) as [[]|e].
  - match goal with |- context [run_batch _ _ _ _ ?D _ ?st] =>
      destruct (run_batch_protocol E vals input_size max_res D files st)
        as (q & m & Hq & _ & _ & Hcase);
      unfold run in Hq, Hcase;
      destruct (run_batch E vals input_size max_res D files st) as [r1 s1]
    end.
    simpl in Hq, Hcase |- *. rewrite Hq, <- app_assoc.
    eexists. split; [reflexivity|].
    destruct r1 as [[]|e].
    + destruct Hcase as (q' & done & -> & Hd & Hdone). right.
      assert (Hreason : exists reason, done = (THREAD_DONE, VStr reason) /\
                                       (reason = "Completed" \/ reason = "Stopped")).
      { destruct Hdone as [[-> _] | [-> _]];
          [exists "Completed" | exists "Stopped"]; split; auto. }
      destruct Hreason as (reason & -> & Hreason).
      exists ([(STATUS_UPDATE, VStr "Loading model...")]
              ++ [(SET_MAX, VInt (length files))] ++ q'), reason.
      split; [rewrite <- !app_assoc; reflexivity|].
      split; [rewrite !messages_app, Hd; reflexivity|].
      split; [exact Hreason | exists tt; reflexivity].
    + destruct Hcase as [_ Hd]. left. rewrite messages_app, messages_cons. simpl. exact Hd.
  - destruct e; simpl; rewrite <- app_assoc;
      (eexists; split; [reflexivity | left; reflexivity]).
Qed.

(** X21. The whole worker puts at most one done message, and puts it
    last: a run of [process_videos_threaded] either puts no done message
    at all, or returns with ['Completed'] or ['Stopped'] as the last
    message it put.  A run that an exception leaves has put none. *)
Theorem worker_puts_done_last_or_never (E : env) (vals : values) (s : state) :
  let r := run (process_videos_threaded E vals) s in
  exists q : list event,
    update_queue (snd r) = update_queue s ++ q /\ done_only_last q (fst r).
Proof.
  unfold run, process_videos_threaded. cbv zeta.
  assert (Hone : forall msg : string,
             exists q : list event,
               update_queue (snd (write_event_value ERROR (VStr msg) s)) = update_queue s ++ q /\
               done_only_last q (fst (write_event_value ERROR (VStr msg) s))).
  { intros msg. eexists. split; [reflexivity | left; reflexivity]. }
  destruct (resolve_input E vals) as [[input_folder input_file]|]; [|apply Hone].
  destruct (py_int E (INPUT_SIZE vals)) as [input_size|]; [|apply Hone].
  destruct (py_int E (MAX_RES vals)) as [max_res|]; [|apply Hone].
  destruct (negb (String.eqb input_file "")); [apply load_and_run_done|].
  destruct (negb (String.eqb input_folder "")); [|apply Hone].
  rewrite run_bind. unfold lift.
  destruct (os_listdir E input_folder) as [names|e]; simpl.
  - destruct (filter _ names) as [|v0 vs]; [apply Hone | apply load_and_run_done].
  - exists []. split; [symmetry; apply app_nil_r | left; reflexivity].
Qed.

(** ** The names of the outputs *)

Lemma break_at_found (c : ascii) (a r : list ascii) :
  ~ In c a -> break_at c (a ++ c :: r) = (a, Some r).
Proof.
  induction a as [|x a IH]; intros Hc; simpl.
  - rewrite Ascii.eqb_refl. reflexivity.
  - destruct (Ascii.eqb x c) eqn:Hx.
    + apply Ascii.eqb_eq in Hx. exfalso. apply Hc. left. exact Hx.
    + rewrite IH; [reflexivity|]. intros Hin. apply Hc. right. exact Hin.
Qed.

Lemma break_at_absent (c : ascii) (a : list ascii) :
  ~ In c a -> break_at c a = (a, None).
Proof.
  induction a as [|x a IH]; intros Hc; simpl; [reflexivity|].
  destruct (Ascii.eqb x c) eqn:Hx.
  - apply Ascii.eqb_eq in Hx. exfalso. apply Hc. left. exact Hx.
  - rewrite IH; [reflexivity|]. intros Hin. apply Hc. right. exact Hin.
Qed.

Lemma chars_app (s1 s2 : string) :
  list_ascii_of_string (s1 +:+ s2) = list_ascii_of_string s1 ++ list_ascii_of_string s2.
Proof.
  induction s1 as [|c s1 IH]; simpl; [reflexivity|]. rewrite IH. reflexivity.
Qed.

Lemma not_in_rev (c : ascii) (l : list ascii) : ~ In c l -> ~ In c (rev l).
Proof. intros H Hin. apply H, in_rev, Hin. Qed.

(** The base name of a file in a folder is the name of the file. *)
Lemma basename_path_join (folder name : string) :
  ~ In slash (list_ascii_of_string name) -> basename (path_join folder name) = name.
Proof.
  intros Hname. unfold basename, path_join.
  assert (Hplain : string_of_list_ascii
                     (rev (fst (break_at slash (rev (list_ascii_of_string name))))) = name).
  { rewrite break_at_absent by (apply not_in_rev, Hname). simpl.
    rewrite rev_involutive. apply string_of_list_ascii_of_string. }
  destruct (String.eqb folder ""); [exact Hplain|].
  destruct (ends_with_slash folder) eqn:Hends.
  - change (folder ++ name)%string with (folder +:+ name).
    rewrite chars_app, rev_app_distr. unfold ends_with_slash in Hends.
    destruct (rev (list_ascii_of_string folder)) as [|x r]; [discriminate Hends|].
    apply Ascii.eqb_eq in Hends. subst x.
    rewrite break_at_found by (apply not_in_rev, Hname). simpl.
    rewrite rev_involutive. apply string_of_list_ascii_of_string.
  - change (folder ++ "/" ++ name)%string with (folder +:+ ("/" +:+ name)).
    rewrite chars_app, rev_app_distr. simpl. rewrite <- app_assoc. simpl.
    rewrite break_at_found by (apply not_in_rev, Hname). simpl.
    rewrite rev_involutive. apply string_of_list_ascii_of_string.
Qed.

(** The root of [stem.ext] is the stem. *)
Lemma splitext_root_stem (stem ext : string) :
  stem <> "" -> plain stem -> ~ In dot (list_ascii_of_string ext) ->
  splitext_root (stem +:+ "." +:+ ext) = stem.
Proof.
  intros Hne [_ Hdot] Hext. unfold splitext_root.
  rewrite !chars_app, !rev_app_distr. simpl. rewrite <- app_assoc. simpl.
  rewrite break_at_found by (apply not_in_rev, Hext).
  destruct (forallb _ (rev (list_ascii_of_string stem))) eqn:Hall.
  - exfalso. destruct stem as [|c stem]; [apply Hne; reflexivity|].
    rewrite forallb_forall in Hall.
    assert (Hc : Ascii.eqb c dot = true).
    { apply Hall. apply -> in_rev. left. reflexivity. }
    apply Ascii.eqb_eq in Hc. apply Hdot. left. exact Hc.
  - rewrite rev_involutive. apply string_of_list_ascii_of_string.
Qed.

Lemma base_name_no_ext_stem (folder stem ext : string) :
  stem <> "" -> plain stem -> plain ext ->
  base_name_no_ext (path_join folder (stem +:+ "." +:+ ext)) = stem.
Proof.
  intros Hne Hstem [Hslash Hdot]. unfold base_name_no_ext.
  rewrite basename_path_join; [apply splitext_root_stem; assumption|].
  rewrite !chars_app. simpl. intros Hin.
  apply in_app_or in Hin as [Hin | [Hin | Hin]].
  - destruct Hstem as [Hs _]. apply Hs, Hin.
  - discriminate Hin.
  - apply Hslash, Hin.
Qed.

(** X22. The outputs of a file are named by the stem of its name alone:
    the folder of the source and its extension play no part.  Two sources
    with one stem, as [clip.mp4] and [clip.mov], get the same source clip,
    depth video, archive and frame folders in the output directory, so
    that the later one overwrites what the earlier one wrote. *)
Theorem same_stem_same_outputs (vals : values) (folder1 folder2 stem ext1 ext2 : string) :
  stem <> "" -> plain stem -> plain ext1 -> plain ext2 ->
  let f1 := path_join folder1 (stem +:+ "." +:+ ext1) in
  let f2 := path_join folder2 (stem +:+ "." +:+ ext2) in
  base_name_no_ext f1 = stem /\
  base_name_no_ext f2 = stem /\
  processed_video_path vals f1 = processed_video_path vals f2 /\
  depth_vis_path vals f1 = depth_vis_path vals f2 /\
  depth_npz_path vals f1 = depth_npz_path vals f2 /\
  depth_exr_dir vals f1 = depth_exr_dir vals f2 /\
  depth_png_dir vals f1 = depth_png_dir vals f2.
Proof.
  intros Hne Hstem Hext1 Hext2 f1 f2.
  pose proof (base_name_no_ext_stem folder1 stem ext1 Hne Hstem Hext1) as H1.
  pose proof (base_name_no_ext_stem folder2 stem ext2 Hne Hstem Hext2) as H2.
  fold f1 in H1. fold f2 in H2.
  unfold processed_video_path, depth_vis_path, depth_npz_path, depth_exr_dir, depth_png_dir.
  rewrite H1, H2. split; [reflexivity|]. split; [reflexivity|].
  split; [reflexivity|]. split; [reflexivity|]. split; [reflexivity|].
  split; reflexivity.
Qed.

Lemma same_stem_same_outputs_witness :
  let f1 := path_join "/videos" ("clip" +:+ "." +:+ "mp4") in
  let f2 := path_join "/archive/" ("clip" +:+ "." +:+ "mov") in
  base_name_no_ext f1 = "clip" /\
  base_name_no_ext f2 = "clip" /\
  processed_video_path folder_values f1 = processed_video_path folder_values f2 /\
  depth_vis_path folder_values f1 = depth_vis_path folder_values f2 /\
  depth_npz_path folder_values f1 = depth_npz_path folder_values f2 /\
  depth_exr_dir folder_values f1 = depth_exr_dir folder_values f2 /\
  depth_png_dir folder_values f1 = depth_png_dir folder_values f2.
Proof.
  assert (Hplain : forall s : string,
             forallb (fun c => negb (Ascii.eqb c slash) && negb (Ascii.eqb c dot))
               (list_ascii_of_string s) = true -> plain s).
  { intros s Hs. rewrite forallb_forall in Hs.
    split; intros Hin; apply Hs in Hin; rewrite Ascii.eqb_refl in Hin;
      [discriminate Hin | rewrite andb_false_r in Hin; discriminate Hin]. }
  apply (same_stem_same_outputs folder_values "/videos" "/archive/" "clip" "mp4" "mov").
  - discriminate.
  - apply Hplain. reflexivity.
  - apply Hplain. reflexivity.
  - apply Hplain. reflexivity.
Defined.
